(** * Remote processor framework: drivers/remoteproc/remoteproc.c

    A shallow embedding of the lifecycle manager ([rproc_get], [rproc_put],
    [rproc_register], [rproc_unregister]), of the firmware pipeline
    ([rproc_load_fw], [rproc_process_fw], [rproc_handle_resources],
    [rproc_handle_trace_rsc]) and of the address translator
    ([rproc_da_to_pa]), with the properties of the framework's specification
    stated and settled against them.

    Conventions.
    - C integers are [Z] with the wrap-around of their type written out
      ([wrap_int], [to_u32], [to_u64]).
    - A pointer that the code tests against NULL is a [Z], 0 being NULL.
    - The firmware blob is a [list byte]; a pointer into it is the suffix of
      the blob that starts there.  Multi-byte fields are decoded little
      endian, the byte order of the ARM machines this tree drives.
    - Code that mutates [struct rproc] runs in a small state monad that also
      collects the externally visible calls it makes (log lines, ioremap,
      module_put, ...) as a list of events, oldest first.
    - What the kernel around the framework answers (ioremap, mutexes, the
      backend's start and stop, the firmware loader) is an [env] of oracles. *)

From Stdlib Require Import ZArith Bool String List Lia.
From Stdlib.Strings Require Import Byte.
Import ListNotations.
Open Scope Z_scope.

(** ** Machine integers *)

Definition to_u32 (x : Z) : Z := x mod 2 ^ 32.
Definition to_u64 (x : Z) : Z := x mod 2 ^ 64.

(** Conversion to [int] (two's complement, as gcc defines it). *)
Definition wrap_int (x : Z) : Z := (x + 2 ^ 31) mod 2 ^ 32 - 2 ^ 31.

Definition INT_MAX : Z := 2 ^ 31 - 1.

(** [x > c] and [x >= c] where [x] is an [int] and [c] a [sizeof]: the usual
    arithmetic conversions turn [x] into a [size_t], so that a negative [x]
    compares as a huge value.  This holds for a 32-bit and for a 64-bit
    [size_t] alike, as long as [c] is small. *)
Definition size_t_gt (x c : Z) : bool := (x <? 0) || (c <? x).
Definition size_t_ge (x c : Z) : bool := (x <? 0) || (c <=? x).

Definition EINVAL : Z := 22.
Definition ENOMEM : Z := 12.
Definition EBUSY : Z := 16.
Definition EINTR : Z := 4.

(** ** include/linux/remoteproc.h *)

(** [struct rproc_mem_entry]: [da] is a [u64], [pa] a [phys_addr_t],
    [size] a [u32]. *)
Record rproc_mem_entry : Type := {
  me_da : Z;
  me_pa : Z;
  me_size : Z
}.

(** The fixed part of [struct fw_section] (packed, 16 bytes). *)
Record fw_section : Type := {
  sec_type : Z;
  sec_da : Z;
  sec_len : Z
}.

Definition sizeof_fw_header : Z := 12.
Definition sizeof_fw_section : Z := 16.

Definition FW_RESOURCE : Z := 0.
Definition FW_TEXT : Z := 1.
Definition FW_DATA : Z := 2.

(** [struct fw_resource] (packed, 4 + 8 + 8 + 4 + 4 + 48 = 76 bytes). *)
Record fw_resource : Type := {
  rsc_type : Z;
  rsc_da : Z;
  rsc_pa : Z;
  rsc_len : Z;
  rsc_flags : Z;
  rsc_name : list byte
}.

Definition sizeof_fw_resource : Z := 76.

Definition RSC_CARVEOUT : Z := 0.
Definition RSC_DEVMEM : Z := 1.
Definition RSC_DEVICE : Z := 2.
Definition RSC_IRQ : Z := 3.
Definition RSC_TRACE : Z := 4.
Definition RSC_BOOTADDR : Z := 5.

Inductive rproc_state : Type :=
| RPROC_OFFLINE
| RPROC_SUSPENDED
| RPROC_RUNNING
| RPROC_LOADING
| RPROC_CRASHED.

Definition rproc_state_eqb (a b : rproc_state) : bool :=
  match a, b with
  | RPROC_OFFLINE, RPROC_OFFLINE
  | RPROC_SUSPENDED, RPROC_SUSPENDED
  | RPROC_RUNNING, RPROC_RUNNING
  | RPROC_LOADING, RPROC_LOADING
  | RPROC_CRASHED, RPROC_CRASHED => true
  | _, _ => false
  end.

(** [struct rproc].  The list linkage, the mutex, the device, the owner
    module and the backend's v-table are handles into the surrounding kernel;
    what they answer is in [env] below.  [memory_maps] is the table up to,
    and without, its zero-size sentinel; [None] is a NULL table.
    [firmware_loading_complete] is [true] once the completion is done. *)
Record rproc : Type := {
  name : string;
  memory_maps : option (list rproc_mem_entry);
  firmware : option string;
  count : Z;
  state : rproc_state;
  dbg_dir : Z;
  trace_buf0 : Z;
  trace_buf1 : Z;
  trace_len0 : Z;
  trace_len1 : Z;
  firmware_loading_complete : bool
}.

Definition with_count (c : Z) (r : rproc) : rproc :=
  {| name := name r; memory_maps := memory_maps r; firmware := firmware r;
     count := c; state := state r; dbg_dir := dbg_dir r;
     trace_buf0 := trace_buf0 r; trace_buf1 := trace_buf1 r;
     trace_len0 := trace_len0 r; trace_len1 := trace_len1 r;
     firmware_loading_complete := firmware_loading_complete r |}.

Definition with_state (st : rproc_state) (r : rproc) : rproc :=
  {| name := name r; memory_maps := memory_maps r; firmware := firmware r;
     count := count r; state := st; dbg_dir := dbg_dir r;
     trace_buf0 := trace_buf0 r; trace_buf1 := trace_buf1 r;
     trace_len0 := trace_len0 r; trace_len1 := trace_len1 r;
     firmware_loading_complete := firmware_loading_complete r |}.

Definition with_trace0 (buf len : Z) (r : rproc) : rproc :=
  {| name := name r; memory_maps := memory_maps r; firmware := firmware r;
     count := count r; state := state r; dbg_dir := dbg_dir r;
     trace_buf0 := buf; trace_buf1 := trace_buf1 r;
     trace_len0 := len; trace_len1 := trace_len1 r;
     firmware_loading_complete := firmware_loading_complete r |}.

Definition with_trace1 (buf len : Z) (r : rproc) : rproc :=
  {| name := name r; memory_maps := memory_maps r; firmware := firmware r;
     count := count r; state := state r; dbg_dir := dbg_dir r;
     trace_buf0 := trace_buf0 r; trace_buf1 := buf;
     trace_len0 := trace_len0 r; trace_len1 := len;
     firmware_loading_complete := firmware_loading_complete r |}.

(** [rproc->trace_buf0 = rproc->trace_buf1 = NULL]: the lengths stay. *)
Definition with_trace_bufs_null (r : rproc) : rproc :=
  {| name := name r; memory_maps := memory_maps r; firmware := firmware r;
     count := count r; state := state r; dbg_dir := dbg_dir r;
     trace_buf0 := 0; trace_buf1 := 0;
     trace_len0 := trace_len0 r; trace_len1 := trace_len1 r;
     firmware_loading_complete := firmware_loading_complete r |}.

Definition with_completion (b : bool) (r : rproc) : rproc :=
  {| name := name r; memory_maps := memory_maps r; firmware := firmware r;
     count := count r; state := state r; dbg_dir := dbg_dir r;
     trace_buf0 := trace_buf0 r; trace_buf1 := trace_buf1 r;
     trace_len0 := trace_len0 r; trace_len1 := trace_len1 r;
     firmware_loading_complete := b |}.

(** ** The surrounding kernel *)

(** What a call leaves behind outside [struct rproc]. *)
Inductive event : Type :=
| EvErr (msg : string)                      (* dev_err / pr_err *)
| EvWarn (msg : string)                     (* dev_warn *)
| EvInfo (msg : string)                     (* dev_info *)
| EvIoremap (pa len ptr : Z)                (* ioremap_nocache, and its answer *)
| EvIounmap (ptr : Z)
| EvMemcpy (ptr : Z) (content : list byte)
| EvDebugfsAdd (file : string)              (* DEBUGFS_ADD *)
| EvDebugfsRemove (dir : Z)                 (* debugfs_remove_recursive *)
| EvStart (bootaddr ret : Z)                (* ops->start, and its answer *)
| EvStop (ret : Z)                          (* ops->stop, and its answer *)
| EvTryModuleGet (ok : bool)
| EvModulePut
| EvMutexLock (ret : Z)                     (* mutex_lock_interruptible *)
| EvMutexUnlock
| EvInitCompletion
| EvCompleteAll
| EvRequestFirmware (ret : Z)               (* request_firmware_nowait *)
| EvReleaseFirmware
| EvDebugfsCreateFile (file : string)
| EvKfree.

(** The answers of the kernel.  [ioremap_nocache n pa len] is the answer to
    the call number [n] (counted from 0 within one run of the loader). *)
Record env : Type := {
  ioremap_nocache : nat -> Z -> Z -> Z;
  ops_start : Z -> Z;
  ops_stop : Z;
  mutex_lock_interruptible : Z;
  try_module_get : bool;
  request_firmware_nowait : Z;
  kzalloc_ok : bool;
  rproc_dbg : Z;                 (* the debugfs parent directory, or NULL *)
  debugfs_create_dir : Z
}.

(** ** A state monad that collects events and may get stuck *)

Inductive stuck : Type :=
| OutOfBounds      (* a read past the end of the object pointed to *)
| Uninitialised    (* use of a variable that was never assigned *)
| Blocked          (* wait_for_completion on a completion that is not done *)
| OutOfFuel.

Inductive outcome (S A : Type) : Type :=
| Ret (a : A) (s : S) (evs : list event)
| Stuck (why : stuck).

Arguments Ret {S A} a s evs.
Arguments Stuck {S A} why.

Definition M (S A : Type) : Type := S -> outcome S A.

Definition ret {S A : Type} (a : A) : M S A := fun s => Ret a s [].

Definition bind {S A B : Type} (m : M S A) (f : A -> M S B) : M S B :=
  fun s =>
    match m s with
    | Ret a s1 e1 =>
        match f a s1 with
        | Ret b s2 e2 => Ret b s2 (e1 ++ e2)
        | Stuck w => Stuck w
        end
    | Stuck w => Stuck w
    end.

Definition get {S : Type} : M S S := fun s => Ret s s [].
Definition modify {S : Type} (f : S -> S) : M S unit := fun s => Ret tt (f s) [].
Definition emit {S : Type} (e : event) : M S unit := fun s => Ret tt s [e].
Definition abort {S A : Type} (w : stuck) : M S A := fun _ => Stuck w.

Declare Scope monad_scope.
Delimit Scope monad_scope with monad.
Notation "x <- m ;; k" := (bind m (fun x => k))
  (at level 61, m at next level, right associativity) : monad_scope.
Notation "' p <- m ;; k" := (bind m (fun x => match x with p => k end))
  (at level 61, p pattern, m at next level, right associativity) : monad_scope.
Notation "m ;; k" := (bind m (fun _ => k))
  (at level 61, right associativity) : monad_scope.
Open Scope monad_scope.

(** Run [m] on a part of the state picked by [proj] and put back by [inj]. *)
Definition zoom {S T A : Type} (proj : S -> option T) (inj : T -> S -> S)
    (m : M T A) : M S A :=
  fun s =>
    match proj s with
    | None => Stuck OutOfBounds
    | Some t =>
        match m t with
        | Ret a t' evs => Ret a (inj t' s) evs
        | Stuck w => Stuck w
        end
    end.

(** The loader's state: the processor and the number of ioremap calls made. *)
Record machine : Type := {
  this : rproc;
  ioremaps : nat
}.

Definition on_rproc (f : rproc -> rproc) : M machine unit :=
  modify (fun m => {| this := f (this m); ioremaps := ioremaps m |}).

Definition get_rproc : M machine rproc :=
  fun m => Ret (this m) m [].

Definition do_ioremap (e : env) (pa len : Z) : M machine Z :=
  fun m =>
    let ptr := ioremap_nocache e (ioremaps m) pa len in
    Ret ptr {| this := this m; ioremaps := S (ioremaps m) |}
        [EvIoremap pa len ptr].

(** ** Decoding the firmware blob *)

Definition byte_val (b : byte) : Z := Z.of_N (Byte.to_N b).

Fixpoint le_val (bs : list byte) : Z :=
  match bs with
  | [] => 0
  | b :: rest => byte_val b + 256 * le_val rest
  end.

(** The [n] bytes at offset [off] of [bs], if they are all there. *)
Definition bytes_at (off n : nat) (bs : list byte) : option (list byte) :=
  if (off + n <=? length bs)%nat then Some (firstn n (skipn off bs)) else None.

(** Reading the header fields of the [struct fw_section] at [sec]. *)
Definition read_fw_section (sec : list byte) : option fw_section :=
  match bytes_at 0 16 sec with
  | None => None
  | Some h =>
      Some {| sec_type := le_val (firstn 4 h);
              sec_da := le_val (firstn 8 (skipn 4 h));
              sec_len := le_val (firstn 4 (skipn 12 h)) |}
  end.

(** One [struct fw_resource] from its 76 bytes. *)
Definition decode_fw_resource (bs : list byte) : fw_resource :=
  {| rsc_type := le_val (firstn 4 bs);
     rsc_da := le_val (firstn 8 (skipn 4 bs));
     rsc_pa := le_val (firstn 8 (skipn 12 bs));
     rsc_len := le_val (firstn 4 (skipn 20 bs));
     rsc_flags := le_val (firstn 4 (skipn 24 bs));
     rsc_name := firstn 48 (skipn 28 bs) |}.

Fixpoint fw_resource_array (n : nat) (bs : list byte) : list fw_resource :=
  match n with
  | O => []
  | S n' => decode_fw_resource (firstn 76 bs) :: fw_resource_array n' (skipn 76 bs)
  end.

(** The cast [(struct fw_resource * ) ptr] of a mapped region that holds
    [content]: the entries that lie entirely inside the region. *)
Definition as_fw_resources (content : list byte) : list fw_resource :=
  fw_resource_array (length content / 76)%nat content.

(** The first four bytes are ['R'; 'P'; 'R'; 'C']. *)
Definition magic_ok (data : list byte) : bool :=
  match data with
  | b0 :: b1 :: b2 :: b3 :: _ =>
      Byte.eqb b0 x52 && Byte.eqb b1 x50 && Byte.eqb b2 x52 && Byte.eqb b3 x43
  | _ => false
  end.

(** C's truth value of an integer or of a pointer. *)
Definition nonzero (x : Z) : bool := negb (x =? 0).

Definition when {S : Type} (b : bool) (m : M S unit) : M S unit :=
  if b then m else ret tt.

(** ** drivers/remoteproc/remoteproc.c *)

Section Framework.

(** [phys_addr_t] is declared outside the files at hand (linux/types.h); its
    width in bits is left open here.  It is 32 on the ARM machines of this
    tree. *)
Variable phys_addr_bits : Z.

Definition phys_addr_t (x : Z) : Z := x mod 2 ^ phys_addr_bits.

(** The [for] loop of [rproc_da_to_pa].  The end of the list is the zero-size
    sentinel; a zero-size entry inside the list ends the walk as well. *)
Fixpoint da_to_pa_loop (maps : list rproc_mem_entry) (da : Z) : option Z :=
  match maps with
  | [] => None
  | me :: rest =>
      if me_size me =? 0 then None
      else if (me_da me <=? da) && (da <? to_u64 (me_da me + me_size me)) then
        let offset := to_u64 (da - me_da me) in
        Some (phys_addr_t (me_pa me + offset))
      else da_to_pa_loop rest da
  end.

(** [Some pa] is the return value 0 with [*pa] written; [None] is the return
    value [-EINVAL], the only error. *)
Definition rproc_da_to_pa (maps : option (list rproc_mem_entry)) (da : Z)
    : option Z :=
  match maps with
  | None =>
      if phys_addr_t (to_u32 (-1)) <? da then None
      else Some (phys_addr_t da)
  | Some tbl => da_to_pa_loop tbl da
  end.

Variable e : env.

Definition rproc_start (bootaddr : Z) : M machine unit :=
  let err := mutex_lock_interruptible e in
  emit (EvMutexLock err);;
  if nonzero err then
    emit (EvErr "can't lock remote processor")
  else
    let err := ops_start e bootaddr in
    emit (EvStart bootaddr err);;
    (if nonzero err then
       emit (EvErr "can't start rproc")
     else
       on_rproc (with_state RPROC_RUNNING);;
       emit (EvInfo "remote processor is now up"));;
    emit EvMutexUnlock.

Definition rproc_handle_trace_rsc (rsc : fw_resource) : M machine Z :=
  rproc <- get_rproc;;
  match rproc_da_to_pa (memory_maps rproc) (rsc_da rsc) with
  | None =>
      emit (EvErr "invalid device address");;
      ret (- EINVAL)
  | Some pa =>
      if nonzero (trace_buf0 rproc) && nonzero (trace_buf1 rproc) then
        emit (EvWarn "skipping extra trace rsc");;
        ret (- EBUSY)
      else
        ptr <- do_ioremap e pa (rsc_len rsc);;
        if negb (nonzero ptr) then
          emit (EvErr "can't ioremap trace buffer");;
          ret (- ENOMEM)
        else
          (if negb (nonzero (trace_buf0 rproc)) then
             on_rproc (with_trace0 ptr (wrap_int (rsc_len rsc)));;
             emit (EvDebugfsAdd "trace0")
           else
             on_rproc (with_trace1 ptr (wrap_int (rsc_len rsc)));;
             emit (EvDebugfsAdd "trace1"));;
          ret 0
  end.

(** The [switch] on one resource entry: the new [ret] and [*bootaddr]. *)
Definition handle_resource (rsc : fw_resource) (bootaddr : Z)
    : M machine (Z * Z) :=
  if rsc_type rsc =? RSC_TRACE then
    r <- rproc_handle_trace_rsc rsc;;
    when (nonzero r) (emit (EvErr "failed handling rsc"));;
    ret (r, bootaddr)
  else if rsc_type rsc =? RSC_BOOTADDR then
    when (nonzero bootaddr) (emit (EvWarn "bootaddr already set"));;
    ret (0, rsc_da rsc)
  else
    ret (0, bootaddr).

(** The [while] loop of [rproc_handle_resources]; [rsc] is the array the
    pointer leads to, and stepping past its end is a read out of bounds. *)
Fixpoint handle_resources_loop (rsc : list fw_resource) (len bootaddr : Z)
    : M machine (Z * Z) :=
  if size_t_ge len sizeof_fw_resource then
    match rsc with
    | [] => abort OutOfBounds
    | entry :: rest =>
        '(r, bootaddr) <- handle_resource entry bootaddr;;
        if nonzero r then ret (r, bootaddr)
        else handle_resources_loop rest (wrap_int (len - sizeof_fw_resource))
               bootaddr
    end
  else ret (0, bootaddr).

Definition rproc_handle_resources (rsc : list fw_resource) (len bootaddr : Z)
    : M machine (Z * Z) :=
  '(r, bootaddr) <- handle_resources_loop rsc len bootaddr;;
  rproc <- get_rproc;;
  when (nonzero r && nonzero (trace_buf0 rproc))
       (emit (EvIounmap (trace_buf0 rproc)));;
  when (nonzero r && nonzero (trace_buf1 rproc))
       (emit (EvIounmap (trace_buf1 rproc)));;
  ret (r, bootaddr).

(** The [while] loop of [rproc_process_fw]; [section] is the blob from the
    section pointer on, [left] the [int] of that name. *)
Fixpoint process_fw_loop (fuel : nat) (section : list byte) (left bootaddr : Z)
    : M machine (Z * Z) :=
  match fuel with
  | O => abort OutOfFuel
  | S fuel' =>
      if size_t_gt left sizeof_fw_section then
        match read_fw_section section with
        | None => abort OutOfBounds
        | Some hdr =>
            let da := sec_da hdr in
            let len := sec_len hdr in
            let left := wrap_int (left - sizeof_fw_section) in
            if to_u32 left <? len then
              emit (EvErr "firmware image is truncated");;
              ret (- EINVAL, bootaddr)
            else
              rproc <- get_rproc;;
              match rproc_da_to_pa (memory_maps rproc) da with
              | None =>
                  emit (EvErr "rproc_da_to_pa failed");;
                  ret (- EINVAL, bootaddr)
              | Some pa =>
                  ptr <- do_ioremap e pa len;;
                  if negb (nonzero ptr) then
                    emit (EvErr "can't ioremap");;
                    ret (- ENOMEM, bootaddr)
                  else
                    match bytes_at 16 (Z.to_nat len) section with
                    | None => abort OutOfBounds
                    | Some content =>
                        emit (EvMemcpy ptr content);;
                        '(r, bootaddr) <-
                          (if sec_type hdr =? FW_RESOURCE then
                             rproc_handle_resources (as_fw_resources content)
                               (wrap_int len) bootaddr
                           else ret (0, bootaddr));;
                        emit (EvIounmap ptr);;
                        if nonzero r then ret (r, bootaddr)
                        else
                          process_fw_loop fuel'
                            (skipn (16 + Z.to_nat len) section)
                            (wrap_int (left - len)) bootaddr
                    end
              end
        end
      else ret (0, bootaddr)
  end.

(** Every turn of the loop moves the section pointer by at least a section
    header, so the length of the blob bounds the number of turns. *)
Definition rproc_process_fw (section : list byte) (left bootaddr : Z)
    : M machine (Z * Z) :=
  process_fw_loop (S (length section)) section left bootaddr.

Definition complete_all : M machine unit :=
  on_rproc (with_completion true);;
  emit EvCompleteAll.

(** [fw] is [None] when the loader hands the callback a NULL blob. *)
Definition rproc_load_fw (fw : option (list byte)) : M machine unit :=
  match fw with
  | None =>
      emit (EvErr "failed to load");;
      complete_all
  | Some data =>
      emit (EvInfo "Loaded fw image");;
      (if Z.of_nat (length data) <? sizeof_fw_header then
         emit (EvErr "Image is too small")
       else if negb (magic_ok data) then
         emit (EvErr "Image is corrupted (bad magic)")
       else
         emit (EvInfo "BIOS image version");;
         let header_len := le_val (firstn 4 (skipn 8 data)) in
         let section := skipn (12 + Z.to_nat header_len) data in
         let left :=
           wrap_int (Z.of_nat (length data) - sizeof_fw_header - header_len) in
         '(r, bootaddr) <- rproc_process_fw section left 0;;
         if nonzero r then
           emit (EvErr "Failed to process the image")
         else
           rproc_start bootaddr);;
      emit EvReleaseFirmware;;
      complete_all
  end.

End Framework.

Section Lifecycle.

Variable e : env.

(** The registry [rprocs], in list order.  A [struct rproc *] into it is the
    position of the record. *)
Definition registry : Type := list rproc.

Fixpoint find_from (i : nat) (nm : string) (l : registry) : option nat :=
  match l with
  | [] => None
  | r :: rest =>
      if String.eqb (name r) nm then Some i else find_from (S i) nm rest
  end.

(** The local [rproc] is assigned only inside the loop body, so on an empty
    list the function returns a variable that was never written. *)
Definition __find_rproc_by_name (nm : string) : M registry (option nat) :=
  fun l =>
    match l with
    | [] => Stuck Uninitialised
    | _ :: _ => Ret (find_from 0 nm l) l []
    end.

Fixpoint replace_nth (i : nat) (r : rproc) (l : registry) : registry :=
  match l, i with
  | [], _ => []
  | _ :: rest, O => r :: rest
  | x :: rest, S i' => x :: replace_nth i' r rest
  end.

Fixpoint remove_nth (i : nat) (l : registry) : registry :=
  match l, i with
  | [], _ => []
  | _ :: rest, O => rest
  | x :: rest, S i' => x :: remove_nth i' rest
  end.

(** Code that works through the pointer [i]. *)
Definition at_rproc {A : Type} (i : nat) (m : M rproc A) : M registry A :=
  zoom (fun l => nth_error l i) (replace_nth i) m.

(** The labels [deref_rproc] and [unlock_mutex] of [rproc_get], entered with
    [ret] still NULL. *)
Definition deref_rproc : M rproc (option nat) :=
  modify (with_completion true);;
  emit EvCompleteAll;;
  emit EvModulePut;;
  rproc <- get;;
  modify (with_count (wrap_int (count rproc - 1)));;
  emit EvMutexUnlock;;
  ret None.

Definition rproc_get (nm : string) : M registry (option nat) :=
  found <- __find_rproc_by_name nm;;
  match found with
  | None =>
      emit (EvErr "can't find remote processor");;
      ret None
  | Some i =>
      at_rproc i
        (let err := mutex_lock_interruptible e in
         emit (EvMutexLock err);;
         if nonzero err then
           emit (EvErr "can't lock remote processor");;
           ret None
         else
           emit (EvTryModuleGet (try_module_get e));;
           if negb (try_module_get e) then
             emit (EvErr "can't get owner");;
             emit EvMutexUnlock;;
             ret None
           else
             rproc <- get;;
             modify (with_count (wrap_int (count rproc + 1)));;
             if nonzero (count rproc) then
               emit EvMutexUnlock;;
               ret (Some i)
             else
               modify (with_completion false);;
               emit EvInitCompletion;;
               emit (EvInfo "powering up");;
               match firmware rproc with
               | None =>
                   emit (EvErr "no firmware to load");;
                   deref_rproc
               | Some _ =>
                   let err := request_firmware_nowait e in
                   emit (EvRequestFirmware err);;
                   if err <? 0 then
                     emit (EvErr "request_firmware_nowait failed");;
                     deref_rproc
                   else
                     modify (with_state RPROC_LOADING);;
                     emit EvMutexUnlock;;
                     ret (Some i)
               end)
  end.

(** The label [out] of [rproc_put], entered with the given [ret]. *)
Definition put_out (r : Z) : M rproc unit :=
  emit EvMutexUnlock;;
  when (negb (nonzero r)) (emit EvModulePut).

Definition rproc_put : M rproc unit :=
  rproc <- get;;
  if negb (nonzero (count rproc)) then
    emit (EvErr "asymmetric put (fogot to call rproc_get ?)");;
    put_out (- EINVAL)
  else
    (if firmware_loading_complete rproc then ret tt else abort Blocked);;
    let r := mutex_lock_interruptible e in
    emit (EvMutexLock r);;
    if nonzero r then
      emit (EvErr "can't lock rproc")
    else
      modify (with_count (wrap_int (count rproc - 1)));;
      if nonzero (wrap_int (count rproc - 1)) then
        put_out r
      else
        when (nonzero (trace_buf0 rproc)) (emit (EvIounmap (trace_buf0 rproc)));;
        when (nonzero (trace_buf1 rproc)) (emit (EvIounmap (trace_buf1 rproc)));;
        modify with_trace_bufs_null;;
        if rproc_state_eqb (state rproc) RPROC_RUNNING then
          let r := ops_stop e in
          emit (EvStop r);;
          if nonzero r then
            emit (EvErr "can't stop rproc");;
            put_out r
          else
            modify (with_state RPROC_OFFLINE);;
            emit (EvInfo "stopped remote processor");;
            put_out r
        else
          modify (with_state RPROC_OFFLINE);;
          emit (EvInfo "stopped remote processor");;
          put_out r.

(** [dev] and [ops] are pointers (0 is NULL), [nm] is [None] for a NULL
    name.  [kzalloc] zeroes the record. *)
Definition rproc_register (dev : Z) (nm : option string) (ops : Z)
    (fw : option string) (maps : option (list rproc_mem_entry))
    : M registry Z :=
  match nm with
  | None => ret (- EINVAL)
  | Some nm =>
      if negb (nonzero dev) || negb (nonzero ops) then ret (- EINVAL)
      else if negb (kzalloc_ok e) then
        emit (EvErr "kzalloc failed");;
        ret (- ENOMEM)
      else
        let dir :=
          if nonzero (rproc_dbg e) then debugfs_create_dir e else 0 in
        let rproc :=
          {| name := nm; memory_maps := maps; firmware := fw;
             count := 0; state := RPROC_OFFLINE; dbg_dir := dir;
             trace_buf0 := 0; trace_buf1 := 0;
             trace_len0 := 0; trace_len1 := 0;
             firmware_loading_complete := false |} in
        modify (fun l => l ++ [rproc]);;
        emit (EvInfo "is available");;
        (if negb (nonzero (rproc_dbg e)) then ret tt
         else if negb (nonzero dir) then emit (EvErr "can't create debugfs dir")
         else
           emit (EvDebugfsCreateFile "name");;
           emit (EvDebugfsCreateFile "state"));;
        ret 0
  end.

Definition rproc_unregister (nm : string) : M registry Z :=
  found <- __find_rproc_by_name nm;;
  match found with
  | None =>
      emit (EvErr "can't find remote processor");;
      ret (- EINVAL)
  | Some i =>
      l <- get;;
      match nth_error l i with
      | None => abort OutOfBounds
      | Some rproc =>
          emit (EvInfo "removing");;
          when (nonzero (dbg_dir rproc)) (emit (EvDebugfsRemove (dbg_dir rproc)));;
          modify (remove_nth i);;
          emit EvKfree;;
          ret 0
      end
  end.

End Lifecycle.

(** ** Vocabulary of the properties *)

(** The address translator in the words of its specification: identity when
    [da] fits the physical address width, else the first table entry whose
    range holds [da]. *)
Definition in_range (da : Z) (me : rproc_mem_entry) : bool :=
  (me_da me <=? da) && (da <? me_da me + me_size me).

Definition translate (phys_addr_bits : Z)
    (maps : option (list rproc_mem_entry)) (da : Z) : option Z :=
  match maps with
  | None => if da <? 2 ^ phys_addr_bits then Some da else None
  | Some tbl =>
      match find (in_range da) tbl with
      | Some me => Some (me_pa me + (da - me_da me))
      | None => None
      end
  end.

(** A table entry describes a non-empty range that ends below the top of the
    64-bit device address space and whose image lies inside the physical
    address space. *)
Definition wf_mem_entry (phys_addr_bits : Z) (me : rproc_mem_entry) : Prop :=
  0 <= me_da me /\ 0 < me_size me /\ me_da me + me_size me < 2 ^ 64 /\
  0 <= me_pa me /\ me_pa me + me_size me <= 2 ^ phys_addr_bits.

(** A table entry describes a non-empty range that ends below the top of the
    64-bit device address space; nothing is asked of its physical address. *)
Definition da_range (me : rproc_mem_entry) : Prop :=
  0 <= me_da me /\ 0 < me_size me /\ me_da me + me_size me < 2 ^ 64.

Definition wf_maps (phys_addr_bits : Z)
    (maps : option (list rproc_mem_entry)) : Prop :=
  match maps with
  | None => True
  | Some tbl => Forall (wf_mem_entry phys_addr_bits) tbl
  end.

(** [ops->start] was called and answered 0. *)
Definition is_start_ok (ev : event) : bool :=
  match ev with
  | EvStart _ r => r =? 0
  | _ => false
  end.

Definition started (evs : list event) : bool := existsb is_start_ok evs.

Definition is_start (ev : event) : bool :=
  match ev with
  | EvStart _ _ => true
  | _ => false
  end.

Definition start_events (evs : list event) : list event := filter is_start evs.

(** A trace buffer was bound to a slot and exposed (DEBUGFS_ADD). *)
Definition is_trace_binding (ev : event) : bool :=
  match ev with
  | EvDebugfsAdd _ => true
  | _ => false
  end.

Definition bindings (evs : list event) : nat :=
  length (filter is_trace_binding evs).

Definition free_slots (r : rproc) : nat :=
  (if trace_buf0 r =? 0 then 1 else 0) + (if trace_buf1 r =? 0 then 1 else 0).


Definition is_trace_refused (ev : event) : bool :=
  match ev with
  | EvErr msg => String.eqb msg "failed handling rsc"
  | _ => false
  end.

Definition is_module_put (ev : event) : bool :=
  match ev with
  | EvModulePut => true
  | _ => false
  end.

Definition module_puts (evs : list event) : nat :=
  length (filter is_module_put evs).

Definition is_try_module_get (ev : event) : bool :=
  match ev with
  | EvTryModuleGet true => true
  | _ => false
  end.

Definition module_gets (evs : list event) : nat :=
  length (filter is_try_module_get evs).

(** The unmapping of the bound trace buffers on the last [rproc_put]. *)
Definition unmaps (r : rproc) : list event :=
  (if nonzero (trace_buf0 r) then [EvIounmap (trace_buf0 r)] else []) ++
  (if nonzero (trace_buf1 r) then [EvIounmap (trace_buf1 r)] else []).

(** The boot address after the entries of [rsc], each BOOTADDR entry
    replacing what was recorded before it. *)
Definition last_bootaddr (rsc : list fw_resource) (bootaddr : Z) : Z :=
  fold_left
    (fun b entry => if rsc_type entry =? RSC_BOOTADDR then rsc_da entry else b)
    rsc bootaddr.

(** The outcome [o], with [evs] having happened before. *)
Definition prepend {S A : Type} (evs : list event) (o : outcome S A)
    : outcome S A :=
  match o with
  | Ret a s e2 => Ret a s (evs ++ e2)
  | Stuck w => Stuck w
  end.

(** Whenever [c] returns, its start state, end state and events are related
    by [I]. *)
Definition respects {S A : Type} (I : S -> S -> list event -> Prop)
    (c : M S A) : Prop :=
  forall s a s' evs, c s = Ret a s' evs -> I s s' evs.

(** [c] gets stuck only for a reason in [P]. *)
Definition stuck_only {S A : Type} (P : stuck -> Prop) (c : M S A) : Prop :=
  forall s w, c s = Stuck w -> P w.

Definition is_oob (w : stuck) : Prop := w = OutOfBounds.

(** What [rproc_load_fw] leaves alone: the count; the state, unless the
    backend started the processor; a trace slot that is bound. *)
Definition load_keeps (s s' : machine) (evs : list event) : Prop :=
  count (this s') = count (this s) /\
  (started evs = false -> state (this s') = state (this s)) /\
  (trace_buf0 (this s) <> 0 -> trace_buf0 (this s') = trace_buf0 (this s)) /\
  (trace_buf1 (this s) <> 0 -> trace_buf1 (this s') = trace_buf1 (this s)).

(** Every binding uses up a free slot. *)
Definition binds_free (s s' : machine) (evs : list event) : Prop :=
  (bindings evs + free_slots (this s') = free_slots (this s))%nat.

(** [c] ends by completing [firmware_loading_complete]. *)
Definition ends_completed {A : Type} (c : M machine A) : Prop :=
  forall s a s' evs, c s = Ret a s' evs ->
    firmware_loading_complete (this s') = true /\
    exists evs0, evs = evs0 ++ [EvCompleteAll].

(** ** The turns of the section loop *)

(** The head of the [while] loop of [rproc_process_fw]: the section
    pointer, [left], the boot address recorded so far and the machine. *)
Record loop_head : Type := {
  head_section : list byte;
  head_left : Z;
  head_bootaddr : Z;
  head_machine : machine
}.

(** One turn of the loop that goes round, entered with more than a section
    header and no more than [INT_MAX] bytes left: the section at the head is
    read, fits in what is left, translates, is mapped and copied and, when
    it is a resource table, is handled without error.  The head the loop
    comes back to and the events of the turn; [None] for every other
    turn. *)
Definition section_turn (phys_addr_bits : Z) (e : env) (h : loop_head)
    : option (loop_head * list event) :=
  let m := head_machine h in
  if (sizeof_fw_section <? head_left h) && (head_left h <=? INT_MAX) then
    match read_fw_section (head_section h) with
    | None => None
    | Some hdr =>
        let len := sec_len hdr in
        if len <=? head_left h - sizeof_fw_section then
          match rproc_da_to_pa phys_addr_bits (memory_maps (this m))
                  (sec_da hdr) with
          | None => None
          | Some pa =>
              let ptr := ioremap_nocache e (ioremaps m) pa len in
              if nonzero ptr then
                match bytes_at 16 (Z.to_nat len) (head_section h) with
                | None => None
                | Some content =>
                    match
                      (if sec_type hdr =? FW_RESOURCE then
                         rproc_handle_resources phys_addr_bits e
                           (as_fw_resources content) (wrap_int len)
                           (head_bootaddr h)
                       else ret (0, head_bootaddr h))
                        {| this := this m; ioremaps := S (ioremaps m) |}
                    with
                    | Ret (r, bootaddr) m' evs =>
                        if nonzero r then None
                        else
                          Some
                            ({| head_section :=
                                  skipn (16 + Z.to_nat len) (head_section h);
                                head_left :=
                                  head_left h - sizeof_fw_section - len;
                                head_bootaddr := bootaddr;
                                head_machine := m' |},
                             EvIoremap pa len ptr :: EvMemcpy ptr content
                               :: evs ++ [EvIounmap ptr])
                    | Stuck _ => None
                    end
                end
              else None
          end
        else None
    end
  else None.

(** [n] such turns in a row. *)
Fixpoint after_sections (phys_addr_bits : Z) (e : env) (n : nat)
    (h : loop_head) : option (loop_head * list event) :=
  match n with
  | O => Some (h, [])
  | S n' =>
      match section_turn phys_addr_bits e h with
      | None => None
      | Some (h1, e1) =>
          match after_sections phys_addr_bits e n' h1 with
          | None => None
          | Some (h2, e2) => Some (h2, e1 ++ e2)
          end
      end
  end.

(** The loop head at which [rproc_process_fw] enters the loop. *)
Definition first_head (section : list byte) (left bootaddr : Z)
    (m : machine) : loop_head :=
  {| head_section := section; head_left := left;
     head_bootaddr := bootaddr; head_machine := m |}.

(** ** The resource entries of an image *)

(** The resource entries of a section area, in the order of the image: the
    whole entries in the payload of each resource section, section after
    section, up to the first section that does not lie inside the area
    (or to the last [sizeof(struct fw_section)] bytes, where the loop
    ends). *)
Fixpoint area_resources (fuel : nat) (section : list byte)
    : list fw_resource :=
  match fuel with
  | O => []
  | S fuel' =>
      if (16 <? length section)%nat then
        match read_fw_section section with
        | None => []
        | Some hdr =>
            match bytes_at 16 (Z.to_nat (sec_len hdr)) section with
            | None => []
            | Some content =>
                (if sec_type hdr =? FW_RESOURCE then as_fw_resources content
                 else []) ++
                area_resources fuel'
                  (skipn (16 + Z.to_nat (sec_len hdr)) section)
            end
        end
      else []
  end.

(** The section area of the image [data], after its text header. *)
Definition image_sections (data : list byte) : list byte :=
  skipn (12 + Z.to_nat (le_val (firstn 4 (skipn 8 data)))) data.

Definition image_resources (data : list byte) : list fw_resource :=
  area_resources (S (length (image_sections data))) (image_sections data).

(** The boot address an image asks for: the device address of the last
    BOOTADDR entry among its resource entries, 0 when it has none. *)
Definition image_bootaddr (data : list byte) : Z :=
  last_bootaddr (image_resources data) 0.

(** ** Fixtures *)

(** A kernel in which every call succeeds. *)
Definition quiet_env : env :=
  {| ioremap_nocache := fun n _ _ => 4096 + Z.of_nat n;
     ops_start := fun _ => 0;
     ops_stop := 0;
     mutex_lock_interruptible := 0;
     try_module_get := true;
     request_firmware_nowait := 0;
     kzalloc_ok := true;
     rproc_dbg := 0;
     debugfs_create_dir := 0 |}.

(** As [quiet_env], with a backend whose [stop] answers [-EBUSY]. *)
Definition stuck_stop_env : env :=
  {| ioremap_nocache := ioremap_nocache quiet_env;
     ops_start := ops_start quiet_env;
     ops_stop := - EBUSY;
     mutex_lock_interruptible := 0;
     try_module_get := true;
     request_firmware_nowait := 0;
     kzalloc_ok := true;
     rproc_dbg := 0;
     debugfs_create_dir := 0 |}.

(** As [quiet_env], with a firmware loader that refuses the request. *)
Definition no_loader_env : env :=
  {| ioremap_nocache := ioremap_nocache quiet_env;
     ops_start := ops_start quiet_env;
     ops_stop := 0;
     mutex_lock_interruptible := 0;
     try_module_get := true;
     request_firmware_nowait := - ENOMEM;
     kzalloc_ok := true;
     rproc_dbg := 0;
     debugfs_create_dir := 0 |}.

(** A processor as [rproc_register] makes it. *)
Definition fresh_rproc : rproc :=
  {| name := "p0"; memory_maps := None; firmware := Some "p0-fw.bin"%string;
     count := 0; state := RPROC_OFFLINE; dbg_dir := 0;
     trace_buf0 := 0; trace_buf1 := 0; trace_len0 := 0; trace_len1 := 0;
     firmware_loading_complete := false |}.

(** The same after a first [rproc_get], while the firmware loads. *)
Definition loading_rproc : rproc :=
  with_state RPROC_LOADING (with_count 1 fresh_rproc).

Definition loading_machine : machine :=
  {| this := loading_rproc; ioremaps := 0 |}.

(** The same after a successful load, with one user. *)
Definition running_rproc : rproc :=
  with_completion true (with_state RPROC_RUNNING (with_count 1 fresh_rproc)).


(** A table of one 4 KiB range that maps device address 0x1000 to physical
    address 0x80000000. *)
Definition one_entry_maps : option (list rproc_mem_entry) :=
  Some [{| me_da := 4096; me_pa := 2147483648; me_size := 4096 |}].

Definition byte_of (v : Z) : byte :=
  match Byte.of_N (Z.to_N (v mod 256)) with
  | Some b => b
  | None => x00
  end.

(** [v] in [n] bytes, little endian. *)
Fixpoint le_bytes (n : nat) (v : Z) : list byte :=
  match n with
  | O => []
  | S n' => byte_of v :: le_bytes n' (v / 256)
  end.

Definition fw_section_header (type da len : Z) : list byte :=
  le_bytes 4 type ++ le_bytes 8 da ++ le_bytes 4 len.

Definition fw_section_bytes (type da : Z) (content : list byte) : list byte :=
  fw_section_header type da (Z.of_nat (length content)) ++ content.

Definition fw_resource_bytes (type da len : Z) : list byte :=
  le_bytes 4 type ++ le_bytes 8 da ++ le_bytes 8 0 ++ le_bytes 4 len ++
  le_bytes 4 0 ++ repeat x00 48.

(** An image of version 1 without text header. *)
Definition fw_image (magic sections : list byte) : list byte :=
  magic ++ le_bytes 4 1 ++ le_bytes 4 0 ++ sections.

Definition rprc : list byte := [x52; x50; x52; x43].

Definition data_section : list byte :=
  fw_section_bytes FW_DATA 4096 [xde; xad; xbe; xef].

Definition bad_magic_image : list byte :=
  fw_image [x58; x58; x58; x58] data_section.

Definition bootaddr_entry (da : Z) : fw_resource :=
  {| rsc_type := RSC_BOOTADDR; rsc_da := da; rsc_pa := 0; rsc_len := 0;
     rsc_flags := 0; rsc_name := repeat x00 48 |}.

Definition trace_entry (da len : Z) : fw_resource :=
  {| rsc_type := RSC_TRACE; rsc_da := da; rsc_pa := 0; rsc_len := len;
     rsc_flags := 0; rsc_name := repeat x00 48 |}.

Definition two_bootaddr_image : list byte :=
  fw_image rprc
    (fw_section_bytes FW_RESOURCE 4096
       (fw_resource_bytes RSC_BOOTADDR 4096 0 ++
        fw_resource_bytes RSC_BOOTADDR 8192 0)).

Definition three_trace_image : list byte :=
  fw_image rprc
    (fw_section_bytes FW_RESOURCE 4096
       (fw_resource_bytes RSC_TRACE 4096 1024 ++
        fw_resource_bytes RSC_TRACE 8192 2048 ++
        fw_resource_bytes RSC_TRACE 12288 512)).

(** As [quiet_env], with a backend whose [start] answers [-EINVAL]. *)
Definition failing_start_env : env :=
  {| ioremap_nocache := ioremap_nocache quiet_env;
     ops_start := fun _ => - EINVAL;
     ops_stop := 0;
     mutex_lock_interruptible := 0;
     try_module_get := true;
     request_firmware_nowait := 0;
     kzalloc_ok := true;
     rproc_dbg := 0;
     debugfs_create_dir := 0 |}.

Definition one_trace_image : list byte :=
  fw_image rprc
    (fw_section_bytes FW_RESOURCE 4096 (fw_resource_bytes RSC_TRACE 8192 1024)).

(** A data section followed by a section that announces five bytes of
    payload and has four. *)
Definition truncated_second_section : list byte :=
  data_section ++ fw_section_header FW_DATA 8192 5 ++ [x01; x02; x03; x04].

(** A data section followed by a section whose four bytes of payload end
    the area. *)
Definition exact_second_section : list byte :=
  data_section ++ fw_section_bytes FW_DATA 8192 [x01; x02; x03; x04].

(** A data section followed by a bare section header. *)
Definition bare_header_tail : list byte :=
  data_section ++ fw_section_header FW_DATA 8192 0.

(** ** Vocabulary of the further properties *)

(** The record [rproc_register] links in. *)
Definition registered_rproc (e : env) (nm : string) (fw : option string)
    (maps : option (list rproc_mem_entry)) : rproc :=
  {| name := nm; memory_maps := maps; firmware := fw;
     count := 0; state := RPROC_OFFLINE;
     dbg_dir := if nonzero (rproc_dbg e) then debugfs_create_dir e else 0;
     trace_buf0 := 0; trace_buf1 := 0; trace_len0 := 0; trace_len1 := 0;
     firmware_loading_complete := false |}.

(** No record of the registry has the name [nm]. *)
Definition unregistered (nm : string) (l : registry) : Prop :=
  forall r, In r l -> name r <> nm.

(** The configuration of a processor, which only registration writes. *)
Definition load_fixes (s s' : machine) (evs : list event) : Prop :=
  name (this s') = name (this s) /\
  firmware (this s') = firmware (this s) /\
  memory_maps (this s') = memory_maps (this s).

(** The bound trace buffers of [m] were unmapped in [evs]. *)
Definition bound_unmapped (m : machine) (evs : list event) : Prop :=
  (trace_buf0 (this m) <> 0 -> In (EvIounmap (trace_buf0 (this m))) evs) /\
  (trace_buf1 (this m) <> 0 -> In (EvIounmap (trace_buf1 (this m))) evs).

(** ** The trace files of debugfs *)

(** The [for] loop of [rproc_format_trace_buf], entered at index [i] with
    [buf] the bytes from there on: the index of the first NUL byte, or
    [size].  Running off the buffer is a read out of bounds ([None]). *)
Fixpoint trace_end_from (i : Z) (buf : list byte) (size : Z) : option Z :=
  if i <? size then
    match buf with
    | [] => None
    | b :: rest =>
        if nonzero (byte_val b) then trace_end_from (i + 1) rest size
        else Some i
    end
  else Some i.

Section TraceFiles.

(** [simple_read_from_buffer] of fs/libfs.c, which the files at hand call and
    do not hold: the user's count, the file position, the source buffer and
    the number of bytes available in it. *)
Variable read_result : Type.
Variable simple_read_from_buffer : Z -> Z -> list byte -> Z -> read_result.

Definition rproc_format_trace_buf (count ppos : Z) (src : list byte)
    (size : Z) : option read_result :=
  match trace_end_from 0 src size with
  | Some i => Some (simple_read_from_buffer count ppos src i)
  | None => None
  end.

End TraceFiles.

(** The mutex of a processor: a [mutex_lock_interruptible] that took it,
    and a [mutex_unlock]. *)
Definition is_lock_taken (ev : event) : bool :=
  match ev with
  | EvMutexLock r => negb (nonzero r)
  | _ => false
  end.

Definition is_unlock (ev : event) : bool :=
  match ev with
  | EvMutexUnlock => true
  | _ => false
  end.

Definition locks_taken (evs : list event) : nat :=
  length (filter is_lock_taken evs).

Definition unlocks (evs : list event) : nat := length (filter is_unlock evs).

(** ** The OMAP4 backend *)

Definition ENODEV : Z := 19.

(** The sizes of asm/sizes.h. *)
Definition SZ_4K : Z := 4096.
Definition SZ_64K : Z := 65536.
Definition SZ_1M : Z := 1048576.
Definition SZ_16M : Z := 16777216.

(** The page sizes the OMAP IOMMU supports, largest first. *)
Definition pg_size : list Z := [SZ_16M; SZ_1M; SZ_64K; SZ_4K].

(** [IS_ALIGNED(x, a)] for a power of two [a]. *)
Definition IS_ALIGNED (x a : Z) : bool := Z.land x (a - 1) =? 0.

(** What the backend does to the kernel around it: a log line or a call,
    in the order made.  The flags of [iommu_map] are a constant and left
    out; [OmapSetPriv] is the store [rproc->priv = priv]. *)
Inductive omap_event : Type :=
| OmapErr (msg : string)
| OmapKmalloc
| OmapKfree
| OmapSetPriv
| IommuDomainAlloc
| IommuDomainFree
| IommuAttach
| IommuDetach
| IommuMap (da pa order : Z)
| IommuUnmap (da order : Z)
| OmapDeviceEnable
| OmapDeviceShutdown.

(** Where the C code has no defined behaviour. *)
Inductive omap_stuck : Type :=
| NullTable        (* memory_maps is NULL *)
| PastPageSizes    (* pg_size[4] *)
| PastTable        (* an entry behind the sentinel of memory_maps *)
| NoFuel.

Inductive omap_result : Type :=
| OmapRet (ret : Z) (evs : list omap_event)
| OmapStuck (why : omap_stuck).

(** The kernel around the backend.  [iommu k call] is what the IOMMU layer
    answers to [call] when it is the call number [k] to [iommu_map] or
    [iommu_unmap]; the [bool]s say whether a pointer came back non-NULL. *)
Record omap_env : Type := {
  get_order : Z -> Z;
  iommu_found : bool;
  kmalloc_ok : bool;
  omap_find_iommu_device : bool;
  iommu_domain_alloc : bool;
  iommu_attach_device : Z;
  iommu : nat -> omap_event -> Z;
  omap_device_enable : Z;
  omap_device_shutdown : Z
}.

Definition is_iommu_call (ev : omap_event) : bool :=
  match ev with
  | IommuMap _ _ _ | IommuUnmap _ _ => true
  | _ => false
  end.

(** The number of calls to [iommu_map] and [iommu_unmap] among [evs]. *)
Definition iommu_calls (evs : list omap_event) : nat :=
  length (filter is_iommu_call evs).

(** The [for] loop that looks for the largest usable page: the index at
    which it breaks, or the length of the array when it runs to the end.
    [size] is an [int] compared with a [u32], hence as a [u32]. *)
Fixpoint pick_page (pgs : list Z) (i : nat) (size all_bits : Z) : nat :=
  match pgs with
  | [] => i
  | pg :: rest =>
      if (pg <=? to_u32 size) && (Z.land all_bits (pg - 1) =? 0) then i
      else pick_page rest (S i) size all_bits
  end.

Section Omap.

Variable oe : omap_env.

(** The [while] loop of [omap_rproc_map_unmap]; [size] is an [int], [da]
    and [pa] are [u32], [n] counts the IOMMU calls made so far. *)
Fixpoint map_unmap_loop (fuel : nat) (n : nat) (size da pa : Z) (map : bool)
    : omap_result :=
  match fuel with
  | O => OmapStuck NoFuel
  | S fuel' =>
      if nonzero size then
        let all_bits := Z.lor pa da in
        let i := pick_page pg_size 0 size all_bits in
        match nth_error pg_size i with
        | None => OmapStuck PastPageSizes
        | Some pg =>
            let order := get_order oe pg in
            let call :=
              if map then IommuMap da pa order else IommuUnmap da order in
            let r := iommu oe n call in
            if nonzero r then OmapRet r [call]
            else
              match map_unmap_loop fuel' (S n) (wrap_int (size - pg))
                      (to_u32 (da + pg)) (to_u32 (pa + pg)) map with
              | OmapRet r' calls => OmapRet r' (call :: calls)
              | OmapStuck w => OmapStuck w
              end
        end
      else OmapRet 0 []
  end.

(** Every turn of the loop takes at least a 4 KiB page off [size], which
    bounds the number of turns. *)
Definition omap_rproc_map_unmap (n : nat) (me : rproc_mem_entry) (map : bool)
    : omap_result :=
  let size := wrap_int (me_size me) in
  let da := to_u32 (me_da me) in
  let pa := to_u32 (me_pa me) in
  if negb (IS_ALIGNED size SZ_4K) || negb (IS_ALIGNED (Z.lor da pa) SZ_4K) then
    OmapRet (- EINVAL) [OmapErr "misaligned"]
  else
    map_unmap_loop (S (Z.to_nat (to_u32 size / SZ_4K))) n size da pa map.

(** The mapping loop of [omap_rproc_start] from entry [i] on, whose table
    from there on is [maps]: the value of [i] when the loop is left, and
    [ret] with what was done. *)
Fixpoint map_regions (maps : list rproc_mem_entry) (i n : nat)
    : nat * omap_result :=
  match maps with
  | [] => (i, OmapRet 0 [])
  | me :: rest =>
      if me_size me =? 0 then (i, OmapRet 0 [])
      else
        match omap_rproc_map_unmap n me true with
        | OmapStuck w => (i, OmapStuck w)
        | OmapRet r evs =>
            if nonzero r then
              (i, OmapRet r (evs ++ [OmapErr "iommu_map failed"]))
            else
              match map_regions rest (S i) (n + iommu_calls evs) with
              | (i', OmapRet r' evs') => (i', OmapRet r' (evs ++ evs'))
              | (i', OmapStuck w) => (i', OmapStuck w)
              end
        end
  end.

(** [memory_maps[i].size]: the entries of the table, then its zero-size
    sentinel. *)
Definition maps_size (tbl : list rproc_mem_entry) (i : nat) : option Z :=
  match nth_error tbl i with
  | Some me => Some (me_size me)
  | None => if (i =? length tbl)%nat then Some 0 else None
  end.

(** The loop under [unmap_regions:], entered with [i]: it walks down from
    [i - 1] and drops what [omap_rproc_map_unmap] returns. *)
Fixpoint unmap_regions (tbl : list rproc_mem_entry) (i n : nat)
    : omap_result :=
  match i with
  | O => OmapRet 0 []
  | S i' =>
      match maps_size tbl i' with
      | None => OmapStuck PastTable
      | Some size =>
          if size =? 0 then OmapRet 0 []
          else
            match nth_error tbl i' with
            | None => OmapStuck PastTable
            | Some me =>
                match omap_rproc_map_unmap n me false with
                | OmapStuck w => OmapStuck w
                | OmapRet _ evs =>
                    match unmap_regions tbl i' (n + iommu_calls evs) with
                    | OmapStuck w => OmapStuck w
                    | OmapRet _ evs' => OmapRet 0 (evs ++ evs')
                    end
                end
            end
      end
  end.

(** [omap_rproc_start]; the boot address is not used.  [n] is the number of
    IOMMU calls made before. *)
Definition omap_rproc_start (maps : option (list rproc_mem_entry)) (n : nat)
    : omap_result :=
  if negb (iommu_found oe) then
    OmapRet (- ENODEV) [OmapErr "iommu not found"]
  else if negb (kmalloc_ok oe) then
    OmapRet (- ENOMEM) [OmapKmalloc; OmapErr "kzalloc failed"]
  else if negb (omap_find_iommu_device oe) then
    OmapRet (- ENODEV)
      [OmapKmalloc; OmapErr "omap_find_iommu_device failed"; OmapKfree]
  else if negb (iommu_domain_alloc oe) then
    OmapRet (- ENODEV)
      [OmapKmalloc; IommuDomainAlloc; OmapErr "can't alloc iommu domain";
       OmapKfree]
  else
    let setup := [OmapKmalloc; IommuDomainAlloc; OmapSetPriv; IommuAttach] in
    let ret := iommu_attach_device oe in
    if nonzero ret then
      OmapRet ret
        (setup ++ [OmapErr "can't attach iommu device"; IommuDomainFree;
                   OmapKfree])
    else
      match maps with
      | None => OmapStuck NullTable
      | Some tbl =>
          match map_regions tbl 0 n with
          | (_, OmapStuck w) => OmapStuck w
          | (i, OmapRet ret evs) =>
              let unwind (ret : Z) (evs : list omap_event) :=
                match unmap_regions tbl i (n + iommu_calls evs) with
                | OmapStuck w => OmapStuck w
                | OmapRet _ evs' =>
                    OmapRet ret
                      (setup ++ evs ++ evs' ++ [IommuDomainFree; OmapKfree])
                end in
              if nonzero ret then unwind ret evs
              else
                let ret := omap_device_enable oe in
                if nonzero ret then unwind ret (evs ++ [OmapDeviceEnable])
                else OmapRet 0 (setup ++ evs ++ [OmapDeviceEnable])
          end
      end.

(** The unmapping loop of [omap_rproc_stop]. *)
Fixpoint unmap_all (maps : list rproc_mem_entry) (n : nat) : omap_result :=
  match maps with
  | [] => OmapRet 0 []
  | me :: rest =>
      if me_size me =? 0 then OmapRet 0 []
      else
        match omap_rproc_map_unmap n me false with
        | OmapStuck w => OmapStuck w
        | OmapRet r evs =>
            if nonzero r then
              OmapRet r (evs ++ [OmapErr "iommu_unmap failed"])
            else
              match unmap_all rest (n + iommu_calls evs) with
              | OmapRet r' evs' => OmapRet r' (evs ++ evs')
              | OmapStuck w => OmapStuck w
              end
        end
  end.

(** [omap_rproc_stop], for a processor that [omap_rproc_start] has set up
    ([rproc->priv] is read without a test). *)
Definition omap_rproc_stop (maps : option (list rproc_mem_entry)) (n : nat)
    : omap_result :=
  let ret := omap_device_shutdown oe in
  if nonzero ret then
    OmapRet ret [OmapDeviceShutdown; OmapErr "failed to shutdown"]
  else
    match maps with
    | None => OmapStuck NullTable
    | Some tbl =>
        match unmap_all tbl n with
        | OmapStuck w => OmapStuck w
        | OmapRet ret evs =>
            if nonzero ret then OmapRet ret (OmapDeviceShutdown :: evs)
            else
              OmapRet 0
                (OmapDeviceShutdown :: evs ++ [IommuDetach; IommuDomainFree])
        end
    end.

End Omap.

(** The call that handles the page of size [pg] at [da], [pa]. *)
Definition page_call (oe : omap_env) (map : bool) (page : Z * Z * Z)
    : omap_event :=
  match page with
  | (da, pa, pg) =>
      if map then IommuMap da pa (get_order oe pg)
      else IommuUnmap da (get_order oe pg)
  end.

(** [pg] is a page size that can be used at [da], [pa] with [size] bytes to
    go. *)
Definition page_fits (da pa size pg : Z) : Prop :=
  pg <= size /\ da mod pg = 0 /\ pa mod pg = 0.

(** The pages tile the [size] bytes from [da] and [pa] on, back to back,
    each one the largest supported page that fits where it starts. *)
Fixpoint tiles (da pa size : Z) (pages : list (Z * Z * Z)) : Prop :=
  match pages with
  | [] => size = 0
  | (d, p, pg) :: rest =>
      d = da /\ p = pa /\ In pg pg_size /\ page_fits da pa size pg /\
      (forall pg', In pg' pg_size -> pg < pg' -> ~ page_fits da pa size pg') /\
      tiles (da + pg) (pa + pg) (size - pg) rest
  end.

(** The device address and order of every [iommu_map] call, in order. *)
Fixpoint mapped (evs : list omap_event) : list (Z * Z) :=
  match evs with
  | [] => []
  | IommuMap da _ order :: rest => (da, order) :: mapped rest
  | _ :: rest => mapped rest
  end.

(** The device address and order of every [iommu_unmap] call, in order. *)
Fixpoint unmapped (evs : list omap_event) : list (Z * Z) :=
  match evs with
  | [] => []
  | IommuUnmap da order :: rest => (da, order) :: unmapped rest
  | _ :: rest => unmapped rest
  end.

(** An IOMMU layer that never fails. *)
Definition iommu_never_fails (oe : omap_env) : Prop :=
  forall k call, iommu oe k call = 0.

(** The call that undoes a mapping. *)
Definition unmap_call (page : Z * Z) : omap_event :=
  IommuUnmap (fst page) (snd page).

(** The pages [omap_rproc_start] maps for the region [me]. *)
Definition region_pages (oe : omap_env) (me : rproc_mem_entry)
    : list (Z * Z) :=
  match omap_rproc_map_unmap oe 0 me true with
  | OmapRet _ evs => mapped evs
  | OmapStuck _ => []
  end.

(** A region that [omap_rproc_start] maps, and that [omap_rproc_stop]
    unmaps page for page, whatever was done before. *)
Definition maps_well (oe : omap_env) (me : rproc_mem_entry) : Prop :=
  (me_size me =? 0) = false /\
  exists evs, forall n,
    omap_rproc_map_unmap oe n me true = OmapRet 0 evs /\
    omap_rproc_map_unmap oe n me false =
      OmapRet 0 (List.map unmap_call (mapped evs)).

(** A kernel in which every call of the backend succeeds; [get_order] is
    that of 4 KiB pages. *)
Definition quiet_omap : omap_env :=
  {| get_order := fun size => Z.log2_up size - 12;
     iommu_found := true;
     kmalloc_ok := true;
     omap_find_iommu_device := true;
     iommu_domain_alloc := true;
     iommu_attach_device := 0;
     iommu := fun _ _ => 0;
     omap_device_enable := 0;
     omap_device_shutdown := 0 |}.

(** As [quiet_omap], but the remote processor cannot be powered on. *)
Definition no_power_omap : omap_env :=
  {| get_order := get_order quiet_omap;
     iommu_found := true;
     kmalloc_ok := true;
     omap_find_iommu_device := true;
     iommu_domain_alloc := true;
     iommu_attach_device := 0;
     iommu := fun _ _ => 0;
     omap_device_enable := - ENODEV;
     omap_device_shutdown := 0 |}.

(** A region of 1 MiB + 64 KiB + 4 KiB that starts on a 1 MiB boundary. *)
Definition ipu_region : rproc_mem_entry :=
  {| me_da := 0x60000000; me_pa := 0x9cf00000; me_size := 0x111000 |}.

(** A region of two 4 KiB pages. *)
Definition small_region : rproc_mem_entry :=
  {| me_da := 0x70000000; me_pa := 0x9d200000; me_size := 0x2000 |}.

Definition odd_region : rproc_mem_entry :=
  {| me_da := 0x60000800; me_pa := 0x9cf00000; me_size := 0x1000 |}.

(** What the loops over the regions do: log lines, IOMMU calls and the
    power-on call. *)
Definition is_region_event (ev : omap_event) : bool :=
  match ev with
  | OmapErr _ | IommuMap _ _ _ | IommuUnmap _ _ | OmapDeviceEnable => true
  | _ => false
  end.

(** ** Mappings made and undone *)

(** A call to [ioremap_nocache] that gave a mapping. *)
Definition is_mapped (ev : event) : bool :=
  match ev with
  | EvIoremap _ _ ptr => nonzero ptr
  | _ => false
  end.

Definition is_unmapped (ev : event) : bool :=
  match ev with
  | EvIounmap _ => true
  | _ => false
  end.

Definition mappings (evs : list event) : nat := length (filter is_mapped evs).

Definition unmappings (evs : list event) : nat :=
  length (filter is_unmapped evs).

(** The trace slots that hold a mapping. *)
Definition bound_slots (r : rproc) : nat :=
  (if nonzero (trace_buf0 r) then 1 else 0) +
  (if nonzero (trace_buf1 r) then 1 else 0).

(** ** The DaVinci backend *)

(** Local reset bit and next-state bits of the MDCTL15 register. *)
Definition LRST : Z := 256.
Definition NEXT_ENABLED : Z := 3.

(** linux/err.h, for a machine whose pointers and [long] have 32 bits: a
    pointer in the last [MAX_ERRNO] addresses stands for an error code. *)
Definition MAX_ERRNO : Z := 4095.

Definition IS_ERR_VALUE (x : Z) : bool := to_u32 (- MAX_ERRNO) <=? x.

Definition IS_ERR_OR_NULL (ptr : Z) : bool := (ptr =? 0) || IS_ERR_VALUE ptr.

Definition PTR_ERR (ptr : Z) : Z := wrap_int ptr.

(** The registers the backend writes: MDCTL of the DSP's power domain,
    reached through the mapping [psc_base], and HOST1CFG. *)
Inductive davinci_reg : Type :=
| MDCTL_GEM (psc_base : Z)
| HOST1CFG.

Inductive davinci_event : Type :=
| DavErr (msg : string)
| ClkEnable (clk : Z)
| DavSetPriv (clk : Z)
| DavIoremap
| RawWritel (val : Z) (reg : davinci_reg)
| DavIounmap (psc_base : Z).

(** [davinci_rproc_start], with [bootaddr] the [u64] of the record, [clk]
    the pointer [clk_get] answers and [psc_base] the answer of [ioremap],
    which is not tested.  [__raw_writel] takes a [u32]. *)
Definition davinci_rproc_start (bootaddr clk psc_base : Z)
    : Z * list davinci_event :=
  if nonzero (Z.land bootaddr 1023) then
    (- EINVAL, [DavErr "invalid boot address: must be aligned to 1KB"])
  else if IS_ERR_OR_NULL clk then
    (wrap_int (PTR_ERR clk), [DavErr "clk_get error"])
  else
    (0,
     [ClkEnable clk; DavSetPriv clk; DavIoremap;
      RawWritel NEXT_ENABLED (MDCTL_GEM psc_base);
      RawWritel (to_u32 bootaddr) HOST1CFG;
      RawWritel (Z.lor LRST NEXT_ENABLED) (MDCTL_GEM psc_base);
      DavIounmap psc_base]).

(** The register writes among [evs], in order. *)
Fixpoint raw_writes (evs : list davinci_event) : list (Z * davinci_reg) :=
  match evs with
  | [] => []
  | RawWritel val reg :: rest => (val, reg) :: raw_writes rest
  | _ :: rest => raw_writes rest
  end.

(** * Properties *)

(** ** Machine integers *)

Lemma wrap_int_small (x : Z) : - 2 ^ 31 <= x <= INT_MAX -> wrap_int x = x.
Proof.
  unfold wrap_int, INT_MAX. change (2 ^ 31) with 2147483648.
  change (2 ^ 32) with 4294967296. intros H.
  rewrite Z.mod_small by lia. lia.
Qed.

Lemma to_u32_small (x : Z) : 0 <= x <= INT_MAX -> to_u32 x = x.
Proof.
  unfold to_u32, INT_MAX. change (2 ^ 31) with 2147483648.
  change (2 ^ 32) with 4294967296. intros H. apply Z.mod_small. lia.
Qed.

Lemma nonzero_false (x : Z) : nonzero x = false <-> x = 0.
Proof. unfold nonzero. rewrite negb_false_iff. apply Z.eqb_eq. Qed.

Lemma nonzero_true (x : Z) : nonzero x = true <-> x <> 0.
Proof. unfold nonzero. rewrite negb_true_iff. apply Z.eqb_neq. Qed.

Lemma le_val_nonneg (bs : list byte) : 0 <= le_val bs.
Proof.
  induction bs as [|b bs IH]; cbn [le_val]; [lia|].
  unfold byte_val. pose proof (N2Z.is_nonneg (Byte.to_N b)). lia.
Qed.

(** ** Running monadic code step by step *)

Lemma bind_ret {S A B : Type} (a : A) (f : A -> M S B) (s : S) :
  bind (ret a) f s = f a s.
Proof. unfold bind, ret. destruct (f a s); reflexivity. Qed.

Lemma bind_emit {S B : Type} (ev : event) (f : unit -> M S B) (s : S) :
  bind (emit ev) f s = prepend [ev] (f tt s).
Proof. reflexivity. Qed.

Lemma bind_get {S B : Type} (f : S -> M S B) (s : S) :
  bind get f s = f s s.
Proof. unfold bind, get. destruct (f s s); reflexivity. Qed.

Lemma bind_modify {S B : Type} (g : S -> S) (f : unit -> M S B) (s : S) :
  bind (modify g) f s = f tt (g s).
Proof. unfold bind, modify. destruct (f tt (g s)); reflexivity. Qed.

Lemma bind_abort {S A B : Type} (w : stuck) (f : A -> M S B) (s : S) :
  bind (abort w) f s = Stuck w.
Proof. reflexivity. Qed.

Lemma bind_bind {S A B C : Type} (c : M S A) (f : A -> M S B)
    (g : B -> M S C) (s : S) :
  bind (bind c f) g s = bind c (fun a => bind (f a) g) s.
Proof.
  unfold bind. destruct (c s) as [a s1 e1|]; [|reflexivity].
  destruct (f a s1) as [b s2 e2|]; [|reflexivity].
  destruct (g b s2) as [x s3 e3|]; [|reflexivity].
  rewrite app_assoc. reflexivity.
Qed.

Lemma bind_on_rproc {B : Type} (g : rproc -> rproc) (f : unit -> M machine B)
    (s : machine) :
  bind (on_rproc g) f s = f tt {| this := g (this s); ioremaps := ioremaps s |}.
Proof. unfold on_rproc. rewrite bind_modify. reflexivity. Qed.

Lemma bind_get_rproc {B : Type} (f : rproc -> M machine B) (s : machine) :
  bind get_rproc f s = f (this s) s.
Proof. unfold bind, get_rproc. destruct (f (this s) s); reflexivity. Qed.

Lemma bind_do_ioremap {B : Type} (e : env) (pa len : Z)
    (f : Z -> M machine B) (s : machine) :
  bind (do_ioremap e pa len) f s =
  prepend [EvIoremap pa len (ioremap_nocache e (ioremaps s) pa len)]
    (f (ioremap_nocache e (ioremaps s) pa len)
       {| this := this s; ioremaps := S (ioremaps s) |}).
Proof. reflexivity. Qed.

Lemma bind_inv {S A B : Type} (c : M S A) (f : A -> M S B) (s s' : S)
    (b : B) (evs : list event) :
  bind c f s = Ret b s' evs ->
  exists a s1 e1 e2,
    c s = Ret a s1 e1 /\ f a s1 = Ret b s' e2 /\ evs = e1 ++ e2.
Proof.
  unfold bind. intros H.
  destruct (c s) as [a s1 e1|]; [|discriminate].
  destruct (f a s1) as [b' s2 e2|] eqn:Ef; [|discriminate].
  inversion H; subst. eauto 10.
Qed.

(** One step of a computation applied to its state. *)
Ltac step :=
  first
    [ rewrite bind_bind
    | rewrite bind_ret
    | rewrite bind_emit
    | rewrite bind_get
    | rewrite bind_modify
    | rewrite bind_abort
    | rewrite bind_on_rproc
    | rewrite bind_get_rproc
    | rewrite bind_do_ioremap ];
  cbn beta iota zeta.

Ltac unfold_monad_in H :=
  unfold bind, ret, emit, get, modify, abort, when, on_rproc, get_rproc,
    do_ioremap, complete_all in H.

(** Destruct the tests a straight-line computation in [H] runs through,
    until [H] is an equation between outcomes. *)
Ltac run_in H :=
  unfold_monad_in H; cbn beta iota zeta in H;
  repeat match type of H with
    | context [if ?b then _ else _] => destruct b eqn:?; cbn beta iota zeta in H
    | context [match ?x with Some _ => _ | None => _ end] =>
        destruct x eqn:?; cbn beta iota zeta in H
    end;
  try discriminate H;
  try (inversion H; subst; clear H).

(** ** Relational invariants of monadic code *)

Section Respects.

Context {S : Type}.
Variable I : S -> S -> list event -> Prop.
Hypothesis I_refl : forall s, I s s [].
Hypothesis I_trans : forall s1 s2 s3 e1 e2,
  I s1 s2 e1 -> I s2 s3 e2 -> I s1 s3 (e1 ++ e2).

Lemma respects_ret {A : Type} (a : A) : respects I (ret a).
Proof. intros s a' s' evs H. inversion H; subst. apply I_refl. Qed.

Lemma respects_abort {A : Type} (w : stuck) : respects I (@abort S A w).
Proof. intros s a s' evs H. discriminate H. Qed.

Lemma respects_bind {A B : Type} (c : M S A) (f : A -> M S B) :
  respects I c -> (forall a, respects I (f a)) -> respects I (bind c f).
Proof.
  intros Hc Hf s b s' evs H. apply bind_inv in H.
  destruct H as (a & s1 & e1 & e2 & H1 & H2 & ->).
  eapply I_trans; [eapply Hc | eapply Hf]; eassumption.
Qed.

Lemma respects_when (b : bool) (c : M S unit) :
  respects I c -> respects I (when b c).
Proof. intros Hc. destruct b; [exact Hc | apply respects_ret]. Qed.

End Respects.

Ltac respects_step :=
  match goal with
  | |- respects _ (bind _ _) => apply respects_bind; [assumption | | intros]
  | |- respects _ (ret _) => apply respects_ret; assumption
  | |- respects _ (abort _) => apply respects_abort
  | |- respects _ (when _ _) => apply respects_when; [assumption |]
  | |- respects _ (if ?b then _ else _) => destruct b
  | |- respects _ (match ?x with _ => _ end) => destruct x
  | |- respects _ _ => solve [auto]
  end.

(** An invariant that holds of the loader's building blocks holds of the
    whole of [rproc_load_fw]. *)
Section LoaderRespects.

Variable phys_addr_bits : Z.
Variable e : env.
Variable I : machine -> machine -> list event -> Prop.
Hypothesis I_refl : forall s, I s s [].
Hypothesis I_trans : forall s1 s2 s3 e1 e2,
  I s1 s2 e1 -> I s2 s3 e2 -> I s1 s3 (e1 ++ e2).
Hypothesis I_err : forall msg, respects I (emit (EvErr msg)).
Hypothesis I_warn : forall msg, respects I (emit (EvWarn msg)).
Hypothesis I_info : forall msg, respects I (emit (EvInfo msg)).
Hypothesis I_iounmap : forall ptr, respects I (emit (EvIounmap ptr)).
Hypothesis I_memcpy : forall ptr bs, respects I (emit (EvMemcpy ptr bs)).
Hypothesis I_release : respects I (emit EvReleaseFirmware).
Hypothesis I_get : respects I get_rproc.
Hypothesis I_ioremap : forall pa len, respects I (do_ioremap e pa len).
Hypothesis I_trace : forall rsc,
  respects I (rproc_handle_trace_rsc phys_addr_bits e rsc).
Hypothesis I_start : forall bootaddr, respects I (rproc_start e bootaddr).
Hypothesis I_complete : respects I complete_all.

Local Hint Resolve I_err I_warn I_info I_iounmap I_memcpy I_release I_get
  I_ioremap I_trace I_start I_complete : core.

Lemma respects_handle_resource (rsc : fw_resource) (bootaddr : Z) :
  respects I (handle_resource phys_addr_bits e rsc bootaddr).
Proof. unfold handle_resource. repeat respects_step. Qed.

Lemma respects_handle_resources_loop (rsc : list fw_resource) :
  forall len bootaddr,
  respects I (handle_resources_loop phys_addr_bits e rsc len bootaddr).
Proof.
  induction rsc as [|entry rest IH]; intros len bootaddr; simpl.
  - repeat respects_step.
  - destruct (size_t_ge len sizeof_fw_resource); [|repeat respects_step].
    apply respects_bind; auto using respects_handle_resource.
    intros [r b]. destruct (nonzero r); [repeat respects_step | apply IH].
Qed.

Lemma respects_rproc_handle_resources (rsc : list fw_resource)
    (len bootaddr : Z) :
  respects I (rproc_handle_resources phys_addr_bits e rsc len bootaddr).
Proof.
  unfold rproc_handle_resources.
  apply respects_bind; auto using respects_handle_resources_loop.
  intros [r b]. repeat respects_step.
Qed.

Lemma respects_process_fw_loop (fuel : nat) :
  forall section left bootaddr,
  respects I (process_fw_loop phys_addr_bits e fuel section left bootaddr).
Proof.
  induction fuel as [|fuel IH]; intros section left bootaddr;
    cbn [process_fw_loop].
  - repeat respects_step.
  - destruct (size_t_gt left sizeof_fw_section); [|repeat respects_step].
    destruct (read_fw_section section) as [hdr|]; [|repeat respects_step].
    cbn zeta.
    destruct (to_u32 _ <? _); [repeat respects_step|].
    apply respects_bind; auto. intros rproc.
    destruct (rproc_da_to_pa _ _ _) as [pa|]; [|repeat respects_step].
    apply respects_bind; auto. intros ptr.
    destruct (negb (nonzero ptr)); [repeat respects_step|].
    destruct (bytes_at _ _ _) as [content|]; [|repeat respects_step].
    apply respects_bind; auto. intros _.
    apply respects_bind; auto.
    { destruct (sec_type hdr =? FW_RESOURCE);
        [apply respects_rproc_handle_resources | repeat respects_step]. }
    intros [r b]. apply respects_bind; auto. intros _.
    destruct (nonzero r); [repeat respects_step | apply IH].
Qed.

Lemma respects_rproc_load_fw (fw : option (list byte)) :
  respects I (rproc_load_fw phys_addr_bits e fw).
Proof.
  unfold rproc_load_fw, rproc_process_fw. destruct fw as [data|].
  - apply respects_bind; auto. intros _.
    apply respects_bind; auto; [|intros _; repeat respects_step].
    destruct (_ <? _); [repeat respects_step|].
    destruct (negb _); [repeat respects_step|].
    apply respects_bind; auto. intros _.
    apply respects_bind; auto using respects_process_fw_loop.
    intros [r b]. repeat respects_step.
  - repeat respects_step.
Qed.

End LoaderRespects.

(** ** What the load callback leaves alone *)

Lemma load_keeps_refl (s : machine) : load_keeps s s [].
Proof. unfold load_keeps. auto. Qed.

Lemma load_keeps_trans (s1 s2 s3 : machine) (e1 e2 : list event) :
  load_keeps s1 s2 e1 -> load_keeps s2 s3 e2 -> load_keeps s1 s3 (e1 ++ e2).
Proof.
  unfold load_keeps, started.
  intros (Hc1 & Hs1 & Ha1 & Hb1) (Hc2 & Hs2 & Ha2 & Hb2).
  rewrite existsb_app, orb_false_iff.
  repeat split.
  - congruence.
  - intros [H1 H2]. rewrite Hs2, Hs1; auto.
  - intros H. rewrite Ha2; rewrite Ha1; auto.
  - intros H. rewrite Hb2; rewrite Hb1; auto.
Qed.

Lemma load_keeps_emit (ev : event) :
  is_start_ok ev = false -> respects load_keeps (emit ev).
Proof.
  intros Hev s a s' evs H. run_in H.
  unfold load_keeps, started. simpl. rewrite Hev. auto.
Qed.

Lemma load_keeps_trace (phys_addr_bits : Z) (e : env) (rsc : fw_resource) :
  respects load_keeps (rproc_handle_trace_rsc phys_addr_bits e rsc).
Proof.
  intros s a s' evs H. unfold rproc_handle_trace_rsc in H. run_in H;
    unfold load_keeps, started; simpl; repeat split; auto; try congruence.
  all: unfold nonzero in *;
    repeat match goal with
    | H : negb (negb _) = _ |- _ => rewrite negb_involutive in H
    | H : negb _ = true |- _ => apply negb_true_iff in H
    | H : negb _ = false |- _ => apply negb_false_iff in H
    | H : (_ =? _) = true |- _ => apply Z.eqb_eq in H
    | H : (_ =? _) = false |- _ => apply Z.eqb_neq in H
    | H : _ && _ = false |- _ => apply andb_false_iff in H
    end; intros; try congruence; try lia.
Qed.

Lemma load_keeps_start (e : env) (bootaddr : Z) :
  respects load_keeps (rproc_start e bootaddr).
Proof.
  intros s a s' evs H. unfold rproc_start in H. run_in H;
    unfold load_keeps, started; simpl; repeat split; auto.
  unfold nonzero in *. apply negb_false_iff in Heqb0. rewrite Heqb0.
  discriminate.
Qed.

Lemma load_keeps_load_fw (phys_addr_bits : Z) (e : env)
    (fw : option (list byte)) :
  respects load_keeps (rproc_load_fw phys_addr_bits e fw).
Proof.
  apply respects_rproc_load_fw;
    try exact load_keeps_refl; try exact load_keeps_trans;
    try (intros; apply load_keeps_emit; reflexivity);
    try (intros; apply load_keeps_trace); try (intros; apply load_keeps_start).
  all: repeat intro;
    match goal with H : _ = Ret _ _ _ |- _ => run_in H end;
    unfold load_keeps, started; simpl; auto.
Qed.

(** ** Trace bindings and free slots *)

Lemma binds_free_refl (s : machine) : binds_free s s [].
Proof. reflexivity. Qed.

Lemma binds_free_trans (s1 s2 s3 : machine) (e1 e2 : list event) :
  binds_free s1 s2 e1 -> binds_free s2 s3 e2 -> binds_free s1 s3 (e1 ++ e2).
Proof.
  unfold binds_free, bindings. intros H1 H2.
  rewrite filter_app, length_app. lia.
Qed.

Lemma binds_free_emit (ev : event) :
  is_trace_binding ev = false -> respects binds_free (emit ev).
Proof.
  intros Hev s a s' evs H. run_in H.
  unfold binds_free, bindings. simpl. rewrite Hev. reflexivity.
Qed.

Lemma binds_free_trace (phys_addr_bits : Z) (e : env) (rsc : fw_resource) :
  respects binds_free (rproc_handle_trace_rsc phys_addr_bits e rsc).
Proof.
  intros s a s' evs H. unfold rproc_handle_trace_rsc in H. run_in H;
    unfold binds_free, bindings, free_slots; simpl; try reflexivity.
  all: unfold nonzero in *;
    repeat match goal with
    | H : negb (negb _) = _ |- _ => rewrite negb_involutive in H
    | H : negb _ = true |- _ => apply negb_true_iff in H
    | H : negb _ = false |- _ => apply negb_false_iff in H
    | H : _ && _ = false |- _ => apply andb_false_iff in H; destruct H
    end;
    repeat match goal with
    | H : (?x =? 0) = _ |- _ => rewrite H in *
    end; try reflexivity; try discriminate.
Qed.

Lemma binds_free_load_fw (phys_addr_bits : Z) (e : env)
    (fw : option (list byte)) :
  respects binds_free (rproc_load_fw phys_addr_bits e fw).
Proof.
  apply respects_rproc_load_fw;
    try exact binds_free_refl; try exact binds_free_trans;
    try (intros; apply binds_free_emit; reflexivity);
    try (intros; apply binds_free_trace).
  all: repeat intro;
    match goal with H : _ = Ret _ _ _ |- _ => unfold rproc_start in H; run_in H end;
    unfold binds_free, bindings; simpl; auto.
Qed.

(** ** How the loader can fail to return *)

Section StuckOnly.

Context {S : Type}.
Variable P : stuck -> Prop.

Lemma stuck_only_ret {A : Type} (a : A) : stuck_only P (ret a : M S A).
Proof. intros s w H. discriminate H. Qed.

Lemma stuck_only_emit (ev : event) : stuck_only P (emit ev : M S unit).
Proof. intros s w H. discriminate H. Qed.

Lemma stuck_only_modify (f : S -> S) : stuck_only P (modify f).
Proof. intros s w H. discriminate H. Qed.

Lemma stuck_only_abort {A : Type} (w : stuck) :
  P w -> stuck_only P (@abort S A w).
Proof. intros Hw s w' H. inversion H; subst. exact Hw. Qed.

Lemma stuck_only_bind {A B : Type} (c : M S A) (f : A -> M S B) :
  stuck_only P c -> (forall a, stuck_only P (f a)) -> stuck_only P (bind c f).
Proof.
  intros Hc Hf s w H. unfold bind in H.
  destruct (c s) as [a s1 e1|w1] eqn:Ec.
  - destruct (f a s1) as [b s2 e2|w2] eqn:Ef; [discriminate|].
    inversion H; subst. eapply Hf. eassumption.
  - inversion H; subst. eapply Hc. eassumption.
Qed.

Lemma stuck_only_when (b : bool) (c : M S unit) :
  stuck_only P c -> stuck_only P (when b c).
Proof. intros Hc. destruct b; [exact Hc | apply stuck_only_ret]. Qed.

End StuckOnly.

Lemma stuck_only_on_rproc (P : stuck -> Prop) (f : rproc -> rproc) :
  stuck_only P (on_rproc f).
Proof. apply stuck_only_modify. Qed.

Lemma stuck_only_get_rproc (P : stuck -> Prop) : stuck_only P get_rproc.
Proof. intros s w H. discriminate H. Qed.

Lemma stuck_only_do_ioremap (P : stuck -> Prop) (e : env) (pa len : Z) :
  stuck_only P (do_ioremap e pa len).
Proof. intros s w H. discriminate H. Qed.

Ltac stuck_step :=
  match goal with
  | |- stuck_only _ (bind _ _) => apply stuck_only_bind; [| intros]
  | |- stuck_only _ (ret _) => apply stuck_only_ret
  | |- stuck_only _ (emit _) => apply stuck_only_emit
  | |- stuck_only _ (on_rproc _) => apply stuck_only_on_rproc
  | |- stuck_only _ get_rproc => apply stuck_only_get_rproc
  | |- stuck_only _ (do_ioremap _ _ _) => apply stuck_only_do_ioremap
  | |- stuck_only _ complete_all => unfold complete_all
  | |- stuck_only _ (abort _) => apply stuck_only_abort; reflexivity
  | |- stuck_only _ (when _ _) => apply stuck_only_when
  | |- stuck_only _ (if ?b then _ else _) => destruct b
  | |- stuck_only _ (match ?x with _ => _ end) => destruct x
  | |- stuck_only _ _ => solve [auto]
  end.

Section LoaderStuck.

Variable phys_addr_bits : Z.
Variable e : env.

Lemma stuck_rproc_start (P : stuck -> Prop) (bootaddr : Z) :
  stuck_only P (rproc_start e bootaddr).
Proof. unfold rproc_start. repeat stuck_step. Qed.

Lemma stuck_rproc_handle_trace_rsc (P : stuck -> Prop) (rsc : fw_resource) :
  stuck_only P (rproc_handle_trace_rsc phys_addr_bits e rsc).
Proof. unfold rproc_handle_trace_rsc. repeat stuck_step. Qed.

Lemma stuck_handle_resource (P : stuck -> Prop) (rsc : fw_resource)
    (bootaddr : Z) :
  stuck_only P (handle_resource phys_addr_bits e rsc bootaddr).
Proof.
  unfold handle_resource.
  repeat first [apply stuck_rproc_handle_trace_rsc | stuck_step].
Qed.

Lemma stuck_handle_resources_loop (rsc : list fw_resource) :
  forall len bootaddr,
  stuck_only is_oob (handle_resources_loop phys_addr_bits e rsc len bootaddr).
Proof.
  induction rsc as [|entry rest IH]; intros len bootaddr; simpl.
  - repeat stuck_step.
  - destruct (size_t_ge len sizeof_fw_resource); [|repeat stuck_step].
    apply stuck_only_bind; [apply stuck_handle_resource|].
    intros [r b]. destruct (nonzero r); [repeat stuck_step | apply IH].
Qed.

Lemma stuck_rproc_handle_resources (rsc : list fw_resource)
    (len bootaddr : Z) :
  stuck_only is_oob (rproc_handle_resources phys_addr_bits e rsc len bootaddr).
Proof.
  unfold rproc_handle_resources.
  apply stuck_only_bind; [apply stuck_handle_resources_loop|].
  intros [r b]. repeat stuck_step.
Qed.

Lemma length_bytes_at (off n : nat) (bs content : list byte) :
  bytes_at off n bs = Some content -> (off + n <= length bs)%nat.
Proof.
  unfold bytes_at. destruct (Nat.leb_spec (off + n) (length bs)); [auto|].
  discriminate.
Qed.

(** The loop never runs out of fuel when it is given more fuel than the blob
    has bytes. *)
Lemma stuck_process_fw_loop (fuel : nat) :
  forall section left bootaddr,
  (length section < fuel)%nat ->
  stuck_only is_oob
    (process_fw_loop phys_addr_bits e fuel section left bootaddr).
Proof.
  induction fuel as [|fuel IH]; intros section left bootaddr Hfuel; [lia|].
  cbn [process_fw_loop].
  destruct (size_t_gt left sizeof_fw_section); [|repeat stuck_step].
  destruct (read_fw_section section) as [hdr|] eqn:Hhdr; [|repeat stuck_step].
  destruct (to_u32 _ <? _); [repeat stuck_step|].
  apply stuck_only_bind; [repeat stuck_step|]. intros rproc.
  destruct (rproc_da_to_pa _ _ _) as [pa|]; [|repeat stuck_step].
  apply stuck_only_bind; [repeat stuck_step|]. intros ptr.
  destruct (negb (nonzero ptr)); [repeat stuck_step|].
  destruct (bytes_at _ _ _) as [content|] eqn:Hc; [|repeat stuck_step].
  apply stuck_only_bind; [repeat stuck_step|]. intros _.
  apply stuck_only_bind.
  { destruct (sec_type hdr =? FW_RESOURCE);
      [apply stuck_rproc_handle_resources | repeat stuck_step]. }
  intros [r b]. apply stuck_only_bind; [repeat stuck_step|]. intros _.
  destruct (nonzero r); [repeat stuck_step|].
  apply IH. apply length_bytes_at in Hc. rewrite length_skipn. lia.
Qed.

(** [rproc_load_fw] returns unless it reads out of bounds. *)
Lemma stuck_rproc_load_fw (fw : option (list byte)) :
  stuck_only is_oob (rproc_load_fw phys_addr_bits e fw).
Proof.
  unfold rproc_load_fw, rproc_process_fw. destruct fw as [data|].
  - apply stuck_only_bind; [repeat stuck_step|]. intros _.
    apply stuck_only_bind; [|intros _; repeat stuck_step].
    destruct (_ <? _); [repeat stuck_step|].
    destruct (negb _); [repeat stuck_step|].
    apply stuck_only_bind; [repeat stuck_step|]. intros _.
    apply stuck_only_bind; [apply stuck_process_fw_loop; lia|].
    intros [r b]. destruct (nonzero r); [repeat stuck_step|].
    apply stuck_rproc_start.
  - repeat stuck_step.
Qed.

End LoaderStuck.

(** ** The end of [rproc_load_fw] *)

Lemma ends_completed_complete_all : ends_completed complete_all.
Proof.
  intros s a s' evs H. run_in H. simpl. split; [reflexivity|].
  exists []. reflexivity.
Qed.

Lemma ends_completed_bind {A B : Type} (c : M machine A)
    (f : A -> M machine B) :
  (forall a, ends_completed (f a)) -> ends_completed (bind c f).
Proof.
  intros Hf s b s' evs H. unfold bind in H.
  destruct (c s) as [a s1 e1|] eqn:Ec; [|discriminate].
  destruct (f a s1) as [b' s2 e2|] eqn:Ef; [|discriminate].
  inversion H; subst.
  destruct (Hf a s1 b s' e2 Ef) as [Hdone [evs0 Hevs]].
  split; [exact Hdone|]. exists (e1 ++ evs0). rewrite Hevs, app_assoc.
  reflexivity.
Qed.

Lemma ends_completed_load_fw (phys_addr_bits : Z) (e : env)
    (fw : option (list byte)) :
  ends_completed (rproc_load_fw phys_addr_bits e fw).
Proof.
  unfold rproc_load_fw. destruct fw as [data|].
  - do 3 (apply ends_completed_bind; intros _).
    apply ends_completed_complete_all.
  - apply ends_completed_bind; intros _.
    apply ends_completed_complete_all.
Qed.

(** ** The address translator *)

Lemma da_to_pa_loop_find (tbl : list rproc_mem_entry) (da : Z) :
  Forall (wf_mem_entry 32) tbl ->
  da_to_pa_loop 32 tbl da =
  match find (in_range da) tbl with
  | Some me => Some (me_pa me + (da - me_da me))
  | None => None
  end.
Proof.
  induction 1 as [|me rest Hme _ IH]; simpl; [reflexivity|].
  destruct Hme as (Hda & Hsz & Hend & Hpa & Hpend).
  change (2 ^ 64) with 18446744073709551616 in Hend.
  change (2 ^ 32) with 4294967296 in Hpend.
  destruct (Z.eqb_spec (me_size me) 0) as [Hz|_]; [lia|].
  unfold in_range, to_u64.
  change (2 ^ 64) with 18446744073709551616.
  rewrite (Z.mod_small (me_da me + me_size me)) by lia.
  destruct ((me_da me <=? da) && (da <? me_da me + me_size me)) eqn:Hin.
  - apply andb_true_iff in Hin. destruct Hin as [Hlo Hhi].
    apply Z.leb_le in Hlo. apply Z.ltb_lt in Hhi.
    unfold phys_addr_t. change (2 ^ 32) with 4294967296.
    rewrite (Z.mod_small (da - me_da me)) by lia.
    rewrite Z.mod_small by lia. reflexivity.
  - exact IH.
Qed.

(** With a table whose ranges do not wrap, whatever the physical
    addresses: the value of the specification, cut to [phys_addr_t]. *)
Lemma da_to_pa_loop_cut (phys_addr_bits : Z) (tbl : list rproc_mem_entry)
    (da : Z) :
  Forall da_range tbl ->
  da_to_pa_loop phys_addr_bits tbl da =
  match find (in_range da) tbl with
  | Some me => Some (phys_addr_t phys_addr_bits (me_pa me + (da - me_da me)))
  | None => None
  end.
Proof.
  induction 1 as [|me rest Hme _ IH]; simpl; [reflexivity|].
  destruct Hme as (Hda & Hsz & Hend).
  change (2 ^ 64) with 18446744073709551616 in Hend.
  destruct (Z.eqb_spec (me_size me) 0) as [Hz|_]; [lia|].
  unfold in_range, to_u64.
  change (2 ^ 64) with 18446744073709551616.
  rewrite (Z.mod_small (me_da me + me_size me)) by lia.
  destruct ((me_da me <=? da) && (da <? me_da me + me_size me)) eqn:Hin.
  - apply andb_true_iff in Hin. destruct Hin as [Hlo Hhi].
    apply Z.leb_le in Hlo. apply Z.ltb_lt in Hhi.
    rewrite (Z.mod_small (da - me_da me)) by lia. reflexivity.
  - exact IH.
Qed.

(** An entry whose range reaches the top of the 64-bit space is skipped. *)
Lemma da_to_pa_loop_wrapped (phys_addr_bits : Z) (me : rproc_mem_entry)
    (rest : list rproc_mem_entry) (da : Z) :
  0 <= me_da me < 2 ^ 64 ->
  0 < me_size me < 2 ^ 32 ->
  2 ^ 64 <= me_da me + me_size me ->
  da_to_pa_loop phys_addr_bits (me :: rest) da =
  da_to_pa_loop phys_addr_bits rest da.
Proof.
  change (2 ^ 64) with 18446744073709551616.
  change (2 ^ 32) with 4294967296.
  intros Hda Hsz Hwrap. cbn [da_to_pa_loop].
  destruct (Z.eqb_spec (me_size me) 0) as [Hz|_]; [lia|].
  replace ((me_da me <=? da) && (da <? to_u64 (me_da me + me_size me)))
    with false; [reflexivity|].
  symmetry. apply andb_false_iff.
  destruct (Z.leb_spec (me_da me) da) as [Hle|Hlt]; [right | left; reflexivity].
  apply Z.ltb_ge. unfold to_u64.
  change (2 ^ 64) with 18446744073709551616.
  replace (me_da me + me_size me)
    with (me_da me + me_size me - 18446744073709551616
          + 1 * 18446744073709551616) by lia.
  rewrite Z.mod_add by lia. rewrite Z.mod_small by lia. lia.
Qed.

(** C7, as the code has it.  With a 32-bit [phys_addr_t], a device address
    in the [u64] range and a table whose entries are non-empty ranges inside
    the two address spaces, [rproc_da_to_pa] computes what the specification
    says: without a table it succeeds, returning [da] itself, exactly when
    [da] fits in the physical address width, and fails ([-EINVAL])
    otherwise; with a table it returns [pa + (da - entry.da)] of the first
    entry with [entry.da <= da < entry.da + entry.size], and fails when no
    entry matches.  It is a function of the table and the address alone: it
    reads no state and leaves no event.  Outside these conditions the code
    differs from the specification.  Without a table it accepts exactly the
    addresses below 2^32, also when [phys_addr_t] is wider than 32 bits.
    With a table the sum [pa + (da - entry.da)] is cut to [phys_addr_t].  An
    entry whose range reaches 2^64 matches no address at all. *)
Theorem rproc_da_to_pa_translate (phys_addr_bits : Z)
    (maps : option (list rproc_mem_entry)) (da : Z) :
  0 <= da < 2 ^ 64 ->
  (phys_addr_bits = 32 -> wf_maps phys_addr_bits maps ->
   rproc_da_to_pa phys_addr_bits maps da = translate phys_addr_bits maps da) /\
  (32 <= phys_addr_bits ->
   rproc_da_to_pa phys_addr_bits None da =
     if da <? 2 ^ 32 then Some da else None) /\
  (forall tbl, Forall da_range tbl ->
   rproc_da_to_pa phys_addr_bits (Some tbl) da =
     option_map (phys_addr_t phys_addr_bits)
       (translate phys_addr_bits (Some tbl) da)) /\
  (forall me rest,
   0 <= me_da me < 2 ^ 64 -> 0 < me_size me < 2 ^ 32 ->
   2 ^ 64 <= me_da me + me_size me ->
   rproc_da_to_pa phys_addr_bits (Some (me :: rest)) da =
   rproc_da_to_pa phys_addr_bits (Some rest) da).
Proof.
  intros Hda. split; [|split; [|split]].
  - intros -> Hwf. destruct maps as [tbl|].
    + apply da_to_pa_loop_find. exact Hwf.
    + unfold rproc_da_to_pa, translate, phys_addr_t, to_u32.
      change ((-1) mod 2 ^ 32) with 4294967295.
      change (4294967295 mod 2 ^ 32) with 4294967295.
      change (2 ^ 32) with 4294967296.
      destruct (Z.ltb_spec 4294967295 da), (Z.ltb_spec da 4294967296);
        try lia.
      * reflexivity.
      * rewrite Z.mod_small by lia. reflexivity.
  - intros Hbits. unfold rproc_da_to_pa, phys_addr_t, to_u32.
    change ((-1) mod 2 ^ 32) with 4294967295.
    assert (Hpow : 2 ^ 32 <= 2 ^ phys_addr_bits)
      by (apply Z.pow_le_mono_r; lia).
    change (2 ^ 32) with 4294967296 in *.
    rewrite (Z.mod_small 4294967295) by lia.
    destruct (Z.ltb_spec 4294967295 da), (Z.ltb_spec da 4294967296);
      try lia.
    + reflexivity.
    + rewrite Z.mod_small by lia. reflexivity.
  - intros tbl Htbl. unfold rproc_da_to_pa, translate.
    rewrite (da_to_pa_loop_cut phys_addr_bits tbl da Htbl).
    destruct (find (in_range da) tbl); reflexivity.
  - intros me rest H1 H2 H3. unfold rproc_da_to_pa.
    apply da_to_pa_loop_wrapped; assumption.
Qed.

Lemma rproc_da_to_pa_translate_witness :
  rproc_da_to_pa 32 one_entry_maps 4100 = translate 32 one_entry_maps 4100 /\
  translate 32 one_entry_maps 4100 = Some 2147483652 /\
  rproc_da_to_pa 64 None 4294967296 = None.
Proof.
  assert (H32 : 0 <= 4100 < 2 ^ 64)
    by (change (2 ^ 64) with 18446744073709551616; lia).
  assert (H64 : 0 <= 4294967296 < 2 ^ 64)
    by (change (2 ^ 64) with 18446744073709551616; lia).
  split; [|split; [reflexivity|]].
  - apply (proj1 (rproc_da_to_pa_translate 32 one_entry_maps 4100 H32)).
    + reflexivity.
    + simpl. constructor; [|constructor].
      unfold wf_mem_entry. simpl. lia.
  - apply (proj1 (proj2 (rproc_da_to_pa_translate 64 None 4294967296 H64))).
    lia.
Defined.

(** Where the code leaves the specification: an address that fits a 64-bit
    [phys_addr_t] and is refused without a table; an entry at the top of
    the device address space, whose own start does not translate; a
    physical address that is cut to 32 bits. *)
Lemma rproc_da_to_pa_counterexample :
  (rproc_da_to_pa 64 None (2 ^ 32) = None /\
   translate 64 None (2 ^ 32) = Some (2 ^ 32)) /\
  (rproc_da_to_pa 32
     (Some [{| me_da := 2 ^ 64 - 4096; me_pa := 0; me_size := 4096 |}])
     (2 ^ 64 - 4096) = None /\
   translate 32
     (Some [{| me_da := 2 ^ 64 - 4096; me_pa := 0; me_size := 4096 |}])
     (2 ^ 64 - 4096) = Some 0) /\
  (rproc_da_to_pa 32
     (Some [{| me_da := 0; me_pa := 2 ^ 32 - 4096; me_size := 8192 |}])
     4096 = Some 0 /\
   translate 32
     (Some [{| me_da := 0; me_pa := 2 ^ 32 - 4096; me_size := 8192 |}])
     4096 = Some (2 ^ 32)).
Proof. repeat split; vm_compute; reflexivity. Qed.

(** The identity check compares with [(phys_addr_t)(~0U)], so with a 64-bit
    [phys_addr_t] it still rejects every address above 32 bits. *)
Remark rproc_da_to_pa_wide_phys_addr :
  rproc_da_to_pa 64 None (2 ^ 32) = None /\
  translate 64 None (2 ^ 32) = Some (2 ^ 32).
Proof. split; reflexivity. Qed.

(** ** The turns of the section loop *)

Lemma process_fw_loop_turn (phys_addr_bits : Z) (e : env)
    (h h' : loop_head) (evs : list event) :
  section_turn phys_addr_bits e h = Some (h', evs) ->
  forall fuel,
  process_fw_loop phys_addr_bits e (S fuel) (head_section h) (head_left h)
    (head_bootaddr h) (head_machine h) =
  prepend evs
    (process_fw_loop phys_addr_bits e fuel (head_section h') (head_left h')
       (head_bootaddr h') (head_machine h')).
Proof.
  unfold section_turn. cbn zeta.
  destruct (_ && _) eqn:Hleft; [|discriminate].
  apply andb_true_iff in Hleft. destruct Hleft as [Hlo Hhi].
  apply Z.ltb_lt in Hlo. apply Z.leb_le in Hhi.
  destruct (read_fw_section (head_section h)) as [hdr|] eqn:Hhdr;
    [|discriminate].
  destruct (sec_len hdr <=? _) eqn:Hlen; [|discriminate].
  apply Z.leb_le in Hlen.
  destruct (rproc_da_to_pa _ _ _) as [pa|] eqn:Hpa; [|discriminate].
  destruct (nonzero (ioremap_nocache _ _ _ _)) eqn:Hptr; [|discriminate].
  destruct (bytes_at _ _ _) as [content|] eqn:Hcontent; [|discriminate].
  match goal with
  | |- match ?c with _ => _ end = _ -> _ =>
      destruct c as [[r b] m' evs1|] eqn:Hrun; [|discriminate]
  end.
  destruct (nonzero r) eqn:Hr; [discriminate|].
  intros H fuel. inversion H; subst h' evs; clear H. cbn [head_section
    head_left head_bootaddr head_machine].
  unfold sizeof_fw_section in *.
  pose proof (le_val_nonneg (firstn 4 (skipn 12 (firstn 16
                (skipn 0 (head_section h)))))) as Hnn.
  assert (Hgt : size_t_gt (head_left h) sizeof_fw_section = true)
    by (unfold size_t_gt, sizeof_fw_section; apply orb_true_iff; right;
        apply Z.ltb_lt; lia).
  assert (Hw : wrap_int (head_left h - 16) = head_left h - 16)
    by (apply wrap_int_small; unfold INT_MAX in *; lia).
  assert (Hu : to_u32 (head_left h - 16) = head_left h - 16)
    by (apply to_u32_small; unfold INT_MAX in *; lia).
  cbn [process_fw_loop]. rewrite Hgt, Hhdr. cbn beta iota zeta.
  unfold sizeof_fw_section. rewrite Hw, Hu.
  replace (head_left h - 16 <? sec_len hdr) with false
    by (symmetry; apply Z.ltb_ge; lia).
  rewrite bind_get_rproc, Hpa, bind_do_ioremap. cbn beta iota zeta.
  rewrite Hptr. cbn [negb]. rewrite Hcontent, bind_emit.
  unfold bind at 1. rewrite Hrun. cbn beta iota zeta.
  rewrite bind_emit, Hr.
  assert (Hlen0 : 0 <= sec_len hdr).
  { unfold read_fw_section in Hhdr.
    destruct (bytes_at 0 16 (head_section h)); [|discriminate].
    inversion Hhdr. cbn. apply le_val_nonneg. }
  rewrite (wrap_int_small (head_left h - 16 - sec_len hdr))
    by (unfold INT_MAX in *; lia).
  destruct (process_fw_loop _ _ fuel _ _ _ _) as [[r2 b2] s2 e2|w];
    cbn; [|reflexivity].
  rewrite <- !app_assoc. reflexivity.
Qed.

Lemma process_fw_loop_turns (phys_addr_bits : Z) (e : env) (n : nat) :
  forall h h' evs,
  after_sections phys_addr_bits e n h = Some (h', evs) ->
  forall fuel,
  process_fw_loop phys_addr_bits e (n + fuel) (head_section h) (head_left h)
    (head_bootaddr h) (head_machine h) =
  prepend evs
    (process_fw_loop phys_addr_bits e fuel (head_section h') (head_left h')
       (head_bootaddr h') (head_machine h')).
Proof.
  induction n as [|n IH]; intros h h' evs H fuel; cbn [after_sections] in H.
  - inversion H; subst. cbn [Nat.add].
    destruct (process_fw_loop _ _ _ _ _ _ _); reflexivity.
  - destruct (section_turn phys_addr_bits e h) as [[h1 e1]|] eqn:H1;
      [|discriminate].
    destruct (after_sections phys_addr_bits e n h1) as [[h2 e2]|] eqn:H2;
      [|discriminate].
    inversion H; subst h' evs; clear H. cbn [Nat.add].
    rewrite (process_fw_loop_turn _ _ _ _ _ H1), (IH _ _ _ H2).
    destruct (process_fw_loop _ _ fuel _ _ _ _); cbn; [|reflexivity].
    rewrite app_assoc. reflexivity.
Qed.

(** Every turn moves the section pointer by what it takes off [left], and
    by no less than a section header. *)
Lemma section_turn_moves (phys_addr_bits : Z) (e : env)
    (h h' : loop_head) (evs : list event) :
  section_turn phys_addr_bits e h = Some (h', evs) ->
  (16 + length (head_section h') <= length (head_section h))%nat /\
  head_left h' - Z.of_nat (length (head_section h')) =
  head_left h - Z.of_nat (length (head_section h)) /\
  0 <= head_left h' <= INT_MAX.
Proof.
  unfold section_turn. cbv zeta.
  destruct (_ && _) eqn:Hleft; [|discriminate].
  apply andb_true_iff in Hleft. destruct Hleft as [Hlo Hhi].
  apply Z.ltb_lt in Hlo. apply Z.leb_le in Hhi.
  destruct (read_fw_section (head_section h)) as [hdr|] eqn:Hhdr;
    [|discriminate].
  destruct (sec_len hdr <=? _) eqn:Hlen; [|discriminate].
  apply Z.leb_le in Hlen.
  destruct (rproc_da_to_pa _ _ _) as [pa|]; [|discriminate].
  destruct (nonzero (ioremap_nocache _ _ _ _)); [|discriminate].
  destruct (bytes_at _ _ _) as [content|] eqn:Hcontent; [|discriminate].
  match goal with
  | |- match ?c with _ => _ end = _ -> _ =>
      destruct c as [[r b] m' evs1|]; [|discriminate]
  end.
  destruct (nonzero r); [discriminate|].
  remember (skipn (16 + Z.to_nat (sec_len hdr)) (head_section h)) as rest
    eqn:Hrest.
  intros H. injection H as Hh He. subst h' evs.
  cbn [head_section head_left]. apply length_bytes_at in Hcontent.
  assert (Hlen0 : 0 <= sec_len hdr).
  { unfold read_fw_section in Hhdr.
    destruct (bytes_at 0 16 (head_section h)); [|discriminate].
    inversion Hhdr. cbn. apply le_val_nonneg. }
  rewrite Hrest, length_skipn. unfold sizeof_fw_section in *. lia.
Qed.

Lemma after_sections_moves (phys_addr_bits : Z) (e : env) (n : nat) :
  forall h h' evs,
  after_sections phys_addr_bits e n h = Some (h', evs) ->
  (n + length (head_section h') <= length (head_section h))%nat /\
  head_left h' - Z.of_nat (length (head_section h')) =
  head_left h - Z.of_nat (length (head_section h)).
Proof.
  induction n as [|n IH]; intros h h' evs H; cbn [after_sections] in H.
  - inversion H; subst. split; [simpl; lia | reflexivity].
  - destruct (section_turn phys_addr_bits e h) as [[h1 e1]|] eqn:H1;
      [|discriminate].
    destruct (after_sections phys_addr_bits e n h1) as [[h2 e2]|] eqn:H2;
      [|discriminate].
    inversion H; subst h' evs; clear H.
    apply section_turn_moves in H1. apply IH in H2. lia.
Qed.

(** [rproc_process_fw] after [n] turns that went round. *)
Lemma rproc_process_fw_turns (phys_addr_bits : Z) (e : env) (n : nat)
    (section : list byte) (left bootaddr : Z) (m : machine)
    (h : loop_head) (evs : list event) :
  after_sections phys_addr_bits e n (first_head section left bootaddr m) =
    Some (h, evs) ->
  exists fuel,
    (length (head_section h) <= fuel)%nat /\
    rproc_process_fw phys_addr_bits e section left bootaddr m =
    prepend evs
      (process_fw_loop phys_addr_bits e (S fuel) (head_section h)
         (head_left h) (head_bootaddr h) (head_machine h)).
Proof.
  intros H. destruct (after_sections_moves _ _ _ _ _ _ H) as [Hlen _].
  cbn [first_head head_section] in Hlen.
  exists (length section - n)%nat. split; [lia|].
  unfold rproc_process_fw.
  replace (S (length section)) with (n + S (length section - n))%nat by lia.
  exact (process_fw_loop_turns _ _ _ _ _ _ H _).
Qed.

(** ** The section loop at its lower bound *)

(** C9.  An image whose section area ends with a bare section header.  When
    the sections before it were handled without error, so that the loop
    comes to its head with exactly [sizeof(struct fw_section)] bytes left,
    [rproc_process_fw] returns 0 with the boot address, the machine and the
    events that those sections left: the last header is not read and nothing
    is mapped or copied for it, whatever it holds, because the loop goes on
    only while strictly more than a section header is left.  This is so at
    every head of the loop. *)
Theorem process_fw_header_only_tail (phys_addr_bits : Z) (e : env)
    (area : list byte) (bootaddr0 : Z) (m0 : machine) (n : nat)
    (h : loop_head) (evs0 : list event) :
  after_sections phys_addr_bits e n
    (first_head area (Z.of_nat (length area)) bootaddr0 m0) = Some (h, evs0) ->
  Z.of_nat (length (head_section h)) = sizeof_fw_section ->
  rproc_process_fw phys_addr_bits e area (Z.of_nat (length area))
    bootaddr0 m0 = Ret (0, head_bootaddr h) (head_machine h) evs0 /\
  (forall fuel section bootaddr m,
   process_fw_loop phys_addr_bits e (S fuel) section sizeof_fw_section
     bootaddr m = Ret (0, bootaddr) m []).
Proof.
  intros Hturns Htail. split; [|reflexivity].
  destruct (after_sections_moves _ _ _ _ _ _ Hturns) as [_ Hleft].
  cbn [first_head head_section head_left] in Hleft.
  assert (Hl : head_left h = sizeof_fw_section) by lia.
  destruct (rproc_process_fw_turns _ _ _ _ _ _ _ _ _ Hturns)
    as (fuel & _ & ->).
  rewrite Hl.
  change (process_fw_loop phys_addr_bits e (S fuel) (head_section h)
            sizeof_fw_section (head_bootaddr h) (head_machine h))
    with (@Ret machine (Z * Z) (0, head_bootaddr h) (head_machine h) []).
  cbn [prepend]. rewrite app_nil_r. reflexivity.
Qed.

Lemma process_fw_header_only_tail_witness :
  rproc_process_fw 32 quiet_env bare_header_tail
    (Z.of_nat (length bare_header_tail)) 0 loading_machine =
    Ret (0, 0) {| this := loading_rproc; ioremaps := 1 |}
      [EvIoremap 4096 4 4096; EvMemcpy 4096 [xde; xad; xbe; xef];
       EvIounmap 4096].
Proof.
  apply (proj1 (process_fw_header_only_tail 32 quiet_env bare_header_tail
                  0 loading_machine 1 _ _ eq_refl eq_refl)).
Defined.

(** An image made of one data section and a bare section header with
    [len] 0: the data section is the only one mapped, and the processor is
    started. *)
Example header_only_tail_image :
  rproc_load_fw 32 quiet_env
    (Some (fw_image rprc (data_section ++ fw_section_header FW_DATA 8192 0)))
    loading_machine =
  Ret tt
    {| this := with_completion true (with_state RPROC_RUNNING loading_rproc);
       ioremaps := 1 |}
    [EvInfo "Loaded fw image"; EvInfo "BIOS image version";
     EvIoremap 4096 4 4096; EvMemcpy 4096 [xde; xad; xbe; xef];
     EvIounmap 4096; EvMutexLock 0; EvStart 0 0;
     EvInfo "remote processor is now up"; EvMutexUnlock;
     EvReleaseFirmware; EvCompleteAll].
Proof. vm_compute. reflexivity. Qed.

(** ** Resource tables that fit their mapping *)

Lemma never_stuck_returns {S A : Type} (c : M S A) (s : S) :
  stuck_only (fun _ => False) c -> exists a s' evs, c s = Ret a s' evs.
Proof.
  intros H. destruct (c s) as [a s' evs|w] eqn:E; [eauto|].
  destruct (H s w E).
Qed.

Lemma handle_resources_loop_returns (phys_addr_bits : Z) (e : env)
    (rsc : list fw_resource) :
  forall len bootaddr m,
  0 <= len <= INT_MAX ->
  len / sizeof_fw_resource <= Z.of_nat (length rsc) ->
  exists r b' m' evs,
    handle_resources_loop phys_addr_bits e rsc len bootaddr m =
      Ret (r, b') m' evs.
Proof.
  unfold sizeof_fw_resource.
  induction rsc as [|entry rest IH]; intros len bootaddr m Hlen Hfit;
    cbn [handle_resources_loop]; unfold size_t_ge, sizeof_fw_resource.
  - simpl in Hfit.
    assert (len < 76) by (apply Z.div_small_iff in Hfit || idtac;
      destruct (Z_lt_ge_dec len 76); [assumption|];
      assert (1 <= len / 76) by (apply Z.div_le_lower_bound; lia); lia).
    replace (len <? 0) with false by (symmetry; apply Z.ltb_ge; lia).
    replace (76 <=? len) with false by (symmetry; apply Z.leb_gt; lia).
    cbn. repeat eexists.
  - replace (len <? 0) with false by (symmetry; apply Z.ltb_ge; lia).
    destruct (Z.leb_spec 76 len) as [Hge|Hlt]; cbn [orb]; [|cbn; repeat eexists].
    destruct (never_stuck_returns
                (handle_resource phys_addr_bits e entry bootaddr) m
                (stuck_handle_resource _ _ _ _ _)) as [[r b1] [m1 [e1 H1]]].
    unfold bind. rewrite H1.
    destruct (nonzero r); [cbn; repeat eexists|].
    rewrite wrap_int_small by (unfold INT_MAX in *; lia).
    destruct (IH (len - 76) b1 m1) as [r2 [b2 [m2 [e2 H2]]]].
    + lia.
    + rewrite length_cons, Nat2Z.inj_succ in Hfit.
      replace (len - 76) with (len + (-1) * 76) by lia.
      rewrite Z.div_add by lia. lia.
    + unfold sizeof_fw_resource in H2. rewrite H2. repeat eexists.
Qed.

Lemma length_fw_resource_array (n : nat) :
  forall bs, length (fw_resource_array n bs) = n.
Proof. induction n; intros bs; simpl; [|rewrite IHn]; reflexivity. Qed.

Lemma rproc_handle_resources_returns (phys_addr_bits : Z) (e : env)
    (content : list byte) (bootaddr : Z) (m : machine) :
  Z.of_nat (length content) <= INT_MAX ->
  exists r b' m' evs,
    rproc_handle_resources phys_addr_bits e (as_fw_resources content)
      (wrap_int (Z.of_nat (length content))) bootaddr m = Ret (r, b') m' evs.
Proof.
  intros Hmax.
  rewrite wrap_int_small by (unfold INT_MAX in *; lia).
  destruct (handle_resources_loop_returns phys_addr_bits e
              (as_fw_resources content) (Z.of_nat (length content))
              bootaddr m) as [r [b1 [m1 [e1 H1]]]].
  - lia.
  - unfold as_fw_resources, sizeof_fw_resource.
    rewrite length_fw_resource_array, Nat2Z.inj_div. simpl. lia.
  - unfold rproc_handle_resources, bind at 1. rewrite H1.
    repeat step. unfold when.
    destruct (nonzero r && nonzero (trace_buf0 (this m1)));
      destruct (nonzero r && nonzero (trace_buf1 (this m1)));
      repeat step; cbn; repeat eexists.
Qed.

(** ** The truncation check *)

Lemma bytes_at_rest (n : nat) (bs : list byte) :
  (n <= length bs)%nat ->
  bytes_at n (length bs - n) bs = Some (skipn n bs).
Proof.
  intros H. unfold bytes_at.
  replace (n + (length bs - n) <=? length bs)%nat with true
    by (symmetry; apply Nat.leb_le; lia).
  rewrite firstn_all2 by (rewrite length_skipn; lia). reflexivity.
Qed.

(** The checks on the section at the head of the loop, at any turn. *)
Lemma process_fw_loop_truncation (phys_addr_bits : Z) (e : env)
    (fuel : nat) (section : list byte) (hdr : fw_section)
    (left bootaddr : Z) (m : machine) :
  read_fw_section section = Some hdr ->
  sizeof_fw_section < left <= INT_MAX ->
  (left - sizeof_fw_section < sec_len hdr ->
   process_fw_loop phys_addr_bits e (S fuel) section left bootaddr m =
     Ret (- EINVAL, bootaddr) m [EvErr "firmware image is truncated"]) /\
  (sec_len hdr = left - sizeof_fw_section ->
   Z.of_nat (length section) = left ->
   (1 <= fuel)%nat ->
   match rproc_da_to_pa phys_addr_bits (memory_maps (this m)) (sec_da hdr) with
   | None =>
       process_fw_loop phys_addr_bits e (S fuel) section left bootaddr m =
         Ret (- EINVAL, bootaddr) m [EvErr "rproc_da_to_pa failed"]
   | Some pa =>
       let ptr := ioremap_nocache e (ioremaps m) pa (sec_len hdr) in
       if nonzero ptr then
         exists r b m' evs,
           process_fw_loop phys_addr_bits e (S fuel) section left bootaddr m =
             Ret (r, b) m'
               (EvIoremap pa (sec_len hdr) ptr
                :: EvMemcpy ptr (skipn 16 section) :: evs) /\
           (sec_type hdr <> FW_RESOURCE ->
            r = 0 /\ b = bootaddr /\ evs = [EvIounmap ptr])
       else
         process_fw_loop phys_addr_bits e (S fuel) section left bootaddr m =
           Ret (- ENOMEM, bootaddr)
             {| this := this m; ioremaps := S (ioremaps m) |}
             [EvIoremap pa (sec_len hdr) ptr; EvErr "can't ioremap"]
   end).
Proof.
  unfold sizeof_fw_section. intros Hhdr Hleft.
  assert (Hgt : size_t_gt left sizeof_fw_section = true)
    by (unfold size_t_gt, sizeof_fw_section; apply orb_true_iff; right;
        apply Z.ltb_lt; lia).
  assert (Hw : to_u32 (wrap_int (left - 16)) = left - 16).
  { rewrite wrap_int_small by (unfold INT_MAX in *; lia).
    apply to_u32_small. unfold INT_MAX in *. lia. }
  cbn [process_fw_loop].
  rewrite Hgt, Hhdr. cbn beta iota zeta. unfold sizeof_fw_section.
  rewrite Hw. split.
  - intros Htrunc. apply Z.ltb_lt in Htrunc. rewrite Htrunc.
    repeat step. reflexivity.
  - intros Hlen Hsec Hfuel.
    replace (left - 16 <? sec_len hdr) with false
      by (symmetry; apply Z.ltb_ge; lia).
    step.
    destruct (rproc_da_to_pa _ _ _) as [pa|]; [|repeat step; reflexivity].
    step.
    destruct (nonzero (ioremap_nocache e (ioremaps m) pa (sec_len hdr)))
      eqn:Hptr; cbn [negb].
    2: { repeat step. reflexivity. }
    + assert (Hn : Z.to_nat (sec_len hdr) = (length section - 16)%nat) by lia.
      rewrite Hn, bytes_at_rest by lia.
      step.
      assert (Hskip : skipn (16 + (length section - 16)) section = [])
        by (apply skipn_all2; lia).
      rewrite Hskip.
      assert (Hlast : wrap_int (wrap_int (left - 16) - sec_len hdr) = 0)
        by (rewrite (wrap_int_small (left - 16))
              by (unfold INT_MAX in *; lia);
            rewrite Hlen, Z.sub_diag; reflexivity).
      rewrite Hlast.
      destruct fuel as [|fuel]; [lia|].
      destruct (Z.eqb_spec (sec_type hdr) FW_RESOURCE) as [Hres|Hres].
      * assert (Hc : sec_len hdr = Z.of_nat (length (skipn 16 section)))
          by (rewrite length_skipn; lia).
        replace (wrap_int (sec_len hdr))
          with (wrap_int (Z.of_nat (length (skipn 16 section))))
          by (rewrite <- Hc; reflexivity).
        destruct (rproc_handle_resources_returns phys_addr_bits e
                    (skipn 16 section) bootaddr
                    {| this := this m; ioremaps := S (ioremaps m) |})
          as [r [b1 [m1 [e1 H1]]]];
          [rewrite <- Hc; unfold INT_MAX in *; lia|].
        unfold bind at 1. rewrite H1.
        destruct (nonzero r); cbn; eexists _, _, _, _;
          (split; [reflexivity | intros Hne; congruence]).
      * step. cbn. eexists _, _, _, _. split; [reflexivity|]. auto.
Qed.

(** C8, as the code has it.  At every turn of the section loop, that is
    after any number of sections that were handled without error, and while
    more than [sizeof(struct fw_section)] bytes are left: a section whose
    [len] exceeds the bytes left after its header is refused with [-EINVAL]
    and the message of a truncated image, before anything is mapped for it;
    a section whose [len] equals the bytes left after its header passes
    that check: its address is translated, and when the translation and the
    mapping succeed its whole payload is copied.  With exactly a header
    left the loop ends with success and [len] is not looked at. *)
Theorem process_fw_truncation_check (phys_addr_bits : Z) (e : env)
    (area : list byte) (left0 bootaddr0 : Z) (m0 : machine) (n : nat)
    (h : loop_head) (evs0 : list event) :
  after_sections phys_addr_bits e n (first_head area left0 bootaddr0 m0) =
    Some (h, evs0) ->
  let section := head_section h in
  let left := head_left h in
  let bootaddr := head_bootaddr h in
  let m := head_machine h in
  (forall hdr,
   read_fw_section section = Some hdr ->
   sizeof_fw_section < left <= INT_MAX ->
   (left - sizeof_fw_section < sec_len hdr ->
    rproc_process_fw phys_addr_bits e area left0 bootaddr0 m0 =
      Ret (- EINVAL, bootaddr) m
        (evs0 ++ [EvErr "firmware image is truncated"])) /\
   (sec_len hdr = left - sizeof_fw_section ->
    Z.of_nat (length section) = left ->
    match rproc_da_to_pa phys_addr_bits (memory_maps (this m))
            (sec_da hdr) with
    | None =>
        rproc_process_fw phys_addr_bits e area left0 bootaddr0 m0 =
          Ret (- EINVAL, bootaddr) m (evs0 ++ [EvErr "rproc_da_to_pa failed"])
    | Some pa =>
        let ptr := ioremap_nocache e (ioremaps m) pa (sec_len hdr) in
        if nonzero ptr then
          exists r b m' evs,
            rproc_process_fw phys_addr_bits e area left0 bootaddr0 m0 =
              Ret (r, b) m'
                (evs0 ++ EvIoremap pa (sec_len hdr) ptr
                   :: EvMemcpy ptr (skipn 16 section) :: evs) /\
            (sec_type hdr <> FW_RESOURCE ->
             r = 0 /\ b = bootaddr /\ evs = [EvIounmap ptr])
        else
          rproc_process_fw phys_addr_bits e area left0 bootaddr0 m0 =
            Ret (- ENOMEM, bootaddr)
              {| this := this m; ioremaps := S (ioremaps m) |}
              (evs0 ++ [EvIoremap pa (sec_len hdr) ptr;
                        EvErr "can't ioremap"])
    end)) /\
  (left = sizeof_fw_section ->
   rproc_process_fw phys_addr_bits e area left0 bootaddr0 m0 =
     Ret (0, bootaddr) m evs0).
Proof.
  intros Hturns. cbv zeta.
  destruct (rproc_process_fw_turns _ _ _ _ _ _ _ _ _ Hturns)
    as (fuel & Hfuel & ->).
  split.
  - intros hdr Hhdr Hleft.
    destruct (process_fw_loop_truncation phys_addr_bits e fuel
                (head_section h) hdr (head_left h) (head_bootaddr h)
                (head_machine h) Hhdr Hleft) as [Htrunc Hexact].
    split.
    + intros Hlen. rewrite (Htrunc Hlen). reflexivity.
    + intros Hlen Hsec.
      assert (H1 : (1 <= fuel)%nat)
        by (unfold sizeof_fw_section in *; lia).
      specialize (Hexact Hlen Hsec H1).
      destruct (rproc_da_to_pa _ _ _) as [pa|];
        [|rewrite Hexact; reflexivity].
      cbv zeta in *.
      destruct (nonzero (ioremap_nocache _ _ _ _));
        [|rewrite Hexact; reflexivity].
      destruct Hexact as (r & b & m' & evs & -> & Hrest).
      exists r, b, m', evs. split; [reflexivity | exact Hrest].
  - intros Hleft. rewrite Hleft.
    change (process_fw_loop phys_addr_bits e (S fuel) (head_section h)
              sizeof_fw_section (head_bootaddr h) (head_machine h))
      with (@Ret machine (Z * Z) (0, head_bootaddr h) (head_machine h) []).
    cbn [prepend]. rewrite app_nil_r. reflexivity.
Qed.

Lemma process_fw_truncation_check_witness :
  rproc_process_fw 32 quiet_env truncated_second_section 40 0
    loading_machine =
    Ret (- EINVAL, 0) {| this := loading_rproc; ioremaps := 1 |}
      ([EvIoremap 4096 4 4096; EvMemcpy 4096 [xde; xad; xbe; xef];
        EvIounmap 4096] ++ [EvErr "firmware image is truncated"]) /\
  (exists r b m' evs,
     rproc_process_fw 32 quiet_env exact_second_section 40 0
       loading_machine =
       Ret (r, b) m'
         ([EvIoremap 4096 4 4096; EvMemcpy 4096 [xde; xad; xbe; xef];
           EvIounmap 4096] ++
          EvIoremap 8192 4 4097 :: EvMemcpy 4097 [x01; x02; x03; x04] :: evs) /\
     r = 0 /\ b = 0 /\ evs = [EvIounmap 4097]) /\
  rproc_process_fw 32 quiet_env bare_header_tail 36 0 loading_machine =
    Ret (0, 0) {| this := loading_rproc; ioremaps := 1 |}
      [EvIoremap 4096 4 4096; EvMemcpy 4096 [xde; xad; xbe; xef];
       EvIounmap 4096].
Proof.
  assert (Hleft : sizeof_fw_section < 20 <= INT_MAX)
    by (unfold sizeof_fw_section, INT_MAX; lia).
  split; [|split].
  - pose proof (process_fw_truncation_check 32 quiet_env
                  truncated_second_section 40 0 loading_machine 1 _ _
                  eq_refl) as W.
    cbv zeta in W. destruct W as [W _].
    destruct (W {| sec_type := 2; sec_da := 8192; sec_len := 5 |}
                eq_refl Hleft) as [Wt _].
    apply Wt. unfold sizeof_fw_section. simpl. lia.
  - pose proof (process_fw_truncation_check 32 quiet_env
                  exact_second_section 40 0 loading_machine 1 _ _
                  eq_refl) as W.
    cbv zeta in W. destruct W as [W _].
    destruct (W {| sec_type := 2; sec_da := 8192; sec_len := 4 |}
                eq_refl Hleft) as [_ We].
    destruct (We eq_refl eq_refl) as (r & b & m' & evs & Hrun & Hdata).
    destruct Hdata as (Hr & Hb & Hevs); [discriminate|].
    exists r, b, m', evs. split; [exact Hrun|]. auto.
  - pose proof (process_fw_truncation_check 32 quiet_env
                  bare_header_tail 36 0 loading_machine 1 _ _
                  eq_refl) as W.
    cbv zeta in W. destruct W as [_ W]. apply W. reflexivity.
Defined.

(** A bare section header that announces one byte of payload: nothing is
    left after the header, and the loader reports success. *)
Lemma process_fw_truncation_counterexample :
  read_fw_section (fw_section_header FW_DATA 4096 1) =
    Some {| sec_type := FW_DATA; sec_da := 4096; sec_len := 1 |} /\
  Z.of_nat (length (fw_section_header FW_DATA 4096 1)) - sizeof_fw_section < 1 /\
  rproc_process_fw 32 quiet_env (fw_section_header FW_DATA 4096 1)
    (Z.of_nat (length (fw_section_header FW_DATA 4096 1))) 0 loading_machine =
    Ret (0, 0) loading_machine [] /\
  rproc_load_fw 32 quiet_env
    (Some (fw_image rprc (fw_section_header FW_DATA 4096 1))) loading_machine =
    Ret tt
      {| this := with_completion true (with_state RPROC_RUNNING loading_rproc);
         ioremaps := 0 |}
      [EvInfo "Loaded fw image"; EvInfo "BIOS image version";
       EvMutexLock 0; EvStart 0 0; EvInfo "remote processor is now up";
       EvMutexUnlock; EvReleaseFirmware; EvCompleteAll].
Proof. repeat split; vm_compute; reflexivity. Qed.

(** ** Boot address entries *)

Lemma handle_resource_bootaddr (phys_addr_bits : Z) (e : env)
    (rsc : fw_resource) (bootaddr : Z) (m : machine) :
  rsc_type rsc = RSC_BOOTADDR ->
  handle_resource phys_addr_bits e rsc bootaddr m =
  Ret (0, rsc_da rsc) m
    (if nonzero bootaddr then [EvWarn "bootaddr already set"] else []).
Proof.
  intros Hty. unfold handle_resource. rewrite Hty. cbn.
  destruct (nonzero bootaddr); reflexivity.
Qed.

Lemma handle_resource_ok (phys_addr_bits : Z) (e : env) (rsc : fw_resource)
    (bootaddr b' : Z) (m m' : machine) (evs : list event) :
  handle_resource phys_addr_bits e rsc bootaddr m = Ret (0, b') m' evs ->
  b' = if rsc_type rsc =? RSC_BOOTADDR then rsc_da rsc else bootaddr.
Proof.
  unfold handle_resource.
  destruct (Z.eqb_spec (rsc_type rsc) RSC_TRACE) as [Ht|Ht].
  - rewrite Ht. cbn [Z.eqb RSC_TRACE RSC_BOOTADDR Pos.eqb].
    unfold bind. destruct (rproc_handle_trace_rsc _ _ _ _) as [r s1 e1|];
      [|discriminate].
    unfold when. destruct (nonzero r); cbn; intros H; inversion H; reflexivity.
  - destruct (rsc_type rsc =? RSC_BOOTADDR).
    + unfold when. destruct (nonzero bootaddr); cbn; intros H;
        inversion H; reflexivity.
    + cbn. intros H. inversion H. reflexivity.
Qed.

Lemma handle_resources_loop_last (phys_addr_bits : Z) (e : env)
    (rsc : list fw_resource) :
  forall len bootaddr b' m m' evs,
  0 <= len <= INT_MAX ->
  len / sizeof_fw_resource = Z.of_nat (length rsc) ->
  handle_resources_loop phys_addr_bits e rsc len bootaddr m =
    Ret (0, b') m' evs ->
  b' = last_bootaddr rsc bootaddr.
Proof.
  unfold sizeof_fw_resource.
  induction rsc as [|entry rest IH];
    intros len bootaddr b' m m' evs Hlen Hfit H;
    cbn [handle_resources_loop] in H;
    unfold size_t_ge, sizeof_fw_resource in H;
    replace (len <? 0) with false in H by (symmetry; apply Z.ltb_ge; lia);
    cbn [orb] in H.
  - simpl in Hfit. apply Z.div_small_iff in Hfit; [|lia].
    replace (76 <=? len) with false in H by (symmetry; apply Z.leb_gt; lia).
    cbn in H. inversion H. reflexivity.
  - rewrite length_cons, Nat2Z.inj_succ in Hfit.
    assert (76 <= len).
    { destruct (Z_lt_ge_dec len 76) as [Hlt|Hge]; [|lia].
      rewrite Z.div_small in Hfit by lia. lia. }
    replace (76 <=? len) with true in H by (symmetry; apply Z.leb_le; lia).
    apply bind_inv in H.
    destruct H as ([r1 b1] & s1 & e1 & e2 & H1 & H2 & ->).
    destruct (nonzero r1) eqn:Hnz.
    + cbn in H2. inversion H2; subst. discriminate Hnz.
    + apply nonzero_false in Hnz. subst r1.
      apply handle_resource_ok in H1. subst b1.
      rewrite wrap_int_small in H2 by (unfold INT_MAX in *; lia).
      apply IH in H2; [exact H2 | lia |].
      replace (len - 76) with (len + (-1) * 76) by lia.
      rewrite Z.div_add by lia. lia.
Qed.

Lemma rproc_load_fw_boots_at (phys_addr_bits : Z) (e : env)
    (data : list byte) (m m1 : machine) (bootaddr : Z) (e1 : list event) :
  (Z.of_nat (length data) <? sizeof_fw_header) = false ->
  magic_ok data = true ->
  rproc_process_fw phys_addr_bits e
    (skipn (12 + Z.to_nat (le_val (firstn 4 (skipn 8 data)))) data)
    (wrap_int (Z.of_nat (length data) - sizeof_fw_header
               - le_val (firstn 4 (skipn 8 data))))
    0 m = Ret (0, bootaddr) m1 e1 ->
  mutex_lock_interruptible e = 0 ->
  exists m' tail,
    rproc_load_fw phys_addr_bits e (Some data) m =
      Ret tt m'
        (EvInfo "Loaded fw image" :: EvInfo "BIOS image version" :: e1 ++
         EvMutexLock 0 :: EvStart bootaddr (ops_start e bootaddr) :: tail).
Proof.
  intros Hsize Hmagic Hproc Hlock.
  unfold rproc_load_fw. rewrite Hsize, Hmagic. cbn [negb].
  rewrite bind_emit, !bind_bind, bind_emit. cbn beta iota zeta.
  rewrite bind_bind. unfold bind at 1. rewrite Hproc.
  change (nonzero 0) with false. cbn beta iota zeta.
  unfold rproc_start, complete_all. rewrite Hlock.
  change (nonzero 0) with false. cbn beta iota zeta.
  destruct (nonzero (ops_start e bootaddr)); repeat step; cbn;
    eexists _, _; reflexivity.
Qed.

(** ** A refused trace entry ends the load *)



(** The events of [rproc_handle_trace_rsc] itself. *)
Lemma rproc_handle_trace_rsc_events (phys_addr_bits : Z) (e : env)
    (rsc : fw_resource) (m m' : machine) (r : Z) (evs : list event) :
  rproc_handle_trace_rsc phys_addr_bits e rsc m = Ret r m' evs ->
  existsb is_trace_refused evs = false /\ existsb is_start evs = false.
Proof.
  intros H. unfold rproc_handle_trace_rsc in H. run_in H; split; reflexivity.
Qed.

Lemma handle_resource_refused (phys_addr_bits : Z) (e : env)
    (rsc : fw_resource) (bootaddr b' r : Z) (m m' : machine)
    (evs : list event) :
  handle_resource phys_addr_bits e rsc bootaddr m = Ret (r, b') m' evs ->
  (existsb is_trace_refused evs = true -> r <> 0) /\
  existsb is_start evs = false.
Proof.
  unfold handle_resource. intros H.
  destruct (rsc_type rsc =? RSC_TRACE).
  - apply bind_inv in H. destruct H as (r0 & s1 & e1 & e2 & H1 & H2 & ->).
    apply rproc_handle_trace_rsc_events in H1. destruct H1 as [Hr Hs].
    rewrite !existsb_app, Hr, Hs. cbn [orb].
    unfold when in H2. destruct (nonzero r0) eqn:Hnz; run_in H2.
    + split; [|reflexivity]. intros _. apply nonzero_true. exact Hnz.
    + split; [discriminate | reflexivity].
  - destruct (rsc_type rsc =? RSC_BOOTADDR); unfold when in H; run_in H;
      split; try reflexivity; discriminate.
Qed.

Lemma handle_resources_loop_refused (phys_addr_bits : Z) (e : env)
    (rsc : list fw_resource) :
  forall len bootaddr b' r m m' evs,
  handle_resources_loop phys_addr_bits e rsc len bootaddr m =
    Ret (r, b') m' evs ->
  (existsb is_trace_refused evs = true -> r <> 0) /\
  existsb is_start evs = false.
Proof.
  induction rsc as [|entry rest IH]; intros len bootaddr b' r m m' evs H;
    cbn [handle_resources_loop] in H.
  - destruct (size_t_ge _ _); run_in H. split; [discriminate|reflexivity].
  - destruct (size_t_ge _ _).
    2: { run_in H. split; [discriminate|reflexivity]. }
    apply bind_inv in H.
    destruct H as ([r1 b1] & s1 & e1 & e2 & H1 & H2 & ->).
    apply handle_resource_refused in H1. destruct H1 as [Hr1 Hs1].
    rewrite !existsb_app, Hs1. cbn [orb].
    destruct (nonzero r1) eqn:Hnz.
    + run_in H2. rewrite !orb_false_r. split; [|reflexivity].
      intros _. apply nonzero_true. exact Hnz.
    + apply IH in H2. destruct H2 as [Hr2 Hs2]. split; [|exact Hs2].
      intros Hex. apply orb_true_iff in Hex. destruct Hex as [Hex|Hex].
      * apply Hr1 in Hex. apply nonzero_false in Hnz. contradiction.
      * apply Hr2. exact Hex.
Qed.

Lemma rproc_handle_resources_refused (phys_addr_bits : Z) (e : env)
    (rsc : list fw_resource) (len bootaddr b' r : Z) (m m' : machine)
    (evs : list event) :
  rproc_handle_resources phys_addr_bits e rsc len bootaddr m =
    Ret (r, b') m' evs ->
  (existsb is_trace_refused evs = true -> r <> 0) /\
  existsb is_start evs = false.
Proof.
  unfold rproc_handle_resources. intros H. apply bind_inv in H.
  destruct H as ([r1 b1] & s1 & e1 & e2 & H1 & H2 & ->).
  apply handle_resources_loop_refused in H1. destruct H1 as [Hr1 Hs1].
  rewrite !existsb_app, Hs1. cbn [orb]. unfold when in H2.
  destruct (nonzero r1 && nonzero (trace_buf0 (this s1)));
    destruct (nonzero r1 && nonzero (trace_buf1 (this s1)));
    run_in H2; rewrite !orb_false_r; auto.
Qed.

Lemma process_fw_loop_refused (phys_addr_bits : Z) (e : env) (fuel : nat) :
  forall section left bootaddr b' r m m' evs,
  process_fw_loop phys_addr_bits e fuel section left bootaddr m =
    Ret (r, b') m' evs ->
  (existsb is_trace_refused evs = true -> r <> 0) /\
  existsb is_start evs = false.
Proof.
  induction fuel as [|fuel IH];
    intros section left bootaddr b' r m m' evs H; [discriminate|].
  cbn [process_fw_loop] in H.
  destruct (size_t_gt _ _); [|run_in H; split; [discriminate|reflexivity]].
  destruct (read_fw_section section) as [hdr|]; [|discriminate].
  destruct (to_u32 _ <? _);
    [run_in H; split; [intros _; discriminate|reflexivity]|].
  rewrite bind_get_rproc in H.
  destruct (rproc_da_to_pa _ _ _) as [pa|];
    [|run_in H; split; [intros _; discriminate|reflexivity]].
  rewrite bind_do_ioremap in H. cbn beta iota zeta in H.
  destruct (negb (nonzero _)).
  { run_in H. split; [intros _; discriminate|reflexivity]. }
  destruct (bytes_at _ _ _) as [content|]; [|discriminate].
  rewrite bind_emit in H.
  destruct (bind _ _ _) as [[r0 b0] s0 e0|] eqn:Hrest; [|discriminate].
  cbn in H. inversion H; subst; clear H.
  apply bind_inv in Hrest.
  destruct Hrest as ([r1 b1] & s1 & e1 & e2 & H1 & H2 & ->).
  assert (Hres : (existsb is_trace_refused e1 = true -> r1 <> 0) /\
                 existsb is_start e1 = false).
  { destruct (sec_type hdr =? FW_RESOURCE).
    - eapply rproc_handle_resources_refused. exact H1.
    - run_in H1. split; [discriminate|reflexivity]. }
  destruct Hres as [Hr1 Hs1].
  rewrite bind_emit in H2.
  cbn [existsb is_trace_refused is_start orb].
  rewrite !existsb_app, Hs1. cbn [orb].
  destruct (nonzero r1) eqn:Hnz.
  - run_in H2. cbn. rewrite !orb_false_r. split; [|reflexivity].
    intros _. apply nonzero_true. exact Hnz.
  - destruct (process_fw_loop _ _ _ _ _ _ _) as [[r2 b2] s2 e3|] eqn:H3;
      [|discriminate].
    cbn in H2. inversion H2; subst; clear H2.
    apply IH in H3. destruct H3 as [Hr3 Hs3].
    cbn [existsb is_trace_refused is_start orb]. split; [|exact Hs3].
    intros Hex. apply orb_true_iff in Hex. destruct Hex as [Hex|Hex].
    + apply Hr1 in Hex. apply nonzero_false in Hnz. contradiction.
    + apply Hr3. exact Hex.
Qed.






(** ** The boot address passed to the backend *)

Lemma rproc_handle_resources_last (phys_addr_bits : Z) (e : env)
    (rsc : list fw_resource) (len bootaddr b' : Z) (m m' : machine)
    (evs : list event) :
  0 <= len <= INT_MAX ->
  len / sizeof_fw_resource = Z.of_nat (length rsc) ->
  rproc_handle_resources phys_addr_bits e rsc len bootaddr m =
    Ret (0, b') m' evs ->
  b' = last_bootaddr rsc bootaddr.
Proof.
  intros Hlen Hfit H.
  unfold rproc_handle_resources in H. apply bind_inv in H.
  destruct H as ([r1 b1] & s1 & e1 & e2 & H1 & H2 & ->).
  unfold when in H2.
  destruct (nonzero r1 && nonzero (trace_buf0 (this s1)));
    destruct (nonzero r1 && nonzero (trace_buf1 (this s1)));
    run_in H2;
    eapply handle_resources_loop_last; eassumption.
Qed.

Lemma bytes_at_length (off n : nat) (bs content : list byte) :
  bytes_at off n bs = Some content -> length content = n.
Proof.
  unfold bytes_at. destruct (Nat.leb_spec (off + n) (length bs)) as [Hle|];
    [|discriminate].
  intros H. injection H as <-. rewrite length_firstn, length_skipn. lia.
Qed.

Lemma last_bootaddr_app (l1 l2 : list fw_resource) (bootaddr : Z) :
  last_bootaddr (l1 ++ l2) bootaddr =
  last_bootaddr l2 (last_bootaddr l1 bootaddr).
Proof. unfold last_bootaddr. apply fold_left_app. Qed.

(** The boot address the section loop hands back after an area it handled
    without error is that of the last BOOTADDR entry of the area. *)
Lemma process_fw_loop_bootaddr (phys_addr_bits : Z) (e : env) (fuel : nat) :
  forall section left bootaddr b' m m' evs,
  left = Z.of_nat (length section) ->
  left <= INT_MAX ->
  process_fw_loop phys_addr_bits e fuel section left bootaddr m =
    Ret (0, b') m' evs ->
  b' = last_bootaddr (area_resources fuel section) bootaddr.
Proof.
  induction fuel as [|fuel IH];
    intros section left bootaddr b' m m' evs Hleft Hmax H; [discriminate|].
  cbn [process_fw_loop area_resources] in *.
  unfold size_t_gt, sizeof_fw_section in H.
  replace (left <? 0) with false in H by (symmetry; apply Z.ltb_ge; lia).
  cbn [orb] in H.
  destruct (Nat.ltb_spec 16 (length section)) as [Hlong|Hshort].
  2: { replace (16 <? left) with false in H
         by (symmetry; apply Z.ltb_ge; lia).
       run_in H. reflexivity. }
  replace (16 <? left) with true in H by (symmetry; apply Z.ltb_lt; lia).
  destruct (read_fw_section section) as [hdr|] eqn:Hhdr; [|discriminate].
  cbn beta iota zeta in H.
  assert (Hlen0 : 0 <= sec_len hdr).
  { unfold read_fw_section in Hhdr.
    destruct (bytes_at 0 16 section); [|discriminate].
    inversion Hhdr. cbn. apply le_val_nonneg. }
  rewrite (wrap_int_small (left - 16)) in H by (unfold INT_MAX in *; lia).
  rewrite (to_u32_small (left - 16)) in H by (unfold INT_MAX in *; lia).
  destruct (Z.ltb_spec (left - 16) (sec_len hdr)) as [Htrunc|Hfits];
    [run_in H|].
  rewrite bind_get_rproc in H.
  destruct (rproc_da_to_pa _ _ _) as [pa|]; [|run_in H].
  rewrite bind_do_ioremap in H. cbn beta iota zeta in H.
  destruct (negb (nonzero _)); [run_in H|].
  destruct (bytes_at 16 (Z.to_nat (sec_len hdr)) section) as [content|]
    eqn:Hcontent; [|discriminate].
  rewrite bind_emit in H.
  destruct (bind _ _ _) as [[r0 b0] s0 e0|] eqn:Hrest; [|discriminate].
  cbn in H. inversion H; subst; clear H.
  apply bind_inv in Hrest.
  destruct Hrest as ([r1 b1] & s1 & e1 & e2 & H1 & H2 & ->).
  rewrite bind_emit in H2.
  destruct (nonzero r1) eqn:Hr1.
  { run_in H2. discriminate Hr1. }
  apply nonzero_false in Hr1. subst r1.
  destruct (process_fw_loop _ _ _ _ _ _ _) as [[r2 b2] s2 e3|] eqn:H3;
    [|discriminate].
  cbn in H2. inversion H2; subst; clear H2.
  pose proof (length_bytes_at _ _ _ _ Hcontent) as Hin.
  rewrite (wrap_int_small (Z.of_nat (length section) - 16 - sec_len hdr))
    in H3 by (unfold INT_MAX in *; lia).
  apply IH in H3.
  2: { rewrite length_skipn. lia. }
  2: { lia. }
  rewrite last_bootaddr_app, H3. f_equal.
  destruct (sec_type hdr =? FW_RESOURCE).
  - eapply rproc_handle_resources_last; [| |exact H1].
    + rewrite wrap_int_small by (unfold INT_MAX in *; lia).
      unfold INT_MAX in *. lia.
    + rewrite wrap_int_small by (unfold INT_MAX in *; lia).
      unfold as_fw_resources, sizeof_fw_resource.
      rewrite length_fw_resource_array.
      rewrite (bytes_at_length _ _ _ _ Hcontent), Nat2Z.inj_div, Z2Nat.id by lia. reflexivity.
  - run_in H1. reflexivity.
Qed.

Lemma filter_none {A : Type} (f : A -> bool) (l : list A) :
  existsb f l = false -> filter f l = [].
Proof.
  induction l as [|x l IH]; simpl; [reflexivity|].
  destruct (f x); [discriminate | exact IH].
Qed.

(** The backend's start at the end of a load of an image that passes the
    header checks. *)
Lemma rproc_load_fw_starts_at (phys_addr_bits : Z) (e : env)
    (data : list byte) (m : machine) :
  magic_ok data = true ->
  sizeof_fw_header + le_val (firstn 4 (skipn 8 data))
    <= Z.of_nat (length data) <= INT_MAX ->
  match rproc_load_fw phys_addr_bits e (Some data) m with
  | Ret _ m' evs =>
      start_events evs =
        [EvStart (image_bootaddr data) (ops_start e (image_bootaddr data))] \/
      (start_events evs = [] /\
       (In (EvErr "Failed to process the image") evs \/
        mutex_lock_interruptible e <> 0))
  | Stuck w => w = OutOfBounds
  end.
Proof.
  intros Hmagic Hsize.
  pose proof (le_val_nonneg (firstn 4 (skipn 8 data))) as Hhl.
  destruct (rproc_load_fw phys_addr_bits e (Some data) m)
    as [[] m' evs|w] eqn:E.
  2: exact (stuck_rproc_load_fw phys_addr_bits e (Some data) m w E).
  unfold rproc_load_fw in E.
  replace (Z.of_nat (length data) <? sizeof_fw_header) with false in E
    by (symmetry; apply Z.ltb_ge; unfold sizeof_fw_header in *; lia).
  rewrite Hmagic in E. cbn [negb] in E.
  rewrite bind_emit, !bind_bind, bind_emit in E. cbn beta iota zeta in E.
  rewrite bind_bind in E.
  set (section := skipn (12 + Z.to_nat (le_val (firstn 4 (skipn 8 data))))
                    data) in *.
  assert (Hlen : Z.of_nat (length data) - sizeof_fw_header
                 - le_val (firstn 4 (skipn 8 data)) =
                 Z.of_nat (length section)).
  { unfold section. rewrite length_skipn. unfold sizeof_fw_header in *. lia. }
  rewrite Hlen in E.
  rewrite wrap_int_small in E
    by (unfold INT_MAX, sizeof_fw_header in *; lia).
  unfold bind at 1 in E.
  destruct (rproc_process_fw phys_addr_bits e section
              (Z.of_nat (length section)) 0 m) as [[r b] m1 e1|] eqn:Hproc;
    [|discriminate E].
  pose proof (process_fw_loop_refused _ _ _ _ _ _ _ _ _ _ _ Hproc)
    as [_ Hnostart].
  apply filter_none in Hnostart.
  destruct (nonzero r) eqn:Hr.
  - unfold complete_all in E. run_in E. right.
    unfold start_events. cbn [filter is_start].
    rewrite filter_app, Hnostart. cbn. split; [reflexivity|].
    left. right. right. apply in_or_app. right. left. reflexivity.
  - apply nonzero_false in Hr. subst r.
    assert (Hb : b = image_bootaddr data).
    { unfold image_bootaddr, image_resources, image_sections.
      fold section.
      eapply (process_fw_loop_bootaddr phys_addr_bits e
                (S (length section)) section (Z.of_nat (length section)));
        [reflexivity | unfold INT_MAX, sizeof_fw_header in *; lia
        | exact Hproc]. }
    rewrite <- Hb.
    unfold rproc_start, complete_all in E.
    destruct (nonzero (mutex_lock_interruptible e)) eqn:Hlock.
    + run_in E. right. apply nonzero_true in Hlock.
      unfold start_events. cbn [filter is_start].
      rewrite filter_app, Hnostart. cbn. auto.
    + destruct (nonzero (ops_start e b)) eqn:Hstart; run_in E; left;
        unfold start_events; cbn [filter is_start];
        rewrite filter_app, Hnostart; reflexivity.
Qed.

(** C2, as the code has it. Every BOOTADDR entry overwrites the recorded boot
    address with its own device address; it emits the warning first when the
    recorded address is non-zero. So after a resource table that was handled
    without error the recorded address is that of the last BOOTADDR entry (or
    the earlier value when there is none).  The section loop carries that
    address from section to section, and [rproc_load_fw] passes it to the
    backend's start: for every image that passes the header checks, the
    backend is started once, at the device address of the last BOOTADDR
    entry of the image, unless processing the image failed or the mutex
    could not be taken, and then it is not started at all. *)
Theorem bootaddr_last_entry_wins (phys_addr_bits : Z) (e : env) :
  (forall rsc bootaddr m,
     rsc_type rsc = RSC_BOOTADDR ->
     handle_resource phys_addr_bits e rsc bootaddr m =
       Ret (0, rsc_da rsc) m
         (if nonzero bootaddr then [EvWarn "bootaddr already set"] else [])) /\
  (forall rsc len bootaddr b' m m' evs,
     0 <= len <= INT_MAX ->
     len / sizeof_fw_resource = Z.of_nat (length rsc) ->
     rproc_handle_resources phys_addr_bits e rsc len bootaddr m =
       Ret (0, b') m' evs ->
     b' = last_bootaddr rsc bootaddr) /\
  (forall data m,
     magic_ok data = true ->
     sizeof_fw_header + le_val (firstn 4 (skipn 8 data))
       <= Z.of_nat (length data) <= INT_MAX ->
     match rproc_load_fw phys_addr_bits e (Some data) m with
     | Ret _ m' evs =>
         start_events evs =
           [EvStart (image_bootaddr data)
              (ops_start e (image_bootaddr data))] \/
         (start_events evs = [] /\
          (In (EvErr "Failed to process the image") evs \/
           mutex_lock_interruptible e <> 0))
     | Stuck w => w = OutOfBounds
     end).
Proof.
  split; [|split].
  - intros. apply handle_resource_bootaddr. assumption.
  - intros. eapply rproc_handle_resources_last; eassumption.
  - intros. apply rproc_load_fw_starts_at; assumption.
Qed.

Lemma bootaddr_last_entry_wins_witness :
  handle_resource 32 quiet_env (bootaddr_entry 8192) 4096 loading_machine =
    Ret (0, 8192) loading_machine [EvWarn "bootaddr already set"] /\
  image_resources two_bootaddr_image =
    [bootaddr_entry 4096; bootaddr_entry 8192] /\
  match rproc_load_fw 32 quiet_env (Some two_bootaddr_image)
          loading_machine with
  | Ret _ _ evs => start_events evs = [EvStart 8192 0]
  | Stuck _ => False
  end.
Proof.
  split; [|split].
  - apply (proj1 (bootaddr_last_entry_wins 32 quiet_env)
             (bootaddr_entry 8192) 4096 loading_machine).
    reflexivity.
  - vm_compute. reflexivity.
  - assert (Hsize : sizeof_fw_header
                    + le_val (firstn 4 (skipn 8 two_bootaddr_image))
                    <= Z.of_nat (length two_bootaddr_image) <= INT_MAX)
      by (vm_compute; split; discriminate).
    generalize (proj2 (proj2 (bootaddr_last_entry_wins 32 quiet_env))
                  two_bootaddr_image loading_machine eq_refl Hsize).
    destruct (rproc_load_fw 32 quiet_env (Some two_bootaddr_image)
                loading_machine) as [[] m' evs|w] eqn:E.
    + assert (Hb : image_bootaddr two_bootaddr_image = 8192)
        by (vm_compute; reflexivity).
      rewrite Hb.
      assert (Hev : ~ In (EvErr "Failed to process the image") evs)
        by (vm_compute in E; inversion E; subst; simpl;
            intuition discriminate).
      intros [H|[_ [H|H]]]; [exact H | contradiction |].
      contradiction H. reflexivity.
    + vm_compute in E. discriminate E.
Defined.

(** Two BOOTADDR entries, 0x1000 then 0x2000: the second one is recorded,
    and the backend is started at 0x2000. *)
Lemma bootaddr_first_entry_counterexample :
  as_fw_resources
    (fw_resource_bytes RSC_BOOTADDR 4096 0 ++
     fw_resource_bytes RSC_BOOTADDR 8192 0) =
    [bootaddr_entry 4096; bootaddr_entry 8192] /\
  rproc_handle_resources 32 quiet_env
    [bootaddr_entry 4096; bootaddr_entry 8192] 152 0 loading_machine =
    Ret (0, 8192) loading_machine [EvWarn "bootaddr already set"] /\
  match rproc_load_fw 32 quiet_env (Some two_bootaddr_image) loading_machine with
  | Ret _ _ evs => start_events evs = [EvStart 8192 0]
  | Stuck _ => False
  end.
Proof. repeat split; vm_compute; reflexivity. Qed.

(** ** Releasing a processor *)

(** The whole of [rproc_put] on a record in use, once the load is complete
    and the mutex is taken. *)
Lemma rproc_put_cases (e : env) (r : rproc) :
  0 < count r <= INT_MAX ->
  firmware_loading_complete r = true ->
  mutex_lock_interruptible e = 0 ->
  rproc_put e r =
  if nonzero (count r - 1) then
    Ret tt (with_count (count r - 1) r)
      [EvMutexLock 0; EvMutexUnlock; EvModulePut]
  else if rproc_state_eqb (state r) RPROC_RUNNING && nonzero (ops_stop e) then
    Ret tt (with_trace_bufs_null (with_count 0 r))
      (EvMutexLock 0 :: unmaps r ++
       [EvStop (ops_stop e); EvErr "can't stop rproc"; EvMutexUnlock])
  else
    Ret tt (with_state RPROC_OFFLINE (with_trace_bufs_null (with_count 0 r)))
      (EvMutexLock 0 :: unmaps r ++
       (if rproc_state_eqb (state r) RPROC_RUNNING
        then [EvStop (ops_stop e)] else []) ++
       [EvInfo "stopped remote processor"; EvMutexUnlock; EvModulePut]).
Proof.
  intros Hc Hdone Hlock.
  assert (Hw : wrap_int (count r - 1) = count r - 1)
    by (apply wrap_int_small; unfold INT_MAX in *; lia).
  assert (Hnz : nonzero (count r) = true) by (apply nonzero_true; lia).
  unfold rproc_put, put_out, unmaps, bind, get, modify, emit, when, ret.
  cbn beta iota zeta.
  rewrite Hnz, Hdone, Hlock, Hw. cbn.
  destruct (nonzero (count r - 1)) eqn:Hlast; cbn; [reflexivity|].
  apply nonzero_false in Hlast. rewrite Hlast.
  destruct (nonzero (trace_buf0 r)), (nonzero (trace_buf1 r));
    destruct (rproc_state_eqb (state r) RPROC_RUNNING); cbn;
    try destruct (nonzero (ops_stop e)) eqn:Hstop; cbn; try reflexivity.
Qed.

(** C3, as the code has it. [rproc_put] releases the module reference once on
    every release that takes the mutex, whether or not it is the last one, as
    [rproc_get] pins the module on every acquisition; the one exception is the
    last release of a running processor whose backend stop fails, which
    releases nothing. *)
Theorem rproc_put_module_put (e : env) (r : rproc) :
  0 < count r <= INT_MAX ->
  firmware_loading_complete r = true ->
  mutex_lock_interruptible e = 0 ->
  exists r' evs,
    rproc_put e r = Ret tt r' evs /\
    count r' = count r - 1 /\
    module_puts evs =
      if (count r =? 1) && rproc_state_eqb (state r) RPROC_RUNNING
         && nonzero (ops_stop e)
      then 0%nat else 1%nat.
Proof.
  intros Hc Hdone Hlock. rewrite (rproc_put_cases e r Hc Hdone Hlock).
  destruct (nonzero (count r - 1)) eqn:Hlast.
  - apply nonzero_true in Hlast.
    destruct (Z.eqb_spec (count r) 1) as [H1|H1]; [lia|].
    eexists _, _. repeat split.
  - apply nonzero_false in Hlast.
    destruct (Z.eqb_spec (count r) 1) as [H1|H1]; [|lia].
    unfold unmaps, module_puts.
    destruct (rproc_state_eqb (state r) RPROC_RUNNING);
      destruct (nonzero (ops_stop e)); cbn [andb];
      eexists _, _; (split; [reflexivity|]); (split; [cbn; lia|]);
      destruct (nonzero (trace_buf0 r)), (nonzero (trace_buf1 r));
      reflexivity.
Qed.

Lemma rproc_put_module_put_witness :
  exists r' evs,
    rproc_put quiet_env (with_count 2 running_rproc) = Ret tt r' evs /\
    count r' = 1 /\ module_puts evs = 1%nat.
Proof.
  apply (rproc_put_module_put quiet_env (with_count 2 running_rproc)).
  - unfold INT_MAX. simpl. lia.
  - reflexivity.
  - reflexivity.
Defined.

(** A release that leaves one user behind releases the module reference;
    the last release with a failing stop does not. *)
Lemma rproc_put_shared_counterexample :
  rproc_put quiet_env (with_count 2 running_rproc) =
    Ret tt (with_count 1 running_rproc)
      [EvMutexLock 0; EvMutexUnlock; EvModulePut] /\
  rproc_put stuck_stop_env running_rproc =
    Ret tt (with_trace_bufs_null (with_count 0 running_rproc))
      [EvMutexLock 0; EvStop (- EBUSY); EvErr "can't stop rproc";
       EvMutexUnlock].
Proof. split; reflexivity. Qed.

(** C4, as the code has it. On the last release, if the state is RUNNING and
    the backend stop fails, the error is reported and [rproc_put] leaves
    through its exit label: the state stays RUNNING, with the count at 0, the
    trace slots cleared and the module reference kept. *)
Theorem rproc_put_stop_failure (e : env) (r : rproc) :
  count r = 1 ->
  state r = RPROC_RUNNING ->
  firmware_loading_complete r = true ->
  mutex_lock_interruptible e = 0 ->
  ops_stop e <> 0 ->
  exists r' evs,
    rproc_put e r = Ret tt r' evs /\
    In (EvErr "can't stop rproc") evs /\
    state r' = RPROC_RUNNING /\
    count r' = 0 /\
    trace_buf0 r' = 0 /\ trace_buf1 r' = 0 /\
    module_puts evs = 0%nat.
Proof.
  intros Hc Hst Hdone Hlock Hstop.
  assert (Hrange : 0 < count r <= INT_MAX) by (unfold INT_MAX; simpl; lia).
  rewrite (rproc_put_cases e r Hrange Hdone Hlock).
  apply nonzero_true in Hstop. rewrite Hc, Hst, Hstop. cbn.
  eexists _, _. split; [reflexivity|]. unfold unmaps, module_puts.
  repeat split; try assumption.
  - right. apply in_or_app. right. simpl. auto.
  - destruct (nonzero (trace_buf0 r)), (nonzero (trace_buf1 r)); reflexivity.
Qed.

Lemma rproc_put_stop_failure_witness :
  exists r' evs,
    rproc_put stuck_stop_env running_rproc = Ret tt r' evs /\
    In (EvErr "can't stop rproc") evs /\
    state r' = RPROC_RUNNING /\
    count r' = 0 /\
    trace_buf0 r' = 0 /\ trace_buf1 r' = 0 /\
    module_puts evs = 0%nat.
Proof.
  apply (rproc_put_stop_failure stuck_stop_env running_rproc);
    try reflexivity.
  simpl. unfold EBUSY. lia.
Defined.

(** One user, RUNNING, and a stop that answers [-EBUSY]. *)
Lemma rproc_put_stop_failure_counterexample :
  count running_rproc = 1 /\ state running_rproc = RPROC_RUNNING /\
  rproc_put stuck_stop_env running_rproc =
    Ret tt (with_trace_bufs_null (with_count 0 running_rproc))
      [EvMutexLock 0; EvStop (- EBUSY); EvErr "can't stop rproc";
       EvMutexUnlock] /\
  state (with_trace_bufs_null (with_count 0 running_rproc)) = RPROC_RUNNING.
Proof. repeat split. Qed.

(** ** The load callback on failure *)

(** C1, as the code has it. [rproc_load_fw] returns unless it reads out of
    bounds, and when it does the completion has just been signalled and the
    count is what it was.  No trace slot is cleared in the record, whether it
    was bound before the load or during it: a slot bound before holds the
    pointer it held, and every binding made during the load has used up a
    slot that is still bound at the end.  If the load failed (the backend's
    start was not called, or failed), the state is what it was too, LOADING
    after [rproc_get].  The count goes back to 0, the state to OFFLINE and
    the trace slots to NULL in the last [rproc_put], not in the callback. *)
Theorem rproc_load_fw_failure (phys_addr_bits : Z) (e : env)
    (fw : option (list byte)) (m : machine) :
  match rproc_load_fw phys_addr_bits e fw m with
  | Ret _ m' evs =>
      firmware_loading_complete (this m') = true /\
      (exists evs0, evs = evs0 ++ [EvCompleteAll]) /\
      count (this m') = count (this m) /\
      (trace_buf0 (this m) <> 0 ->
       trace_buf0 (this m') = trace_buf0 (this m)) /\
      (trace_buf1 (this m) <> 0 ->
       trace_buf1 (this m') = trace_buf1 (this m)) /\
      (bindings evs + free_slots (this m') = free_slots (this m))%nat /\
      (started evs = false ->
       state (this m') = state (this m) /\
       (count (this m') = 1 ->
        state (this m') <> RPROC_RUNNING ->
        mutex_lock_interruptible e = 0 ->
        exists evs',
          rproc_put e (this m') =
            Ret tt
              (with_state RPROC_OFFLINE
                 (with_trace_bufs_null (with_count 0 (this m')))) evs'))
  | Stuck w => w = OutOfBounds
  end.
Proof.
  destruct (rproc_load_fw phys_addr_bits e fw m) as [[] m' evs|w] eqn:E.
  - destruct (ends_completed_load_fw phys_addr_bits e fw m tt m' evs E)
      as [Hdone Hlast].
    destruct (load_keeps_load_fw phys_addr_bits e fw m tt m' evs E)
      as (Hc & Hs & H0 & H1).
    pose proof (binds_free_load_fw phys_addr_bits e fw m tt m' evs E)
      as Hbind.
    repeat split; auto.
    intros Hone Hnot Hlock.
    assert (Hrange : 0 < count (this m') <= INT_MAX)
      by (rewrite Hone; unfold INT_MAX; simpl; lia).
    rewrite (rproc_put_cases e (this m') Hrange Hdone Hlock), Hone.
    change (nonzero (1 - 1)) with false. cbn iota.
    destruct (state (this m')); try contradiction; cbn;
      eexists; reflexivity.
  - exact (stuck_rproc_load_fw phys_addr_bits e fw m w E).
Qed.

(** A load that binds a trace buffer and then fails to start the
    processor: the buffer is still in its slot. *)
Lemma rproc_load_fw_failure_witness :
  match rproc_load_fw 32 failing_start_env (Some one_trace_image)
          loading_machine with
  | Ret _ m' evs =>
      started evs = false /\
      count (this m') = 1 /\ state (this m') = RPROC_LOADING /\
      firmware_loading_complete (this m') = true /\
      bindings evs = 1%nat /\ free_slots (this m') = 1%nat
  | Stuck _ => False
  end.
Proof.
  generalize (rproc_load_fw_failure 32 failing_start_env
                (Some one_trace_image) loading_machine).
  destruct (rproc_load_fw 32 failing_start_env (Some one_trace_image)
              loading_machine) as [[] m' evs|w] eqn:E.
  - assert (Hev : started evs = false /\ bindings evs = 1%nat)
      by (vm_compute in E; inversion E; subst; split; reflexivity).
    destruct Hev as [Hst Hb].
    intros (Hdone & _ & Hc & _ & _ & Hbind & H).
    destruct (H Hst) as (Hs & _).
    rewrite Hb in Hbind. change (free_slots (this loading_machine)) with 2%nat
      in Hbind.
    repeat split; auto; lia.
  - vm_compute in E. discriminate E.
Defined.

(** The first [rproc_get] on a fresh processor leaves it as
    [loading_rproc]. *)
Example rproc_get_first :
  rproc_get quiet_env "p0" [fresh_rproc] =
  Ret (Some 0%nat) [loading_rproc]
    [EvMutexLock 0; EvTryModuleGet true; EvInitCompletion;
     EvInfo "powering up"; EvRequestFirmware 0; EvMutexUnlock].
Proof. reflexivity. Qed.

(** A blob with a bad magic: the completion is signalled with the count
    still 1 and the state still LOADING.  A backend whose start fails after
    a trace buffer was bound: the same, and the buffer stays mapped and
    recorded. *)
Lemma rproc_load_fw_failure_counterexample :
  rproc_load_fw 32 quiet_env (Some bad_magic_image) loading_machine =
    Ret tt {| this := with_completion true loading_rproc; ioremaps := 0 |}
      [EvInfo "Loaded fw image"; EvErr "Image is corrupted (bad magic)";
       EvReleaseFirmware; EvCompleteAll] /\
  count (with_completion true loading_rproc) = 1 /\
  state (with_completion true loading_rproc) = RPROC_LOADING /\
  match rproc_load_fw 32 failing_start_env (Some one_trace_image)
          loading_machine with
  | Ret _ m' evs =>
      start_events evs = [EvStart 0 (- EINVAL)] /\
      count (this m') = 1 /\ state (this m') = RPROC_LOADING /\
      trace_buf0 (this m') = 4097 /\
      existsb (fun ev => match ev with EvIounmap 4097 => true | _ => false end)
        evs = false
  | Stuck _ => False
  end.
Proof. repeat split; vm_compute; reflexivity. Qed.

(** ** The registry *)

Lemma find_from_spec (nm : string) (l : registry) :
  forall i j,
  find_from i nm l = Some j ->
  (i <= j)%nat /\
  exists r, nth_error l (j - i) = Some r /\ name r = nm /\
    forall k r', (k < j - i)%nat -> nth_error l k = Some r' -> name r' <> nm.
Proof.
  induction l as [|x rest IH]; intros i j H; simpl in H; [discriminate|].
  destruct (String.eqb_spec (name x) nm) as [Heq|Hne].
  - inversion H; subst. split; [lia|]. rewrite Nat.sub_diag.
    exists x. repeat split. intros k r' Hk. lia.
  - destruct (IH _ _ H) as [Hle [r [Hnth [Hname Hfirst]]]].
    split; [lia|]. exists r.
    replace (j - i)%nat with (S (j - S i)) by lia. simpl.
    repeat split; auto.
    intros [|k] r' Hk Hk'; simpl in Hk'.
    + inversion Hk'; subst. exact Hne.
    + apply (Hfirst k r'); [lia | exact Hk'].
Qed.

Lemma find_from_In (nm : string) (l : registry) (r : rproc) :
  In r l -> name r = nm -> forall i, exists j, find_from i nm l = Some j.
Proof.
  induction l as [|x rest IH]; intros Hin Hname i; [contradiction|].
  simpl. destruct (String.eqb_spec (name x) nm) as [Heq|Hne].
  - eexists. reflexivity.
  - destruct Hin as [Hx|Hin]; [congruence|]. apply IH; assumption.
Qed.

Lemma length_remove_nth (l : registry) :
  forall i r, nth_error l i = Some r ->
  length (remove_nth i l) = pred (length l).
Proof.
  induction l as [|x rest IH]; intros [|i] r H; simpl in *;
    try discriminate; [reflexivity|].
  rewrite (IH i r H). destruct rest; [destruct i; discriminate | reflexivity].
Qed.

(** C5, as the code has it. [rproc_unregister] has no check of the count: for
    every registered processor, whatever its count, unregistering its name
    returns 0, unlinks the first record of that name from the registry and
    frees it. *)
Theorem rproc_unregister_in_use (nm : string) (l : registry) (r : rproc) :
  In r l -> name r = nm ->
  exists i r0 evs,
    find_from 0 nm l = Some i /\
    nth_error l i = Some r0 /\ name r0 = nm /\
    rproc_unregister nm l = Ret 0 (remove_nth i l) evs /\
    In EvKfree evs /\
    length (remove_nth i l) = pred (length l).
Proof.
  intros Hin Hname.
  destruct (find_from_In nm l r Hin Hname 0%nat) as [i Hfind].
  destruct (find_from_spec nm l 0 i Hfind) as [_ [r0 [Hnth [Hn0 _]]]].
  rewrite Nat.sub_0_r in Hnth.
  exists i, r0.
  unfold rproc_unregister, __find_rproc_by_name, bind, get, modify, emit,
    when, ret.
  destruct l as [|x rest]; [contradiction|].
  rewrite Hfind. cbn beta iota zeta. rewrite Hnth. cbn beta iota zeta.
  destruct (nonzero (dbg_dir r0)); cbn beta iota zeta;
    eexists; repeat split; try eassumption; try reflexivity;
    try (simpl; tauto);
    apply (length_remove_nth _ _ _ Hnth).
Qed.

Lemma rproc_unregister_in_use_witness :
  exists i r0 evs,
    find_from 0 "p0" [running_rproc] = Some i /\
    nth_error [running_rproc] i = Some r0 /\ name r0 = "p0"%string /\
    rproc_unregister "p0" [running_rproc] = Ret 0 (remove_nth i [running_rproc]) evs /\
    In EvKfree evs /\
    length (remove_nth i [running_rproc]) = pred (length [running_rproc]).
Proof.
  apply (rproc_unregister_in_use "p0" [running_rproc] running_rproc).
  - simpl. left. reflexivity.
  - reflexivity.
Defined.

(** A registry of one processor with one user. *)
Lemma rproc_unregister_in_use_counterexample :
  count running_rproc = 1 /\
  rproc_unregister "p0" [running_rproc] =
    Ret 0 [] [EvInfo "removing"; EvKfree].
Proof. split; reflexivity. Qed.

(** ** A first [rproc_get] that fails *)

Lemma nth_error_nonempty {A : Type} (l : list A) (i : nat) (x : A) :
  nth_error l i = Some x -> exists y rest, l = y :: rest.
Proof. destruct l; [destruct i; discriminate | eauto]. Qed.

Lemma first_get_undone (r : rproc) :
  count r = 0 ->
  let r1 :=
    with_completion true (with_completion false
      (with_count (wrap_int (count r + 1)) r)) in
  with_count (wrap_int (count r1 - 1)) r1 = with_completion true r.
Proof.
  intros Hc. rewrite Hc. destruct r. simpl in *. subst.
  reflexivity.
Qed.

Lemma bind_find_rproc {B : Type} (nm : string) (f : option nat -> M registry B)
    (l : registry) :
  l <> [] ->
  bind (__find_rproc_by_name nm) f l = f (find_from 0 nm l) l.
Proof.
  intros Hl. unfold bind, __find_rproc_by_name.
  destruct l as [|x rest]; [congruence|].
  destruct (f _ _); reflexivity.
Qed.

Lemma at_rproc_found {A : Type} (i : nat) (m : M rproc A) (l : registry)
    (r : rproc) :
  nth_error l i = Some r ->
  at_rproc i m l =
  match m r with
  | Ret a r' evs => Ret a (replace_nth i r' l) evs
  | Stuck w => Stuck w
  end.
Proof. intros H. unfold at_rproc, zoom. rewrite H. reflexivity. Qed.

(** C10.  A first [rproc_get] (count 0) that fails after the increment,
    because no firmware name is set or because the asynchronous request
    cannot be issued, returns NULL with the count back at 0, the completion
    signalled, the module reference taken and released once each, and the
    state untouched (OFFLINE if it was OFFLINE): the record is what it was
    except for the completion. *)
Theorem rproc_get_first_failure (e : env) (nm : string) (l : registry)
    (i : nat) (r : rproc) :
  find_from 0 nm l = Some i ->
  nth_error l i = Some r ->
  count r = 0 ->
  mutex_lock_interruptible e = 0 ->
  try_module_get e = true ->
  firmware r = None \/ request_firmware_nowait e < 0 ->
  exists evs,
    rproc_get e nm l =
      Ret None (replace_nth i (with_completion true r) l) evs /\
    count (with_completion true r) = 0 /\
    state (with_completion true r) = state r /\
    (state r = RPROC_OFFLINE ->
     state (with_completion true r) = RPROC_OFFLINE) /\
    firmware_loading_complete (with_completion true r) = true /\
    In EvCompleteAll evs /\
    module_gets evs = 1%nat /\ module_puts evs = 1%nat.
Proof.
  intros Hfind Hnth Hc Hlock Hmod Hfail.
  assert (Hl : l <> []) by (destruct l; [destruct i|]; discriminate).
  unfold rproc_get. rewrite (bind_find_rproc _ _ _ Hl), Hfind.
  rewrite (at_rproc_found _ _ _ _ Hnth).
  rewrite Hlock, Hmod. cbn [negb]. change (nonzero 0) with false.
  cbn beta iota zeta.
  do 3 step. rewrite (proj2 (nonzero_false (count r)) Hc).
  unfold deref_rproc.
  destruct (firmware r) as [f|] eqn:Hfw.
  - destruct Hfail as [Hfail|Hfail]; [discriminate|].
    apply Z.ltb_lt in Hfail. repeat step.
    rewrite Hfail. repeat step.
    rewrite (first_get_undone r Hc). cbn.
    eexists. split; [reflexivity|]. rewrite Hc.
    repeat split; simpl; tauto.
  - repeat step.
    rewrite (first_get_undone r Hc). cbn.
    eexists. split; [reflexivity|]. rewrite Hc.
    repeat split; simpl; tauto.
Qed.

Lemma rproc_get_first_failure_witness :
  exists evs,
    rproc_get no_loader_env "p0" [fresh_rproc] =
      Ret None (replace_nth 0 (with_completion true fresh_rproc) [fresh_rproc])
        evs /\
    count (with_completion true fresh_rproc) = 0 /\
    state (with_completion true fresh_rproc) = state fresh_rproc /\
    (state fresh_rproc = RPROC_OFFLINE ->
     state (with_completion true fresh_rproc) = RPROC_OFFLINE) /\
    firmware_loading_complete (with_completion true fresh_rproc) = true /\
    In EvCompleteAll evs /\
    module_gets evs = 1%nat /\ module_puts evs = 1%nat.
Proof.
  apply (rproc_get_first_failure no_loader_env "p0" [fresh_rproc] 0
           fresh_rproc); try reflexivity.
  right. simpl. unfold ENOMEM. lia.
Defined.

(** * Further properties *)

(** ** Registering, looking up, unregistering *)

Lemma find_from_none (nm : string) (l : registry) :
  forall i, find_from i nm l = None <-> unregistered nm l.
Proof.
  unfold unregistered.
  induction l as [|x rest IH]; intros i; simpl.
  - split; [intros _ r []|reflexivity].
  - destruct (String.eqb_spec (name x) nm) as [Heq|Hne].
    + split; [discriminate|]. intros H. exfalso. apply (H x); auto.
    + rewrite IH. split.
      * intros H r [<-|Hin]; auto.
      * intros H r Hin. apply H. right. exact Hin.
Qed.

Lemma find_from_app_new (nm : string) (r : rproc) (l : registry) :
  forall i,
  unregistered nm l -> name r = nm ->
  find_from i nm (l ++ [r]) = Some (i + length l)%nat.
Proof.
  induction l as [|x rest IH]; intros i Hun Hname; simpl.
  - rewrite Hname, String.eqb_refl. f_equal. lia.
  - destruct (String.eqb_spec (name x) nm) as [Heq|Hne].
    + exfalso. apply (Hun x); simpl; auto.
    + rewrite IH; [f_equal; lia| |exact Hname].
      intros r' Hin. apply Hun. right. exact Hin.
Qed.

Lemma find_from_app_old (nm : string) (l l' : registry) :
  forall i j, find_from i nm l = Some j -> find_from i nm (l ++ l') = Some j.
Proof.
  induction l as [|x rest IH]; intros i j H; simpl in *; [discriminate|].
  destruct (String.eqb (name x) nm); [exact H | apply IH; exact H].
Qed.

Lemma remove_nth_last (l : registry) (r : rproc) :
  remove_nth (length l) (l ++ [r]) = l.
Proof. induction l as [|x rest IH]; simpl; [|rewrite IH]; reflexivity. Qed.

Lemma remove_nth_app (l l' : registry) :
  forall i r, nth_error l i = Some r ->
  remove_nth i (l ++ l') = remove_nth i l ++ l'.
Proof.
  induction l as [|x rest IH]; intros [|i] r H; simpl in *;
    try discriminate; [reflexivity|].
  rewrite (IH i r H). reflexivity.
Qed.

Lemma nth_error_last (l : registry) (r : rproc) :
  nth_error (l ++ [r]) (length l) = Some r.
Proof. induction l; simpl; auto. Qed.

Lemma find_rproc_nonempty (nm : string) (l : registry) :
  l <> [] -> __find_rproc_by_name nm l = Ret (find_from 0 nm l) l [].
Proof. intros Hl. destruct l; [congruence | reflexivity]. Qed.

Lemma app_last_nonempty (l : registry) (r : rproc) : l ++ [r] <> [].
Proof. destruct l; discriminate. Qed.

(** The whole of [rproc_register] when the arguments are there and the
    allocation succeeds. *)
Lemma rproc_register_ok (e : env) (dev ops : Z) (nm : string)
    (fw : option string) (maps : option (list rproc_mem_entry))
    (l : registry) :
  dev <> 0 -> ops <> 0 -> kzalloc_ok e = true ->
  exists evs,
    rproc_register e dev (Some nm) ops fw maps l =
      Ret 0 (l ++ [registered_rproc e nm fw maps]) evs.
Proof.
  intros Hdev Hops Hk. unfold rproc_register, registered_rproc.
  apply nonzero_true in Hdev, Hops. rewrite Hdev, Hops, Hk. cbn [negb orb].
  repeat step.
  destruct (nonzero (rproc_dbg e)); cbn [negb];
    [destruct (nonzero (debugfs_create_dir e)); cbn [negb]|];
    repeat step; cbn; eexists; reflexivity.
Qed.

(** X1.  Lookup by name.  On a registry that is not empty,
    [__find_rproc_by_name] changes nothing and answers the position of the
    first record of that name, or NULL exactly when no record has the
    name. *)
Theorem find_rproc_by_name_first (nm : string) (l : registry) :
  l <> [] ->
  exists found,
    __find_rproc_by_name nm l = Ret found l [] /\
    match found with
    | Some i =>
        exists r, nth_error l i = Some r /\ name r = nm /\
          forall k r', (k < i)%nat -> nth_error l k = Some r' -> name r' <> nm
    | None => unregistered nm l
    end.
Proof.
  intros Hl. exists (find_from 0 nm l). split.
  - apply find_rproc_nonempty. exact Hl.
  - destruct (find_from 0 nm l) as [i|] eqn:Hf.
    + destruct (find_from_spec nm l 0 i Hf) as [_ [r [Hn [Hname Hfirst]]]].
      rewrite Nat.sub_0_r in Hn, Hfirst. eauto.
    + apply (find_from_none nm l 0). exact Hf.
Qed.

Lemma find_rproc_by_name_first_witness :
  exists found,
    __find_rproc_by_name "p0" [fresh_rproc] = Ret found [fresh_rproc] [] /\
    match found with
    | Some i =>
        exists r, nth_error [fresh_rproc] i = Some r /\ name r = "p0"%string /\
          forall k r', (k < i)%nat -> nth_error [fresh_rproc] k = Some r' ->
                       name r' <> "p0"%string
    | None => unregistered "p0" [fresh_rproc]
    end.
Proof.
  apply (find_rproc_by_name_first "p0" [fresh_rproc]). discriminate.
Defined.

(** X3.  Registering a name that is not in the registry: the call returns
    0, the record goes to the tail, OFFLINE with count 0 and no trace
    buffer, and a lookup of the name finds it. *)
Theorem rproc_register_then_find (e : env) (dev ops : Z) (nm : string)
    (fw : option string) (maps : option (list rproc_mem_entry))
    (l : registry) :
  dev <> 0 -> ops <> 0 -> kzalloc_ok e = true ->
  unregistered nm l ->
  exists l' evs r,
    rproc_register e dev (Some nm) ops fw maps l = Ret 0 l' evs /\
    __find_rproc_by_name nm l' = Ret (Some (length l)) l' [] /\
    nth_error l' (length l) = Some r /\
    name r = nm /\ firmware r = fw /\ memory_maps r = maps /\
    count r = 0 /\ state r = RPROC_OFFLINE /\
    trace_buf0 r = 0 /\ trace_buf1 r = 0.
Proof.
  intros Hdev Hops Hk Hun.
  destruct (rproc_register_ok e dev ops nm fw maps l Hdev Hops Hk) as [evs H].
  exists (l ++ [registered_rproc e nm fw maps]), evs,
    (registered_rproc e nm fw maps).
  split; [exact H|]. split.
  - rewrite find_rproc_nonempty by apply app_last_nonempty.
    rewrite find_from_app_new by (auto; reflexivity). reflexivity.
  - split; [apply nth_error_last|]. repeat split.
Qed.

Lemma rproc_register_then_find_witness :
  exists l' evs r,
    rproc_register quiet_env 1 (Some "p1"%string) 1 None None [fresh_rproc] =
      Ret 0 l' evs /\
    __find_rproc_by_name "p1" l' = Ret (Some 1%nat) l' [] /\
    nth_error l' 1 = Some r /\
    name r = "p1"%string /\ firmware r = None /\ memory_maps r = None /\
    count r = 0 /\ state r = RPROC_OFFLINE /\
    trace_buf0 r = 0 /\ trace_buf1 r = 0.
Proof.
  apply (rproc_register_then_find quiet_env 1 1 "p1" None None [fresh_rproc]);
    try discriminate; try reflexivity.
  intros r [<-|[]]. discriminate.
Defined.

Lemma rproc_unregister_found (nm : string) (l : registry) (i : nat)
    (r : rproc) :
  find_from 0 nm l = Some i ->
  nth_error l i = Some r ->
  rproc_unregister nm l =
    Ret 0 (remove_nth i l)
      (EvInfo "removing" ::
       (if nonzero (dbg_dir r) then [EvDebugfsRemove (dbg_dir r)] else []) ++
       [EvKfree]).
Proof.
  intros Hf Hn.
  assert (Hl : l <> []) by (destruct l; [destruct i|]; discriminate).
  unfold rproc_unregister. rewrite (bind_find_rproc _ _ _ Hl), Hf.
  step. rewrite Hn. unfold when.
  destruct (nonzero (dbg_dir r)); repeat step; reflexivity.
Qed.

(** X4.  Registering a name that is not in the registry and then
    unregistering it gives the registry back as it was. *)
Theorem rproc_register_unregister (e : env) (dev ops : Z) (nm : string)
    (fw : option string) (maps : option (list rproc_mem_entry))
    (l : registry) :
  dev <> 0 -> ops <> 0 -> kzalloc_ok e = true ->
  unregistered nm l ->
  exists evs,
    (r <- rproc_register e dev (Some nm) ops fw maps;;
     if r =? 0 then rproc_unregister nm else ret r) l = Ret 0 l evs.
Proof.
  intros Hdev Hops Hk Hun.
  destruct (rproc_register_ok e dev ops nm fw maps l Hdev Hops Hk) as [evs H].
  unfold bind at 1. rewrite H. cbn [Z.eqb].
  rewrite (rproc_unregister_found nm _ (length l)
             (registered_rproc e nm fw maps)).
  - rewrite remove_nth_last. eexists. reflexivity.
  - rewrite find_from_app_new by (auto; reflexivity). reflexivity.
  - apply nth_error_last.
Qed.

Lemma rproc_register_unregister_witness :
  exists evs,
    (r <- rproc_register quiet_env 1 (Some "p1"%string) 1 None None;;
     if r =? 0 then rproc_unregister "p1" else ret r) [fresh_rproc] =
    Ret 0 [fresh_rproc] evs.
Proof.
  apply (rproc_register_unregister quiet_env 1 1 "p1" None None
           [fresh_rproc]); try discriminate; try reflexivity.
  intros r [<-|[]]. discriminate.
Defined.

(** X5.  Registering a name a second time is not refused: the call returns
    0 and adds a second record at the tail, the lookup keeps answering the
    older record, and unregistering the name then removes the older record
    and leaves the new one. *)
Theorem rproc_register_duplicate (e : env) (dev ops : Z) (nm : string)
    (fw : option string) (maps : option (list rproc_mem_entry))
    (l : registry) (i : nat) (old : rproc) :
  dev <> 0 -> ops <> 0 -> kzalloc_ok e = true ->
  find_from 0 nm l = Some i ->
  nth_error l i = Some old ->
  exists evs evs',
    rproc_register e dev (Some nm) ops fw maps l =
      Ret 0 (l ++ [registered_rproc e nm fw maps]) evs /\
    __find_rproc_by_name nm (l ++ [registered_rproc e nm fw maps]) =
      Ret (Some i) (l ++ [registered_rproc e nm fw maps]) [] /\
    rproc_unregister nm (l ++ [registered_rproc e nm fw maps]) =
      Ret 0 (remove_nth i l ++ [registered_rproc e nm fw maps]) evs'.
Proof.
  intros Hdev Hops Hk Hf Hn.
  destruct (rproc_register_ok e dev ops nm fw maps l Hdev Hops Hk) as [evs H].
  assert (Hf' : find_from 0 nm (l ++ [registered_rproc e nm fw maps]) = Some i)
    by (apply find_from_app_old; exact Hf).
  assert (Hn' : nth_error (l ++ [registered_rproc e nm fw maps]) i = Some old).
  { rewrite nth_error_app1; [exact Hn|].
    apply nth_error_Some. rewrite Hn. discriminate. }
  eexists evs, _. split; [exact H|]. split.
  - rewrite find_rproc_nonempty by apply app_last_nonempty.
    rewrite Hf'. reflexivity.
  - rewrite (rproc_unregister_found nm _ i old Hf' Hn').
    rewrite (remove_nth_app l _ i old Hn). reflexivity.
Qed.

Lemma rproc_register_duplicate_witness :
  exists evs evs',
    rproc_register quiet_env 1 (Some "p0"%string) 1 None None [running_rproc] =
      Ret 0 ([running_rproc] ++ [registered_rproc quiet_env "p0" None None])
        evs /\
    __find_rproc_by_name "p0"
      ([running_rproc] ++ [registered_rproc quiet_env "p0" None None]) =
      Ret (Some 0%nat)
        ([running_rproc] ++ [registered_rproc quiet_env "p0" None None]) [] /\
    rproc_unregister "p0"
      ([running_rproc] ++ [registered_rproc quiet_env "p0" None None]) =
      Ret 0 (remove_nth 0 [running_rproc] ++
             [registered_rproc quiet_env "p0" None None]) evs'.
Proof.
  apply (rproc_register_duplicate quiet_env 1 1 "p0" None None
           [running_rproc] 0 running_rproc);
    try discriminate; reflexivity.
Defined.

Ltac register_cases :=
  repeat split; intros;
  repeat match goal with
    | H : _ \/ _ |- _ => destruct H
    | H : _ /\ _ |- _ => destruct H
    end;
  try solve
    [ auto | discriminate | congruence | tauto
    | rewrite length_app; simpl; lia ].

(** X6.  [rproc_register] returns 0 and grows the registry by one record,
    or it returns an error and leaves the registry alone: [-EINVAL] exactly
    when the device, the name or the operations are NULL, [-ENOMEM] when
    the allocation fails. *)
Theorem rproc_register_result (e : env) (dev ops : Z) (nm : option string)
    (fw : option string) (maps : option (list rproc_mem_entry))
    (l : registry) :
  exists r l' evs,
    rproc_register e dev nm ops fw maps l = Ret r l' evs /\
    (r = - EINVAL <-> dev = 0 \/ nm = None \/ ops = 0) /\
    (r = - ENOMEM <-> dev <> 0 /\ nm <> None /\ ops <> 0 /\ kzalloc_ok e = false) /\
    (r = 0 \/ r = - EINVAL \/ r = - ENOMEM) /\
    (r = 0 -> length l' = S (length l)) /\
    (r <> 0 -> l' = l /\ (r = - EINVAL -> evs = [])).
Proof.
  unfold rproc_register. destruct nm as [nm|].
  2: { eexists _, _, _. split; [reflexivity|]. register_cases. }
  destruct (Z.eqb_spec dev 0) as [Hd|Hd].
  { subst dev. cbn. eexists _, _, _. split; [reflexivity|]. register_cases. }
  destruct (Z.eqb_spec ops 0) as [Ho|Ho].
  { subst ops. apply nonzero_true in Hd. rewrite Hd. cbn.
    eexists _, _, _. split; [reflexivity|]. register_cases. }
  pose proof Hd as Hd'. pose proof Ho as Ho'.
  apply nonzero_true in Hd', Ho'. rewrite Hd', Ho'. cbn [negb orb].
  destruct (kzalloc_ok e) eqn:Hk; cbn [negb].
  - repeat step.
    destruct (nonzero (rproc_dbg e)); cbn [negb];
      [destruct (nonzero (debugfs_create_dir e)); cbn [negb]|];
      repeat step; cbn; eexists _, _, _; (split; [reflexivity|]);
      register_cases.
  - repeat step. cbn. eexists _, _, _. split; [reflexivity|]. register_cases.
Qed.

(** ** Acquiring *)

Lemma replace_nth_same (l : registry) :
  forall i r, nth_error l i = Some r -> replace_nth i r l = l.
Proof.
  induction l as [|x rest IH]; intros [|i] r H; simpl in *;
    try discriminate.
  - inversion H. reflexivity.
  - rewrite (IH i r H). reflexivity.
Qed.

Lemma nth_error_replace_nth (l : registry) :
  forall i r r', nth_error l i = Some r ->
  nth_error (replace_nth i r' l) i = Some r'.
Proof.
  induction l as [|x rest IH]; intros [|i] r r' H; simpl in *;
    try discriminate; [reflexivity|].
  apply (IH i r r' H).
Qed.

Lemma nth_error_replace_nth_other (l : registry) :
  forall i j r', i <> j ->
  nth_error (replace_nth i r' l) j = nth_error l j.
Proof.
  induction l as [|x rest IH]; intros [|i] [|j] r' H; simpl;
    try reflexivity; try congruence.
  apply IH. congruence.
Qed.

Lemma map_name_replace_nth (l : registry) :
  forall i r r', nth_error l i = Some r -> name r' = name r ->
  map name (replace_nth i r' l) = map name l.
Proof.
  induction l as [|x rest IH]; intros [|i] r r' H Hn; simpl in *;
    try discriminate.
  - inversion H; subst. rewrite Hn. reflexivity.
  - rewrite (IH i r r' H Hn). reflexivity.
Qed.

(** The whole of [rproc_get] on a name that is found. *)
Lemma rproc_get_cases (e : env) (nm : string) (l : registry) (i : nat)
    (r : rproc) :
  find_from 0 nm l = Some i ->
  nth_error l i = Some r ->
  rproc_get e nm l =
  if nonzero (mutex_lock_interruptible e) then
    Ret None l
      [EvMutexLock (mutex_lock_interruptible e);
       EvErr "can't lock remote processor"]
  else if negb (try_module_get e) then
    Ret None l
      [EvMutexLock (mutex_lock_interruptible e); EvTryModuleGet false;
       EvErr "can't get owner"; EvMutexUnlock]
  else if nonzero (count r) then
    Ret (Some i) (replace_nth i (with_count (wrap_int (count r + 1)) r) l)
      [EvMutexLock (mutex_lock_interruptible e); EvTryModuleGet true;
       EvMutexUnlock]
  else
    match firmware r with
    | None =>
        Ret None (replace_nth i (with_completion true r) l)
          [EvMutexLock (mutex_lock_interruptible e); EvTryModuleGet true;
           EvInitCompletion; EvInfo "powering up";
           EvErr "no firmware to load";
           EvCompleteAll; EvModulePut; EvMutexUnlock]
    | Some _ =>
        if request_firmware_nowait e <? 0 then
          Ret None (replace_nth i (with_completion true r) l)
            [EvMutexLock (mutex_lock_interruptible e); EvTryModuleGet true;
             EvInitCompletion; EvInfo "powering up";
             EvRequestFirmware (request_firmware_nowait e);
             EvErr "request_firmware_nowait failed";
             EvCompleteAll; EvModulePut; EvMutexUnlock]
        else
          Ret (Some i)
            (replace_nth i
               (with_state RPROC_LOADING
                  (with_completion false (with_count 1 r))) l)
            [EvMutexLock (mutex_lock_interruptible e); EvTryModuleGet true;
             EvInitCompletion; EvInfo "powering up";
             EvRequestFirmware (request_firmware_nowait e); EvMutexUnlock]
    end.
Proof.
  intros Hfind Hnth.
  assert (Hl : l <> []) by (destruct l; [destruct i|]; discriminate).
  unfold rproc_get. rewrite (bind_find_rproc _ _ _ Hl), Hfind.
  rewrite (at_rproc_found _ _ _ _ Hnth). cbn beta iota zeta.
  destruct (nonzero (mutex_lock_interruptible e)).
  { repeat step. cbn. rewrite (replace_nth_same l i r Hnth). reflexivity. }
  step.
  destruct (try_module_get e); cbn [negb].
  2: { repeat step. cbn. rewrite (replace_nth_same l i r Hnth). reflexivity. }
  do 3 step.
  destruct (nonzero (count r)) eqn:Hc.
  { repeat step. cbn. reflexivity. }
  apply nonzero_false in Hc. unfold deref_rproc.
  destruct (firmware r) as [f|].
  - repeat step. destruct (request_firmware_nowait e <? 0).
    + repeat step. rewrite (first_get_undone r Hc). cbn. reflexivity.
    + repeat step. cbn. rewrite Hc. reflexivity.
  - repeat step. rewrite (first_get_undone r Hc). cbn. reflexivity.
Qed.

(** X2.  Where the registry calls are defined.  On an empty registry the
    lookup returns a pointer that was never assigned, the loop body that
    alone writes it not being run, and [rproc_get] and [rproc_unregister]
    work through that pointer.  On any other registry all three return,
    whatever the name and the answers of the kernel. *)
Theorem registry_calls_defined (e : env) (nm : string) (l : registry) :
  match l with
  | [] =>
      __find_rproc_by_name nm l = Stuck Uninitialised /\
      rproc_get e nm l = Stuck Uninitialised /\
      rproc_unregister nm l = Stuck Uninitialised
  | _ :: _ =>
      (exists found, __find_rproc_by_name nm l = Ret found l []) /\
      (exists h l' evs, rproc_get e nm l = Ret h l' evs) /\
      (exists r l' evs, rproc_unregister nm l = Ret r l' evs)
  end.
Proof.
  destruct l as [|x rest]; [repeat split|].
  set (l := x :: rest).
  assert (Hl : l <> []) by discriminate.
  split; [eexists; apply find_rproc_nonempty; exact Hl|].
  destruct (find_from 0 nm l) as [i|] eqn:Hfind.
  - destruct (find_from_spec nm l 0 i Hfind) as [_ [r [Hnth _]]].
    rewrite Nat.sub_0_r in Hnth. split.
    + rewrite (rproc_get_cases e nm l i r Hfind Hnth).
      destruct (nonzero (mutex_lock_interruptible e)); [eauto|].
      destruct (negb (try_module_get e)); [eauto|].
      destruct (nonzero (count r)); [eauto|].
      destruct (firmware r); [|eauto].
      destruct (request_firmware_nowait e <? 0); eauto.
    + rewrite (rproc_unregister_found nm l i r Hfind Hnth). eauto.
  - split.
    + unfold rproc_get. rewrite (bind_find_rproc _ _ _ Hl), Hfind.
      cbn. eauto.
    + unfold rproc_unregister. rewrite (bind_find_rproc _ _ _ Hl), Hfind.
      cbn. eauto.
Qed.

(** X7.  What [rproc_get] does to the registry.  The names never change
    and only the record found by the name can change.  A handle is returned
    exactly when the count of that record went up by one; when NULL is
    returned every count is what it was. *)
Theorem rproc_get_refcount (e : env) (nm : string) (l l' : registry)
    (h : option nat) (evs : list event) :
  Forall (fun r => 0 <= count r < INT_MAX) l ->
  rproc_get e nm l = Ret h l' evs ->
  map name l' = map name l /\
  (forall j, find_from 0 nm l <> Some j -> nth_error l' j = nth_error l j) /\
  match h with
  | Some i =>
      find_from 0 nm l = Some i /\
      exists r r', nth_error l i = Some r /\ nth_error l' i = Some r' /\
        count r' = count r + 1
  | None => map count l' = map count l
  end.
Proof.
  intros Hrange H.
  assert (Hl : l <> []) by (intros ->; discriminate H).
  destruct (find_from 0 nm l) as [i|] eqn:Hfind.
  2: { unfold rproc_get in H. rewrite (bind_find_rproc _ _ _ Hl), Hfind in H.
       cbn in H. inversion H; subst. auto. }
  destruct (find_from_spec nm l 0 i Hfind) as [_ [r [Hnth [Hname _]]]].
  rewrite Nat.sub_0_r in Hnth.
  assert (Hr : 0 <= count r < INT_MAX).
  { rewrite Forall_forall in Hrange. apply Hrange.
    eapply nth_error_In. exact Hnth. }
  assert (Hcounts : forall r', count r' = count r ->
            map count (replace_nth i r' l) = map count l).
  { intros r' Hc. clear - Hnth Hc. revert i Hnth.
    induction l as [|x rest IH]; intros [|i] Hnth; simpl in *;
      try discriminate.
    - inversion Hnth; subst. rewrite Hc. reflexivity.
    - rewrite (IH i Hnth). reflexivity. }
  rewrite (rproc_get_cases e nm l i r Hfind Hnth) in H.
  destruct (nonzero (mutex_lock_interruptible e));
    [inversion H; subst; auto|].
  destruct (negb (try_module_get e)); [inversion H; subst; auto|].
  destruct (nonzero (count r)) eqn:Hc.
  { inversion H; subst. split; [|split; [|split]].
    - apply (map_name_replace_nth l i r); auto.
    - intros j Hj. apply nth_error_replace_nth_other. congruence.
    - reflexivity.
    - eexists r, _. split; [exact Hnth|]. split.
      + apply (nth_error_replace_nth l i r). exact Hnth.
      + simpl. apply wrap_int_small. unfold INT_MAX in *. lia. }
  apply nonzero_false in Hc.
  destruct (firmware r) as [f|];
    [destruct (request_firmware_nowait e <? 0)|];
    inversion H; subst; (split; [|split]);
    try (apply (map_name_replace_nth l i r); auto; fail);
    try (intros j Hj; apply nth_error_replace_nth_other; congruence);
    try (apply Hcounts; reflexivity).
  split; [reflexivity|].
  eexists r, _. split; [exact Hnth|]. split.
  - apply (nth_error_replace_nth l i r). exact Hnth.
  - simpl. lia.
Qed.

Lemma rproc_get_refcount_witness :
  map name [loading_rproc] = map name [fresh_rproc] /\
  (forall j, find_from 0 "p0" [fresh_rproc] <> Some j ->
             nth_error [loading_rproc] j = nth_error [fresh_rproc] j) /\
  find_from 0 "p0" [fresh_rproc] = Some 0%nat /\
  exists r r', nth_error [fresh_rproc] 0 = Some r /\
    nth_error [loading_rproc] 0 = Some r' /\ count r' = count r + 1.
Proof.
  apply (rproc_get_refcount quiet_env "p0" [fresh_rproc] [loading_rproc]
           (Some 0%nat)
           [EvMutexLock 0; EvTryModuleGet true; EvInitCompletion;
            EvInfo "powering up"; EvRequestFirmware 0; EvMutexUnlock]).
  - constructor; [|constructor]. unfold INT_MAX. simpl. lia.
  - reflexivity.
Defined.

(** X8.  Who loads the firmware.  When [rproc_get] returns a handle, the
    caller that found the count at 0 has started the load: the state is
    LOADING, the completion is armed again and one firmware request was
    issued.  A caller that found the count above 0 issues no request and
    changes nothing but the count, whatever the state, LOADING included. *)
Theorem rproc_get_who_loads (e : env) (nm : string) (l l' : registry)
    (i : nat) (r : rproc) (evs : list event) :
  nth_error l i = Some r ->
  rproc_get e nm l = Ret (Some i) l' evs ->
  if count r =? 0 then
    l' = replace_nth i
           (with_state RPROC_LOADING (with_completion false (with_count 1 r)))
           l /\
    firmware r <> None /\
    filter (fun ev => match ev with EvRequestFirmware _ => true | _ => false end)
      evs = [EvRequestFirmware (request_firmware_nowait e)] /\
    0 <= request_firmware_nowait e
  else
    l' = replace_nth i (with_count (wrap_int (count r + 1)) r) l /\
    evs = [EvMutexLock 0; EvTryModuleGet true; EvMutexUnlock].
Proof.
  intros Hnth H.
  assert (Hl : l <> []) by (intros ->; discriminate H).
  destruct (find_from 0 nm l) as [i'|] eqn:Hfind.
  2: { unfold rproc_get in H. rewrite (bind_find_rproc _ _ _ Hl), Hfind in H.
       cbn in H. discriminate H. }
  destruct (find_from_spec nm l 0 i' Hfind) as [_ [r0 [Hnth0 _]]].
  rewrite Nat.sub_0_r in Hnth0.
  rewrite (rproc_get_cases e nm l i' r0 Hfind Hnth0) in H.
  destruct (nonzero (mutex_lock_interruptible e)) eqn:Hlock;
    [discriminate H|].
  apply nonzero_false in Hlock. rewrite Hlock in H.
  destruct (negb (try_module_get e)); [discriminate H|].
  destruct (nonzero (count r0)) eqn:Hc.
  - inversion H; subst. rewrite Hnth0 in Hnth. inversion Hnth; subst.
    apply nonzero_true in Hc. apply Z.eqb_neq in Hc. rewrite Hc. auto.
  - apply nonzero_false in Hc.
    destruct (firmware r0) as [f|] eqn:Hfw; [|discriminate H].
    destruct (Z.ltb_spec (request_firmware_nowait e) 0); [discriminate H|].
    inversion H; subst. rewrite Hnth0 in Hnth. inversion Hnth; subst.
    rewrite Hc. cbn. rewrite Hfw. repeat split; auto. discriminate.
Qed.

Lemma rproc_get_who_loads_witness :
  [with_count 2 running_rproc] =
    replace_nth 0 (with_count (wrap_int (count running_rproc + 1)) running_rproc)
      [running_rproc] /\
  [EvMutexLock 0; EvTryModuleGet true; EvMutexUnlock] =
    [EvMutexLock 0; EvTryModuleGet true; EvMutexUnlock].
Proof.
  apply (rproc_get_who_loads quiet_env "p0" [running_rproc]
           [with_count 2 running_rproc] 0 running_rproc
           [EvMutexLock 0; EvTryModuleGet true; EvMutexUnlock]);
    reflexivity.
Defined.

(** ** Releasing *)

(** [rproc_put] before it has the mutex. *)
Lemma rproc_put_early (e : env) (r : rproc) :
  (count r = 0 ->
   rproc_put e r =
     Ret tt r
       [EvErr "asymmetric put (fogot to call rproc_get ?)"; EvMutexUnlock]) /\
  (count r <> 0 -> firmware_loading_complete r = false ->
   rproc_put e r = Stuck Blocked) /\
  (count r <> 0 -> firmware_loading_complete r = true ->
   mutex_lock_interruptible e <> 0 ->
   rproc_put e r =
     Ret tt r
       [EvMutexLock (mutex_lock_interruptible e); EvErr "can't lock rproc"]).
Proof.
  unfold rproc_put, put_out. repeat split.
  - intros Hc. apply nonzero_false in Hc. step. rewrite Hc. reflexivity.
  - intros Hc Hd. apply nonzero_true in Hc. step. rewrite Hc, Hd. reflexivity.
  - intros Hc Hd Hl. apply nonzero_true in Hc, Hl. step.
    rewrite Hc, Hd, Hl. reflexivity.
Qed.

(** X9.  What [rproc_put] does to the count.  When it returns, the count
    is what it was or one less, and never below 0; if the count is what it
    was the whole record is; and when the count reached 0 both trace slots
    are NULL. *)
Theorem rproc_put_refcount (e : env) (r r' : rproc) (evs : list event) :
  0 <= count r <= INT_MAX ->
  rproc_put e r = Ret tt r' evs ->
  0 <= count r' <= count r /\
  count r - 1 <= count r' /\
  (count r' = count r -> r' = r) /\
  (count r' = 0 -> count r <> 0 -> trace_buf0 r' = 0 /\ trace_buf1 r' = 0).
Proof.
  intros Hrange H.
  destruct (rproc_put_early e r) as (H0 & Hb & Hl).
  destruct (Z.eq_dec (count r) 0) as [Hc|Hc].
  { rewrite (H0 Hc) in H. inversion H; subst. repeat split; auto; lia. }
  destruct (firmware_loading_complete r) eqn:Hd.
  2: { rewrite (Hb Hc eq_refl) in H. discriminate H. }
  destruct (Z.eq_dec (mutex_lock_interruptible e) 0) as [Hlock|Hlock].
  2: { rewrite (Hl Hc eq_refl Hlock) in H. inversion H; subst.
       repeat split; auto; lia. }
  rewrite (rproc_put_cases e r) in H by (auto; lia).
  destruct (nonzero (count r - 1)) eqn:Hlast.
  - inversion H; subst. simpl. apply nonzero_true in Hlast.
    repeat split; try lia.
  - apply nonzero_false in Hlast.
    destruct (rproc_state_eqb (state r) RPROC_RUNNING && nonzero (ops_stop e));
      inversion H; subst; simpl; repeat split; try lia.
Qed.

Lemma rproc_put_refcount_witness :
  0 <= count (with_count 1 running_rproc) <= count (with_count 2 running_rproc) /\
  count (with_count 2 running_rproc) - 1 <= count (with_count 1 running_rproc) /\
  (count (with_count 1 running_rproc) = count (with_count 2 running_rproc) ->
   with_count 1 running_rproc = with_count 2 running_rproc) /\
  (count (with_count 1 running_rproc) = 0 ->
   count (with_count 2 running_rproc) <> 0 ->
   trace_buf0 (with_count 1 running_rproc) = 0 /\
   trace_buf1 (with_count 1 running_rproc) = 0).
Proof.
  apply (rproc_put_refcount quiet_env (with_count 2 running_rproc)
           (with_count 1 running_rproc)
           [EvMutexLock 0; EvMutexUnlock; EvModulePut]).
  - unfold INT_MAX. simpl. lia.
  - reflexivity.
Defined.

(** X10.  The mutex in [rproc_put].  Whenever [rproc_put] returns it has
    unlocked the mutex as often as it took it, once, or not at all when the
    lock was interrupted, unless the count was 0.  A release without an
    acquisition is reported and changes nothing: it does not wait for the
    completion, does not take the mutex and releases no module reference;
    but it leaves through the exit label and unlocks the mutex, which it
    never locked. *)
Theorem rproc_put_mutex_balance (e : env) (r r' : rproc) (evs : list event) :
  rproc_put e r = Ret tt r' evs ->
  (unlocks evs <= 1)%nat /\
  if count r =? 0 then
    locks_taken evs = 0%nat /\ unlocks evs = 1%nat /\
    module_puts evs = 0%nat /\ r' = r
  else locks_taken evs = unlocks evs.
Proof.
  intros H.
  destruct (Z.eqb_spec (count r) 0) as [Hc|Hc].
  { destruct (rproc_put_early e r) as [Hz _]. rewrite (Hz Hc) in H.
    inversion H; subst. repeat split. cbn. lia. }
  apply nonzero_true in Hc.
  unfold rproc_put, put_out in H. rewrite bind_get, Hc in H.
  cbn [negb] in H.
  destruct (firmware_loading_complete r); [|discriminate H].
  rewrite bind_ret, bind_emit in H.
  destruct (nonzero (mutex_lock_interruptible e)) eqn:Hlock.
  { run_in H. unfold locks_taken, unlocks. cbn. rewrite Hlock. cbn.
    split; [lia | reflexivity]. }
  unfold when in H.
  destruct (nonzero (trace_buf0 r)); destruct (nonzero (trace_buf1 r));
    run_in H; unfold locks_taken, unlocks; cbn; rewrite ?Hlock; cbn;
    split; try lia; reflexivity.
Qed.

Lemma rproc_put_mutex_balance_witness :
  (unlocks [EvErr "asymmetric put (fogot to call rproc_get ?)";
            EvMutexUnlock] <= 1)%nat /\
  if count fresh_rproc =? 0 then
    locks_taken [EvErr "asymmetric put (fogot to call rproc_get ?)";
                 EvMutexUnlock] = 0%nat /\
    unlocks [EvErr "asymmetric put (fogot to call rproc_get ?)";
             EvMutexUnlock] = 1%nat /\
    module_puts [EvErr "asymmetric put (fogot to call rproc_get ?)";
                 EvMutexUnlock] = 0%nat /\
    fresh_rproc = fresh_rproc
  else
    locks_taken [EvErr "asymmetric put (fogot to call rproc_get ?)";
                 EvMutexUnlock] =
    unlocks [EvErr "asymmetric put (fogot to call rproc_get ?)";
             EvMutexUnlock].
Proof.
  apply (rproc_put_mutex_balance quiet_env fresh_rproc fresh_rproc
           [EvErr "asymmetric put (fogot to call rproc_get ?)";
            EvMutexUnlock]).
  reflexivity.
Defined.

Lemma load_fixes_load_fw (phys_addr_bits : Z) (e : env)
    (fw : option (list byte)) :
  respects load_fixes (rproc_load_fw phys_addr_bits e fw).
Proof.
  apply respects_rproc_load_fw.
  - intros s. unfold load_fixes. auto.
  - unfold load_fixes. intros s1 s2 s3 e1 e2 (H1 & H2 & H3) (H4 & H5 & H6).
    repeat split; congruence.
  - intros msg s a s' evs H. run_in H. unfold load_fixes. auto.
  - intros msg s a s' evs H. run_in H. unfold load_fixes. auto.
  - intros msg s a s' evs H. run_in H. unfold load_fixes. auto.
  - intros ptr s a s' evs H. run_in H. unfold load_fixes. auto.
  - intros ptr bs s a s' evs H. run_in H. unfold load_fixes. auto.
  - intros s a s' evs H. run_in H. unfold load_fixes. auto.
  - intros s a s' evs H. run_in H. unfold load_fixes. auto.
  - intros pa len s a s' evs H. run_in H. unfold load_fixes. auto.
  - intros rsc s a s' evs H. unfold rproc_handle_trace_rsc in H. run_in H;
      unfold load_fixes; auto.
  - intros b s a s' evs H. unfold rproc_start in H. run_in H;
      unfold load_fixes; auto.
  - intros s a s' evs H. run_in H. unfold load_fixes. auto.
Qed.

(** X11.  One user from acquisition to release.  Right after the first
    [rproc_get] a release waits: the completion is not signalled.  Once
    [rproc_load_fw] has run, on any blob and whether it booted the
    processor or not, the release returns and, with a backend stop that
    succeeds, leaves the record as before the acquisition: count 0, state
    OFFLINE, both trace slots NULL, with the module reference released
    once. *)
Theorem sole_user_round_trip (phys_addr_bits : Z) (e : env)
    (fw : option (list byte)) (r : rproc) (n : nat) :
  count r = 1 ->
  firmware_loading_complete r = false ->
  mutex_lock_interruptible e = 0 ->
  ops_stop e = 0 ->
  rproc_put e r = Stuck Blocked /\
  match rproc_load_fw phys_addr_bits e fw {| this := r; ioremaps := n |} with
  | Ret _ m' _ =>
      exists r' evs,
        rproc_put e (this m') = Ret tt r' evs /\
        count r' = 0 /\ state r' = RPROC_OFFLINE /\
        trace_buf0 r' = 0 /\ trace_buf1 r' = 0 /\
        module_puts evs = 1%nat /\
        name r' = name r /\ firmware r' = firmware r /\
        memory_maps r' = memory_maps r
  | Stuck w => w = OutOfBounds
  end.
Proof.
  intros Hc Hd Hlock Hstop. split.
  { apply (rproc_put_early e r); [lia | exact Hd]. }
  destruct (rproc_load_fw phys_addr_bits e fw _) as [[] m' evs|w] eqn:E.
  2: { exact (stuck_rproc_load_fw phys_addr_bits e fw _ w E). }
  destruct (ends_completed_load_fw phys_addr_bits e fw _ tt m' evs E)
    as [Hdone _].
  destruct (load_keeps_load_fw phys_addr_bits e fw _ tt m' evs E)
    as (Hcount & _).
  simpl in Hcount. rewrite Hc in Hcount.
  assert (Hrange : 0 < count (this m') <= INT_MAX)
    by (rewrite Hcount; unfold INT_MAX; simpl; lia).
  assert (Hfix : name (this m') = name r /\ firmware (this m') = firmware r /\
                 memory_maps (this m') = memory_maps r).
  { exact (load_fixes_load_fw phys_addr_bits e fw _ tt m' evs E). }
  rewrite (rproc_put_cases e (this m') Hrange Hdone Hlock), Hcount, Hstop.
  change (nonzero (1 - 1)) with false. change (nonzero 0) with false.
  rewrite andb_false_r. cbn iota.
  eexists _, _. split; [reflexivity|]. simpl.
  repeat split; try tauto.
  unfold module_puts, unmaps.
  destruct (nonzero (trace_buf0 (this m'))), (nonzero (trace_buf1 (this m')));
    destruct (rproc_state_eqb (state (this m')) RPROC_RUNNING); reflexivity.
Qed.

Lemma sole_user_round_trip_witness :
  rproc_put quiet_env loading_rproc = Stuck Blocked /\
  match rproc_load_fw 32 quiet_env (Some three_trace_image)
          {| this := loading_rproc; ioremaps := 0 |} with
  | Ret _ m' _ =>
      exists r' evs,
        rproc_put quiet_env (this m') = Ret tt r' evs /\
        count r' = 0 /\ state r' = RPROC_OFFLINE /\
        trace_buf0 r' = 0 /\ trace_buf1 r' = 0 /\
        module_puts evs = 1%nat /\
        name r' = name loading_rproc /\
        firmware r' = firmware loading_rproc /\
        memory_maps r' = memory_maps loading_rproc
  | Stuck w => w = OutOfBounds
  end.
Proof.
  apply (sole_user_round_trip 32 quiet_env (Some three_trace_image)
           loading_rproc 0); reflexivity.
Defined.

(** ** Trace buffers unmapped twice *)

Lemma bound_unmapped_app (m : machine) (e1 e2 e3 : list event) :
  bound_unmapped m e2 -> bound_unmapped m (e1 ++ e2 ++ e3).
Proof.
  unfold bound_unmapped. intros [H0 H1].
  split; intros H; apply in_or_app; right; apply in_or_app; left; auto.
Qed.

Lemma rproc_handle_resources_unmaps (phys_addr_bits : Z) (e : env)
    (rsc : list fw_resource) (len bootaddr b' r : Z) (m m' : machine)
    (evs : list event) :
  rproc_handle_resources phys_addr_bits e rsc len bootaddr m =
    Ret (r, b') m' evs ->
  r <> 0 -> bound_unmapped m' evs.
Proof.
  unfold rproc_handle_resources. intros H Hr. apply bind_inv in H.
  destruct H as ([r1 b1] & s1 & e1 & e2 & H1 & H2 & ->).
  apply nonzero_true in Hr. unfold when in H2.
  rewrite bind_get_rproc in H2.
  destruct (nonzero r1) eqn:Hr1.
  2: { cbn [andb] in H2. run_in H2. congruence. }
  cbn [andb] in H2. unfold bound_unmapped.
  destruct (nonzero (trace_buf0 (this s1))) eqn:H0;
    destruct (nonzero (trace_buf1 (this s1))) eqn:H1';
    run_in H2;
    (split; intros Hb; apply in_or_app; right; simpl; auto;
     try (apply nonzero_false in H0; contradiction);
     try (apply nonzero_false in H1'; contradiction)).

Qed.

Lemma process_fw_loop_unmaps (phys_addr_bits : Z) (e : env) (fuel : nat) :
  forall section left bootaddr b' r m m' evs,
  process_fw_loop phys_addr_bits e fuel section left bootaddr m =
    Ret (r, b') m' evs ->
  existsb is_trace_refused evs = true ->
  bound_unmapped m' evs.
Proof.
  induction fuel as [|fuel IH];
    intros section left bootaddr b' r m m' evs H; [discriminate|].
  cbn [process_fw_loop] in H.
  destruct (size_t_gt _ _); [|run_in H; discriminate].
  destruct (read_fw_section section) as [hdr|]; [|discriminate].
  destruct (to_u32 _ <? _); [run_in H; discriminate|].
  rewrite bind_get_rproc in H.
  destruct (rproc_da_to_pa _ _ _) as [pa|]; [|run_in H; discriminate].
  rewrite bind_do_ioremap in H. cbn beta iota zeta in H.
  destruct (negb (nonzero _)); [run_in H; discriminate|].
  destruct (bytes_at _ _ _) as [content|]; [|discriminate].
  rewrite bind_emit in H.
  destruct (bind _ _ _) as [[r0 b0] s0 e0|] eqn:Hrest; [|discriminate].
  cbn in H. inversion H; subst; clear H.
  apply bind_inv in Hrest.
  destruct Hrest as ([r1 b1] & s1 & e1 & e2 & H1 & H2 & ->).
  rewrite bind_emit in H2.
  cbn [existsb is_trace_refused orb]. rewrite existsb_app.
  destruct (sec_type hdr =? FW_RESOURCE).
  - pose proof (rproc_handle_resources_refused _ _ _ _ _ _ _ _ _ _ H1)
      as [Hr1 _].
    destruct (nonzero r1) eqn:Hnz.
    + run_in H2. intros _.
      apply (bound_unmapped_app m' [_; _] e1 [_]).
      eapply rproc_handle_resources_unmaps; [exact H1|].
      apply nonzero_true. exact Hnz.
    + destruct (process_fw_loop _ _ _ _ _ _ _) as [[r2 b2] s2 e3|] eqn:H3;
        [|discriminate].
      cbn in H2. inversion H2; subst; clear H2.
      cbn [existsb is_trace_refused orb]. intros Hex.
      apply orb_true_iff in Hex. destruct Hex as [Hex|Hex].
      * apply Hr1 in Hex. apply nonzero_false in Hnz. contradiction.
      * apply IH in H3; [|exact Hex].
        destruct H3 as [Ha Hb]. split; intros Hbound.
        -- right. right. apply in_or_app. right. right. auto.
        -- right. right. apply in_or_app. right. right. auto.
  - run_in H1. cbn [existsb orb]. cbn [nonzero Z.eqb negb] in H2.
    destruct (process_fw_loop _ _ _ _ _ _ _) as [[r2 b2] s2 e3|] eqn:H3;
      [|discriminate].
    cbn in H2. inversion H2; subst; clear H2. cbn. intros Hex.
    apply IH in H3; [|exact Hex].
    destruct H3 as [Ha Hb]. split; intros Hbound; right; right; right; auto.
Qed.

(** X12.  A load in which a trace entry was refused has unmapped every
    trace buffer that is still recorded in the processor, because the
    resource loop unmaps on failure without clearing the slots.  The
    last [rproc_put] then unmaps the same pointers a second time. *)
Theorem refused_trace_unmapped_twice (phys_addr_bits : Z) (e : env)
    (fw : option (list byte)) (m m' : machine) (evs : list event)
    (ptr : Z) :
  rproc_load_fw phys_addr_bits e fw m = Ret tt m' evs ->
  existsb is_trace_refused evs = true ->
  count (this m) = 1 ->
  mutex_lock_interruptible e = 0 ->
  ptr <> 0 ->
  ptr = trace_buf0 (this m') \/ ptr = trace_buf1 (this m') ->
  In (EvIounmap ptr) evs /\
  exists r' evs',
    rproc_put e (this m') = Ret tt r' evs' /\ In (EvIounmap ptr) evs'.
Proof.
  intros H Href Hc Hlock Hptr Hslot.
  destruct (ends_completed_load_fw phys_addr_bits e fw m tt m' evs H)
    as [Hdone _].
  destruct (load_keeps_load_fw phys_addr_bits e fw m tt m' evs H)
    as (Hcount & _).
  assert (Hrange : 0 < count (this m') <= INT_MAX)
    by (rewrite Hcount, Hc; unfold INT_MAX; simpl; lia).
  split.
  - assert (Hun : bound_unmapped m' evs).
    { revert H Href. unfold rproc_load_fw, rproc_process_fw, complete_all.
      intros H. destruct fw as [data|]; [|run_in H; discriminate].
      rewrite bind_emit in H.
      destruct (Z.of_nat (length data) <? sizeof_fw_header);
        [run_in H; discriminate|].
      destruct (negb (magic_ok data)); [run_in H; discriminate|].
      rewrite !bind_bind, bind_emit in H. rewrite bind_bind in H.
      destruct (bind _ _ _) as [[] s0 e0|] eqn:Hrest; [|discriminate].
      cbn in H. inversion H; subst; clear H.
      apply bind_inv in Hrest.
      destruct Hrest as ([r b] & s1 & e1 & e2 & H1 & H2 & ->).
      pose proof (process_fw_loop_refused _ _ _ _ _ _ _ _ _ _ _ H1)
        as [Hr _].
      cbn [existsb is_trace_refused orb]. rewrite existsb_app.
      destruct (nonzero r) eqn:Hnz.
      + run_in H2. cbn. rewrite !orb_false_r. intros Hex.
        apply (process_fw_loop_unmaps _ _ _ _ _ _ _ _ _ _ _ H1) in Hex.
        destruct Hex as [Ha Hb]. unfold bound_unmapped. simpl.
        split; intros Hbound; right; right; apply in_or_app; left; auto.
      + intros Hex. exfalso. apply orb_true_iff in Hex.
        destruct Hex as [Hex|Hex].
        * apply Hr in Hex. apply nonzero_false in Hnz. contradiction.
        * unfold rproc_start in H2. rewrite !bind_bind in H2.
          run_in H2; cbn in Hex; discriminate. }
    destruct Hun as [H0 H1]. destruct Hslot as [->| ->]; auto.
  - rewrite (rproc_put_cases e (this m') Hrange Hdone Hlock), Hcount, Hc.
    change (nonzero (1 - 1)) with false. cbn iota.
    assert (Hin : In (EvIounmap ptr) (unmaps (this m'))).
    { unfold unmaps. apply nonzero_true in Hptr.
      destruct Hslot as [->| ->]; rewrite Hptr; apply in_or_app;
        [left | right]; simpl; auto. }
    destruct (rproc_state_eqb _ _ && _); eexists _, _;
      (split; [reflexivity|]); right; apply in_or_app; left; exact Hin.
Qed.

Lemma refused_trace_unmapped_twice_witness :
  In (EvIounmap 4097)
    (match rproc_load_fw 32 quiet_env (Some three_trace_image)
             loading_machine with
     | Ret _ _ evs => evs
     | Stuck _ => []
     end) /\
  exists r' evs',
    rproc_put quiet_env
      (match rproc_load_fw 32 quiet_env (Some three_trace_image)
               loading_machine with
       | Ret _ m' _ => this m'
       | Stuck _ => fresh_rproc
       end) = Ret tt r' evs' /\ In (EvIounmap 4097) evs'.
Proof.
  destruct (rproc_load_fw 32 quiet_env (Some three_trace_image)
              loading_machine) as [[] m' evs|w] eqn:E;
    [|vm_compute in E; discriminate E].
  apply (refused_trace_unmapped_twice 32 quiet_env (Some three_trace_image)
           loading_machine m' evs 4097 E);
    try reflexivity; try discriminate;
    vm_compute in E; inversion E; subst; auto.
Defined.

(** ** The load callback at the edges of the image *)

(** X13.  A blob that fails the header checks, shorter than the fixed
    header or without the magic (in this order), is released: nothing is
    mapped, the backend is not called and the record only has its
    completion signalled. *)
Theorem rproc_load_fw_bad_header (phys_addr_bits : Z) (e : env)
    (data : list byte) (m : machine) :
  Z.of_nat (length data) < sizeof_fw_header \/ magic_ok data = false ->
  rproc_load_fw phys_addr_bits e (Some data) m =
    Ret tt {| this := with_completion true (this m); ioremaps := ioremaps m |}
      [EvInfo "Loaded fw image";
       EvErr (if Z.of_nat (length data) <? sizeof_fw_header
              then "Image is too small"
              else "Image is corrupted (bad magic)");
       EvReleaseFirmware; EvCompleteAll].
Proof.
  intros H. unfold rproc_load_fw, complete_all.
  destruct (Z.ltb_spec (Z.of_nat (length data)) sizeof_fw_header)
    as [Hs|Hs].
  - repeat step. reflexivity.
  - destruct H as [H|H]; [lia|]. rewrite H. cbn [negb].
    repeat step. reflexivity.
Qed.

Lemma rproc_load_fw_bad_header_witness :
  rproc_load_fw 32 quiet_env (Some bad_magic_image) loading_machine =
    Ret tt
      {| this := with_completion true (this loading_machine);
         ioremaps := ioremaps loading_machine |}
      [EvInfo "Loaded fw image"; EvErr "Image is corrupted (bad magic)";
       EvReleaseFirmware; EvCompleteAll].
Proof.
  apply (rproc_load_fw_bad_header 32 quiet_env bad_magic_image
           loading_machine).
  right. reflexivity.
Defined.

(** X14.  An image whose section area is empty, or holds no more than one
    section header's worth of bytes, is not an error: nothing is read from
    that area, nothing is mapped, and the backend is started at boot
    address 0. *)
Theorem rproc_load_fw_no_section (phys_addr_bits : Z) (e : env)
    (data : list byte) (m : machine) :
  magic_ok data = true ->
  0 <= Z.of_nat (length data) - sizeof_fw_header
         - le_val (firstn 4 (skipn 8 data)) <= sizeof_fw_section ->
  mutex_lock_interruptible e = 0 ->
  exists m' tail,
    rproc_load_fw phys_addr_bits e (Some data) m =
      Ret tt m'
        (EvInfo "Loaded fw image" :: EvInfo "BIOS image version" ::
         EvMutexLock 0 :: EvStart 0 (ops_start e 0) :: tail) /\
    ioremaps m' = ioremaps m.
Proof.
  unfold sizeof_fw_header, sizeof_fw_section. intros Hmagic Hleft Hlock.
  pose proof (le_val_nonneg (firstn 4 (skipn 8 data))) as Hle.
  assert (Hsize : (Z.of_nat (length data) <? sizeof_fw_header) = false)
    by (apply Z.ltb_ge; unfold sizeof_fw_header; lia).
  unfold rproc_load_fw, rproc_process_fw. rewrite Hsize, Hmagic.
  cbn [negb process_fw_loop]. unfold sizeof_fw_header.
  rewrite wrap_int_small by (unfold INT_MAX; lia).
  replace (size_t_gt _ sizeof_fw_section) with false.
  2: { symmetry. unfold size_t_gt, sizeof_fw_section.
       apply orb_false_iff. split; [apply Z.ltb_ge | apply Z.ltb_ge]; lia. }
  unfold rproc_start, complete_all. rewrite Hlock.
  change (nonzero 0) with false. cbn beta iota zeta.
  repeat step. change (nonzero 0) with false. cbn beta iota zeta.
  repeat step.
  destruct (nonzero (ops_start e 0)); repeat step; cbn;
    eexists _, _; split; reflexivity.
Qed.

Lemma rproc_load_fw_no_section_witness :
  exists m' tail,
    rproc_load_fw 32 quiet_env (Some (fw_image rprc [])) loading_machine =
      Ret tt m'
        (EvInfo "Loaded fw image" :: EvInfo "BIOS image version" ::
         EvMutexLock 0 :: EvStart 0 (ops_start quiet_env 0) :: tail) /\
    ioremaps m' = ioremaps loading_machine.
Proof.
  apply (rproc_load_fw_no_section 32 quiet_env (fw_image rprc [])
           loading_machine); try reflexivity.
  vm_compute. split; discriminate.
Defined.

(** X15.  [header_len] is not checked against the size of the blob.  When
    it points past the end of the blob (by no more than 2^31 bytes, so that
    [left] comes out negative) the section loop runs and reads its first
    section header out of bounds. *)
Theorem rproc_load_fw_header_len_unchecked (phys_addr_bits : Z) (e : env)
    (data : list byte) (m : machine) :
  magic_ok data = true ->
  sizeof_fw_header <= Z.of_nat (length data) ->
  Z.of_nat (length data) - sizeof_fw_header
    < le_val (firstn 4 (skipn 8 data))
    <= Z.of_nat (length data) - sizeof_fw_header + 2 ^ 31 ->
  rproc_load_fw phys_addr_bits e (Some data) m = Stuck OutOfBounds.
Proof.
  unfold sizeof_fw_header. intros Hmagic Hsize Hlen.
  change (2 ^ 31) with 2147483648 in Hlen.
  assert (Hs : (Z.of_nat (length data) <? sizeof_fw_header) = false)
    by (apply Z.ltb_ge; unfold sizeof_fw_header; lia).
  unfold rproc_load_fw, rproc_process_fw. rewrite Hs, Hmagic.
  cbn [negb]. unfold sizeof_fw_header.
  rewrite wrap_int_small by (unfold INT_MAX; lia).
  rewrite skipn_all2 by lia.
  cbn [length process_fw_loop].
  replace (size_t_gt _ sizeof_fw_section) with true.
  2: { symmetry. unfold size_t_gt. apply orb_true_iff. left.
       apply Z.ltb_lt. lia. }
  reflexivity.
Qed.

Lemma rproc_load_fw_header_len_unchecked_witness :
  rproc_load_fw 32 quiet_env
    (Some (rprc ++ le_bytes 4 1 ++ le_bytes 4 8 ++ [x00; x00]))
    loading_machine = Stuck OutOfBounds.
Proof.
  apply (rproc_load_fw_header_len_unchecked 32 quiet_env
           (rprc ++ le_bytes 4 1 ++ le_bytes 4 8 ++ [x00; x00])
           loading_machine).
  - reflexivity.
  - vm_compute. discriminate.
  - vm_compute. split; [reflexivity | discriminate].
Defined.

(** ** The resource table *)

(** X16.  Resource kinds other than TRACE and BOOTADDR are skipped in
    silence, and bytes after the last whole entry are not looked at: a
    table whose whole entries are all of other kinds is handled with
    success, without an event and without a change to the boot address or
    the processor. *)
Theorem rproc_handle_resources_ignored (phys_addr_bits : Z) (e : env)
    (rsc : list fw_resource) (len bootaddr : Z) (m : machine) :
  0 <= len <= INT_MAX ->
  len / sizeof_fw_resource <= Z.of_nat (length rsc) ->
  (forall entry,
     In entry (firstn (Z.to_nat (len / sizeof_fw_resource)) rsc) ->
     rsc_type entry <> RSC_TRACE /\ rsc_type entry <> RSC_BOOTADDR) ->
  rproc_handle_resources phys_addr_bits e rsc len bootaddr m =
    Ret (0, bootaddr) m [].
Proof.
  unfold sizeof_fw_resource. intros Hlen Hfit Hkinds.
  assert (Hloop : handle_resources_loop phys_addr_bits e rsc len bootaddr m =
                  Ret (0, bootaddr) m []).
  { revert len Hlen Hfit Hkinds.
    induction rsc as [|entry rest IH]; intros len Hlen Hfit Hkinds;
      cbn [handle_resources_loop]; unfold size_t_ge, sizeof_fw_resource;
      replace (len <? 0) with false by (symmetry; apply Z.ltb_ge; lia);
      cbn [orb].
    - simpl in Hfit.
      assert (len < 76).
      { destruct (Z_lt_ge_dec len 76); [assumption|].
        assert (1 <= len / 76) by (apply Z.div_le_lower_bound; lia). lia. }
      replace (76 <=? len) with false by (symmetry; apply Z.leb_gt; lia).
      reflexivity.
    - destruct (Z.leb_spec 76 len) as [Hge|Hlt]; [|reflexivity].
      assert (Hdiv : len / 76 = (len - 76) / 76 + 1).
      { replace len with ((len - 76) + 1 * 76) at 1 by lia.
        rewrite Z.div_add by lia. reflexivity. }
      assert (Hpos : 0 <= (len - 76) / 76) by (apply Z.div_pos; lia).
      destruct (Hkinds entry) as [Ht Hb].
      { rewrite Hdiv, Z2Nat.inj_add by lia.
        rewrite Nat.add_comm. simpl. auto. }
      unfold handle_resource.
      apply Z.eqb_neq in Ht, Hb. rewrite Ht, Hb. rewrite bind_ret.
      cbn [nonzero Z.eqb negb].
      rewrite wrap_int_small by (unfold INT_MAX in *; lia).
      apply IH.
      + lia.
      + rewrite length_cons, Nat2Z.inj_succ in Hfit. lia.
      + intros entry' Hin. apply Hkinds.
        rewrite Hdiv, Z2Nat.inj_add by lia.
        rewrite Nat.add_comm. simpl. auto. }
  unfold rproc_handle_resources, bind at 1. rewrite Hloop.
  repeat step. reflexivity.
Qed.

Lemma rproc_handle_resources_ignored_witness :
  rproc_handle_resources 32 quiet_env
    [{| rsc_type := RSC_CARVEOUT; rsc_da := 4096; rsc_pa := 0;
        rsc_len := 4096; rsc_flags := 0; rsc_name := [] |}]
    100 4096 loading_machine = Ret (0, 4096) loading_machine [].
Proof.
  apply (rproc_handle_resources_ignored 32 quiet_env _ 100 4096
           loading_machine).
  - unfold INT_MAX. lia.
  - vm_compute. discriminate.
  - intros entry [<-|[]]. split; discriminate.
Defined.

(** X17.  One TRACE entry.  When [rproc_handle_trace_rsc] returns 0 it has
    mapped the translated address and bound the mapping, with the length of
    the entry, to the first slot if that was free and else to the second,
    leaving the other slot alone.  When it returns an error the processor
    record is unchanged, and the error is [-EINVAL], [-EBUSY] or
    [-ENOMEM]. *)
Theorem rproc_handle_trace_rsc_result (phys_addr_bits : Z) (e : env)
    (rsc : fw_resource) (m m' : machine) (r : Z) (evs : list event) :
  rproc_handle_trace_rsc phys_addr_bits e rsc m = Ret r m' evs ->
  if r =? 0 then
    exists pa,
      rproc_da_to_pa phys_addr_bits (memory_maps (this m)) (rsc_da rsc)
        = Some pa /\
      let ptr := ioremap_nocache e (ioremaps m) pa (rsc_len rsc) in
      ptr <> 0 /\
      this m' =
        (if trace_buf0 (this m) =? 0
         then with_trace0 ptr (wrap_int (rsc_len rsc)) (this m)
         else with_trace1 ptr (wrap_int (rsc_len rsc)) (this m)) /\
      (trace_buf0 (this m) = 0 \/ trace_buf1 (this m) = 0)
  else
    this m' = this m /\ (r = - EINVAL \/ r = - EBUSY \/ r = - ENOMEM).
Proof.
  intros H. unfold rproc_handle_trace_rsc in H.
  rewrite bind_get_rproc in H.
  destruct (rproc_da_to_pa _ _ _) as [pa|] eqn:Hpa.
  2: { run_in H. cbn. auto. }
  destruct (nonzero (trace_buf0 (this m)) && nonzero (trace_buf1 (this m)))
    eqn:Hfull.
  { run_in H. cbn. auto. }
  rewrite bind_do_ioremap in H. cbn beta iota zeta in H.
  destruct (nonzero (ioremap_nocache e (ioremaps m) pa (rsc_len rsc)))
    eqn:Hptr; cbn [negb] in H.
  2: { run_in H. cbn. auto. }
  apply nonzero_true in Hptr.
  apply andb_false_iff in Hfull.
  unfold nonzero in H, Hfull.
  destruct (Z.eqb_spec (trace_buf0 (this m)) 0) as [H0|H0];
    cbn [negb] in H; run_in H; cbn [Z.eqb];
    exists pa; (split; [reflexivity|]); cbn zeta;
    (split; [exact Hptr|]); (split; [reflexivity|]).
  - left. exact H0.
  - right. destruct Hfull as [Hf|Hf]; [discriminate Hf|].
    apply negb_false_iff, Z.eqb_eq in Hf. exact Hf.
Qed.

Lemma rproc_handle_trace_rsc_result_witness :
  exists pa,
    rproc_da_to_pa 32 (memory_maps (this loading_machine)) 4096 = Some pa /\
    let ptr := ioremap_nocache quiet_env (ioremaps loading_machine) pa 1024 in
    ptr <> 0 /\
    with_trace0 4096 1024 loading_rproc =
      (if trace_buf0 (this loading_machine) =? 0
       then with_trace0 ptr (wrap_int 1024) (this loading_machine)
       else with_trace1 ptr (wrap_int 1024) (this loading_machine)) /\
    (trace_buf0 (this loading_machine) = 0 \/
     trace_buf1 (this loading_machine) = 0).
Proof.
  apply (rproc_handle_trace_rsc_result 32 quiet_env (trace_entry 4096 1024)
           loading_machine
           {| this := with_trace0 4096 1024 loading_rproc; ioremaps := 1 |}
           0 [EvIoremap 4096 1024 4096; EvDebugfsAdd "trace0"]).
  reflexivity.
Defined.

(** ** The address table *)

(** X18.  A zero-size entry ends the table: what comes after it is never
    consulted. *)
Theorem rproc_da_to_pa_sentinel (phys_addr_bits : Z)
    (before after : list rproc_mem_entry) (sentinel : rproc_mem_entry)
    (da : Z) :
  me_size sentinel = 0 ->
  rproc_da_to_pa phys_addr_bits (Some (before ++ sentinel :: after)) da =
  rproc_da_to_pa phys_addr_bits (Some before) da.
Proof.
  intros Hz. unfold rproc_da_to_pa.
  induction before as [|me rest IH]; simpl.
  - rewrite Hz. reflexivity.
  - rewrite IH. reflexivity.
Qed.

Lemma rproc_da_to_pa_sentinel_witness :
  rproc_da_to_pa 32
    (Some ([] ++ {| me_da := 0; me_pa := 0; me_size := 0 |}
              :: [{| me_da := 4096; me_pa := 8192; me_size := 4096 |}]))
    4096 =
  rproc_da_to_pa 32 (Some []) 4096.
Proof.
  apply (rproc_da_to_pa_sentinel 32 []
           [{| me_da := 4096; me_pa := 8192; me_size := 4096 |}]
           {| me_da := 0; me_pa := 0; me_size := 0 |} 4096).
  reflexivity.
Defined.

(** X19.  The end of a range is computed in 64 bits.  An entry whose range
    reaches or passes the top of the 64-bit device address space matches no
    address at all, not even its own start. *)
Theorem rproc_da_to_pa_wrapped_entry (phys_addr_bits : Z)
    (me : rproc_mem_entry) (rest : list rproc_mem_entry) (da : Z) :
  0 <= me_da me < 2 ^ 64 ->
  0 < me_size me < 2 ^ 32 ->
  2 ^ 64 <= me_da me + me_size me ->
  rproc_da_to_pa phys_addr_bits (Some (me :: rest)) da =
  rproc_da_to_pa phys_addr_bits (Some rest) da.
Proof.
  change (2 ^ 64) with 18446744073709551616.
  change (2 ^ 32) with 4294967296.
  intros Hda Hsz Hwrap. unfold rproc_da_to_pa. cbn [da_to_pa_loop].
  destruct (Z.eqb_spec (me_size me) 0) as [Hz|_]; [lia|].
  unfold to_u64. change (2 ^ 64) with 18446744073709551616.
  replace ((me_da me + me_size me) mod 18446744073709551616)
    with (me_da me + me_size me - 18446744073709551616).
  2: { symmetry.
       rewrite <- (Z.mod_small
                    (me_da me + me_size me - 18446744073709551616)
                    18446744073709551616) by lia.
       replace (me_da me + me_size me)
         with (me_da me + me_size me - 18446744073709551616
               + 1 * 18446744073709551616) at 1 by lia.
       apply Z.mod_add. lia. }
  replace ((me_da me <=? da)
           && (da <? me_da me + me_size me - 18446744073709551616))
    with false; [reflexivity|].
  symmetry. apply andb_false_iff.
  destruct (Z.leb_spec (me_da me) da); [right|left; reflexivity].
  apply Z.ltb_ge. lia.
Qed.

Lemma rproc_da_to_pa_wrapped_entry_witness :
  rproc_da_to_pa 32
    (Some [{| me_da := 18446744073709547520; me_pa := 0; me_size := 4096 |}])
    18446744073709547520 =
  rproc_da_to_pa 32 (Some []) 18446744073709547520.
Proof.
  apply (rproc_da_to_pa_wrapped_entry 32
           {| me_da := 18446744073709547520; me_pa := 0; me_size := 4096 |}
           [] 18446744073709547520); simpl; lia.
Defined.

(** ** Reading a trace buffer *)

Lemma trace_end_from_spec (buf : list byte) :
  forall i size n,
  trace_end_from i buf size = Some n ->
  i <= n /\ (n <= size \/ n = i) /\
  n - i <= Z.of_nat (length buf) /\
  Forall (fun b => byte_val b <> 0) (firstn (Z.to_nat (n - i)) buf) /\
  (n < size -> exists b, nth_error buf (Z.to_nat (n - i)) = Some b /\
                         byte_val b = 0).
Proof.
  induction buf as [|b rest IH]; intros i size n H; cbn [trace_end_from] in H.
  - destruct (Z.ltb_spec i size); [discriminate|]. inversion H; subst.
    rewrite Z.sub_diag. cbn [Z.to_nat firstn length Z.of_nat].
    repeat split; try lia; auto.
  - rewrite length_cons, Nat2Z.inj_succ.
    destruct (Z.ltb_spec i size) as [Hlt|Hge].
    + destruct (nonzero (byte_val b)) eqn:Hb.
      * apply IH in H. destruct H as (H1 & H2 & H3 & H4 & H5).
        apply nonzero_true in Hb.
        replace (Z.to_nat (n - i)) with (S (Z.to_nat (n - (i + 1)))) by lia.
        cbn [firstn nth_error].
        repeat split; try lia; auto.
      * inversion H; subst. rewrite Z.sub_diag.
        cbn [Z.to_nat firstn nth_error].
        apply nonzero_false in Hb. repeat split; try lia; eauto.
    + inversion H; subst. rewrite Z.sub_diag. cbn [Z.to_nat firstn].
      repeat split; try lia; auto.
Qed.

Lemma trace_end_from_total (buf : list byte) :
  forall i size,
  size - i <= Z.of_nat (length buf) ->
  exists n, trace_end_from i buf size = Some n.
Proof.
  induction buf as [|b rest IH]; intros i size H; cbn [trace_end_from].
  - simpl in H. destruct (Z.ltb_spec i size); [lia | eauto].
  - destruct (Z.ltb_spec i size); [|eauto].
    destruct (nonzero (byte_val b)); [|eauto].
    apply IH. rewrite length_cons, Nat2Z.inj_succ in H. lia.
Qed.

(** X20.  A read of a trace file.  With a buffer that holds at least
    [size] bytes, [rproc_format_trace_buf] hands [simple_read_from_buffer]
    the buffer and a length [n] that is at most [size] (0 when [size] is
    not positive): the [n] bytes before it are all non-NUL, and when [n]
    is below [size] the byte at [n] is the first NUL byte.  The text after
    a NUL byte is never shown. *)
Theorem rproc_format_trace_buf_prefix (read_result : Type)
    (simple_read_from_buffer : Z -> Z -> list byte -> Z -> read_result)
    (count ppos : Z) (src : list byte) (size : Z) :
  size <= Z.of_nat (length src) ->
  exists n,
    rproc_format_trace_buf read_result simple_read_from_buffer
      count ppos src size =
      Some (simple_read_from_buffer count ppos src n) /\
    0 <= n /\ n <= Z.max 0 size /\
    Forall (fun b => byte_val b <> 0) (firstn (Z.to_nat n) src) /\
    (n < size -> exists b, nth_error src (Z.to_nat n) = Some b /\
                           byte_val b = 0).
Proof.
  intros Hsize. unfold rproc_format_trace_buf.
  destruct (trace_end_from_total src 0 size) as [n Hn]; [lia|].
  rewrite Hn. exists n. split; [reflexivity|].
  apply trace_end_from_spec in Hn.
  rewrite Z.sub_0_r in Hn. destruct Hn as (H1 & H2 & H3 & H4 & H5).
  repeat split; auto; lia.
Qed.

Lemma rproc_format_trace_buf_prefix_witness :
  exists n,
    rproc_format_trace_buf (list byte)
      (fun _ _ src n => firstn (Z.to_nat n) src) 100 0
      [x68; x69; x00; x78] 4 =
      Some (firstn (Z.to_nat n) [x68; x69; x00; x78]) /\
    0 <= n /\ n <= Z.max 0 4 /\
    Forall (fun b => byte_val b <> 0)
      (firstn (Z.to_nat n) [x68; x69; x00; x78]) /\
    (n < 4 -> exists b, nth_error [x68; x69; x00; x78] (Z.to_nat n) = Some b /\
                        byte_val b = 0).
Proof.
  apply (rproc_format_trace_buf_prefix (list byte)
           (fun _ _ src n => firstn (Z.to_nat n) src) 100 0
           [x68; x69; x00; x78] 4).
  simpl. lia.
Defined.

(** ** The OMAP4 backend: mapping a region *)

Lemma wrap_int_range (x : Z) : - 2 ^ 31 <= wrap_int x < 2 ^ 31.
Proof.
  unfold wrap_int. change (2 ^ 31) with 2147483648.
  change (2 ^ 32) with 4294967296.
  pose proof (Z.mod_pos_bound (x + 2147483648) 4294967296). lia.
Qed.

Lemma to_u32_wrap_int (x : Z) : to_u32 (wrap_int x) = to_u32 x.
Proof.
  unfold to_u32, wrap_int. change (2 ^ 31) with 2147483648.
  change (2 ^ 32) with 4294967296.
  rewrite Zminus_mod_idemp_l. f_equal. lia.
Qed.

Lemma to_u32_range (x : Z) : 0 <= to_u32 x < 2 ^ 32.
Proof. unfold to_u32. apply Z.mod_pos_bound. reflexivity. Qed.

Lemma int_zero_iff (x : Z) :
  - 2 ^ 31 <= x < 2 ^ 31 -> (x = 0 <-> to_u32 x = 0).
Proof.
  unfold to_u32. change (2 ^ 31) with 2147483648.
  change (2 ^ 32) with 4294967296. intros H. split.
  - intros ->. reflexivity.
  - intros Hm. destruct (Z_lt_ge_dec x 0) as [Hneg|Hpos].
    + replace x with (x + 4294967296 + (-1) * 4294967296) in Hm by lia.
      rewrite Z.mod_add, Z.mod_small in Hm by lia. lia.
    + rewrite Z.mod_small in Hm by lia. exact Hm.
Qed.

Lemma to_u32_sub (x pg : Z) :
  0 <= pg <= to_u32 x -> to_u32 (x - pg) = to_u32 x - pg.
Proof.
  intros H. pose proof (to_u32_range x) as Hr. unfold to_u32 in *.
  rewrite <- Zminus_mod_idemp_l. apply Z.mod_small. lia.
Qed.

(** Alignment of [a | b] to a power of two is alignment of both. *)
Lemma land_lor_aligned (k a b : Z) :
  0 <= k ->
  (Z.land (Z.lor a b) (2 ^ k - 1) =? 0) = true <->
  a mod 2 ^ k = 0 /\ b mod 2 ^ k = 0.
Proof.
  intros Hk. rewrite Z.eqb_eq.
  replace (2 ^ k - 1) with (Z.ones k) by (rewrite Z.ones_equiv; lia).
  rewrite Z.land_lor_distr_l, Z.lor_eq_0_iff, !Z.land_ones by exact Hk.
  reflexivity.
Qed.

Lemma to_u32_mod (x pg : Z) : (pg | 2 ^ 32) -> to_u32 x mod pg = x mod pg.
Proof. intros H. unfold to_u32. apply Z.mod_mod_divide. exact H. Qed.

Lemma pg_size_pow2 (pg : Z) :
  In pg pg_size -> exists k, 12 <= k <= 24 /\ pg = 2 ^ k.
Proof.
  unfold pg_size. simpl.
  intros [<-|[<-|[<-|[<-|[]]]]];
    [exists 24 | exists 20 | exists 16 | exists 12]; split; try lia;
    reflexivity.
Qed.

Lemma pg_size_divides (pg : Z) :
  In pg pg_size -> (SZ_4K | pg) /\ (pg | 2 ^ 32) /\ SZ_4K <= pg.
Proof.
  unfold pg_size. simpl.
  intros [<-|[<-|[<-|[<-|[]]]]]; (split; [|split]);
    try (unfold SZ_4K, SZ_64K, SZ_1M, SZ_16M; lia).
  - exists 4096. reflexivity.
  - exists 256. reflexivity.
  - exists 256. reflexivity.
  - exists 4096. reflexivity.
  - exists 16. reflexivity.
  - exists 65536. reflexivity.
  - exists 1. reflexivity.
  - exists 1048576. reflexivity.
Qed.

(** The test of the [for] loop, for a page of [2 ^ k] bytes. *)
Lemma page_test_fits (k size da pa : Z) :
  0 <= k ->
  ((2 ^ k <=? to_u32 size)
   && (Z.land (Z.lor pa da) (2 ^ k - 1) =? 0)) = true <->
  page_fits da pa (to_u32 size) (2 ^ k).
Proof.
  intros Hk. unfold page_fits.
  rewrite andb_true_iff, Z.leb_le, (land_lor_aligned k pa da Hk). tauto.
Qed.

Lemma pick_page_fits (size da pa : Z) :
  page_fits da pa (to_u32 size) SZ_4K ->
  exists pg,
    nth_error pg_size (pick_page pg_size 0 size (Z.lor pa da)) = Some pg /\
    In pg pg_size /\
    page_fits da pa (to_u32 size) pg /\
    (forall pg', In pg' pg_size -> pg < pg' ->
                 ~ page_fits da pa (to_u32 size) pg').
Proof.
  intros H4K. unfold pg_size. cbn [pick_page].
  change SZ_16M with (2 ^ 24). change SZ_1M with (2 ^ 20).
  change SZ_64K with (2 ^ 16). change SZ_4K with (2 ^ 12) in *.
  pose proof (page_test_fits 24 size da pa) as T24.
  pose proof (page_test_fits 20 size da pa) as T20.
  pose proof (page_test_fits 16 size da pa) as T16.
  pose proof (page_test_fits 12 size da pa) as T12.
  destruct ((2 ^ 24 <=? to_u32 size) && _) eqn:E24.
  { exists (2 ^ 24). split; [reflexivity|]. split; [simpl; auto|].
    split; [apply T24; [lia | reflexivity]|].
    intros pg' [<-|[<-|[<-|[<-|[]]]]] Hlt; lia. }
  destruct ((2 ^ 20 <=? to_u32 size) && _) eqn:E20.
  { exists (2 ^ 20). split; [reflexivity|]. split; [simpl; auto|].
    split; [apply T20; [lia | reflexivity]|].
    intros pg' [<-|[<-|[<-|[<-|[]]]]] Hlt; try lia.
    intros Hf. apply T24 in Hf; [discriminate Hf | lia]. }
  destruct ((2 ^ 16 <=? to_u32 size) && _) eqn:E16.
  { exists (2 ^ 16). split; [reflexivity|]. split; [simpl; auto|].
    split; [apply T16; [lia | reflexivity]|].
    intros pg' [<-|[<-|[<-|[<-|[]]]]] Hlt; try lia;
      intros Hf; [apply T24 in Hf | apply T20 in Hf]; try lia;
      discriminate Hf. }
  destruct ((2 ^ 12 <=? to_u32 size) && _) eqn:E12.
  { exists (2 ^ 12). split; [reflexivity|]. split; [simpl; auto|].
    split; [exact H4K|].
    intros pg' [<-|[<-|[<-|[<-|[]]]]] Hlt; try lia;
      intros Hf; [apply T24 in Hf | apply T20 in Hf | apply T16 in Hf];
      try lia; discriminate Hf. }
  apply T12 in H4K; [discriminate H4K | lia].
Qed.

Lemma tiles_zero (da pa : Z) (pages : list (Z * Z * Z)) :
  tiles da pa 0 pages -> pages = [].
Proof.
  destruct pages as [|[[d p] pg] rest]; [reflexivity|]. simpl.
  intros (_ & _ & Hin & (Hle & _) & _).
  apply pg_size_divides in Hin. unfold SZ_4K in Hin. lia.
Qed.

Lemma tiles_zero_any (da pa da' pa' : Z) (pages : list (Z * Z * Z)) :
  tiles da pa 0 pages -> tiles da' pa' 0 pages.
Proof. intros H. rewrite (tiles_zero _ _ _ H). reflexivity. Qed.

Section OmapProperties.

Variable oe : omap_env.

Lemma map_unmap_loop_tiles (map : bool) (fuel : nat) :
  forall n size da pa,
  iommu_never_fails oe ->
  - 2 ^ 31 <= size < 2 ^ 31 ->
  to_u32 size mod SZ_4K = 0 ->
  0 <= da -> da mod SZ_4K = 0 -> da + to_u32 size <= 2 ^ 32 ->
  0 <= pa -> pa mod SZ_4K = 0 -> pa + to_u32 size <= 2 ^ 32 ->
  (Z.to_nat (to_u32 size / SZ_4K) < fuel)%nat ->
  exists pages,
    map_unmap_loop oe fuel n size da pa map =
      OmapRet 0 (List.map (page_call oe map) pages) /\
    tiles da pa (to_u32 size) pages.
Proof.
  induction fuel as [|fuel IH];
    intros n size da pa Hok Hint Hsz Hda Hdal Hdar Hpa Hpal Hpar Hfuel;
    [lia|].
  cbn [map_unmap_loop].
  pose proof (to_u32_range size) as Hrem.
  assert (H4pos : 0 < SZ_4K) by reflexivity.
  destruct (nonzero size) eqn:Hnz.
  2: { apply nonzero_false in Hnz. subst size. exists []. split; reflexivity. }
  apply nonzero_true in Hnz.
  assert (Hrem0 : to_u32 size <> 0)
    by (intros H0; apply Hnz; apply (int_zero_iff size Hint); exact H0).
  assert (H4K : SZ_4K <= to_u32 size).
  { unfold SZ_4K in *.
    pose proof (Z.div_mod (to_u32 size) 4096 ltac:(lia)) as Hdm.
    rewrite Hsz in Hdm.
    assert (0 < to_u32 size / 4096)
      by (destruct (Z.eq_dec (to_u32 size / 4096) 0);
          [lia | pose proof (Z.div_pos (to_u32 size) 4096); lia]).
    lia. }
  destruct (pick_page_fits size da pa) as (pg & Hnth & Hin & Hfits & Hbig).
  { unfold page_fits. auto. }
  cbn zeta. rewrite Hnth, Hok. change (nonzero 0) with false. cbn iota.
  destruct (pg_size_divides pg Hin) as (Hdiv4 & Hdiv32 & Hge).
  destruct Hfits as (Hle & Hdpg & Hppg).
  assert (Hrem' : to_u32 (wrap_int (size - pg)) = to_u32 size - pg).
  { rewrite to_u32_wrap_int. apply to_u32_sub. unfold SZ_4K in *. lia. }
  assert (Hmod4 : forall x, x mod pg = 0 -> x mod SZ_4K = 0).
  { intros x Hx. apply Z.mod_divide; [unfold SZ_4K; lia|].
    apply Z.divide_trans with pg; [exact Hdiv4|].
    apply Z.mod_divide; [unfold SZ_4K in *; lia | exact Hx]. }
  assert (Hpgmod : pg mod SZ_4K = 0)
    by (apply Z.mod_divide; [unfold SZ_4K; lia | exact Hdiv4]).
  destruct (IH (S n) (wrap_int (size - pg)) (to_u32 (da + pg))
              (to_u32 (pa + pg))) as (pages & Hrun & Htiles).
  - exact Hok.
  - apply wrap_int_range.
  - rewrite Hrem'. rewrite Zminus_mod, Hsz, Hpgmod. reflexivity.
  - apply to_u32_range.
  - rewrite to_u32_mod by (exists 1048576; reflexivity).
    rewrite Zplus_mod, Hdal, Hpgmod. reflexivity.
  - rewrite Hrem'. pose proof (to_u32_range (da + pg)).
    destruct (Z_lt_ge_dec (da + pg) (2 ^ 32)) as [Hlt|Hge'].
    + unfold to_u32 at 1. rewrite Z.mod_small by lia. lia.
    + assert (to_u32 size = pg) by lia.
      assert (da + pg = 2 ^ 32) by lia.
      replace (to_u32 (da + pg)) with 0
        by (unfold to_u32; replace (da + pg) with (2 ^ 32) by lia;
            reflexivity).
      lia.
  - apply to_u32_range.
  - rewrite to_u32_mod by (exists 1048576; reflexivity).
    rewrite Zplus_mod, Hpal, Hpgmod. reflexivity.
  - rewrite Hrem'. pose proof (to_u32_range (pa + pg)).
    destruct (Z_lt_ge_dec (pa + pg) (2 ^ 32)) as [Hlt|Hge'].
    + unfold to_u32 at 1. rewrite Z.mod_small by lia. lia.
    + assert (to_u32 size = pg) by lia.
      replace (to_u32 (pa + pg)) with 0
        by (unfold to_u32; replace (pa + pg) with (2 ^ 32) by lia;
            reflexivity).
      lia.
  - rewrite Hrem'. unfold SZ_4K in *.
    assert (to_u32 size / 4096 = (to_u32 size - pg) / 4096 + pg / 4096).
    { destruct Hdiv4 as [q Hq]. subst pg.
      rewrite Z.div_mul by lia.
      replace (to_u32 size) with (to_u32 size - q * 4096 + q * 4096)
        at 1 by lia.
      rewrite Z.div_add by lia. reflexivity. }
    assert (1 <= pg / 4096) by (apply Z.div_le_lower_bound; lia).
    assert (0 <= (to_u32 size - pg) / 4096) by (apply Z.div_pos; lia).
    lia.
  - rewrite Hrun. exists ((da, pa, pg) :: pages). split; [reflexivity|].
    rewrite Hrem' in Htiles. cbn [tiles].
    repeat split; auto.
    destruct (Z.eq_dec (to_u32 size - pg) 0) as [Hz|Hz].
    + rewrite Hz in *. eapply tiles_zero_any. exact Htiles.
    + unfold to_u32 at 1 2 in Htiles.
      rewrite !Z.mod_small in Htiles by lia. exact Htiles.
Qed.

End OmapProperties.

Lemma IS_ALIGNED_4K (x : Z) : IS_ALIGNED x SZ_4K = true <-> x mod 4096 = 0.
Proof.
  unfold IS_ALIGNED, SZ_4K. change (4096 - 1) with (Z.ones 12).
  rewrite Z.eqb_eq, Z.land_ones by lia. reflexivity.
Qed.

Lemma wrap_int_mod_4K (x : Z) : wrap_int x mod 4096 = x mod 4096.
Proof.
  rewrite <- (to_u32_mod (wrap_int x) 4096) by (exists 1048576; reflexivity).
  rewrite to_u32_wrap_int.
  apply to_u32_mod. exists 1048576. reflexivity.
Qed.

(** The test at the head of [omap_rproc_map_unmap], in arithmetic. *)
Lemma aligned_check (me : rproc_mem_entry) :
  negb (IS_ALIGNED (wrap_int (me_size me)) SZ_4K)
  || negb (IS_ALIGNED (Z.lor (to_u32 (me_da me)) (to_u32 (me_pa me))) SZ_4K)
  = false <->
  me_size me mod 4096 = 0 /\ me_da me mod 4096 = 0 /\ me_pa me mod 4096 = 0.
Proof.
  pose proof (land_lor_aligned 12 (to_u32 (me_da me)) (to_u32 (me_pa me)))
    as Hl.
  change (2 ^ 12) with 4096 in Hl.
  rewrite !to_u32_mod in Hl by (exists 1048576; reflexivity).
  rewrite orb_false_iff, !negb_false_iff, IS_ALIGNED_4K, wrap_int_mod_4K.
  unfold IS_ALIGNED, SZ_4K. rewrite Hl by lia. tauto.
Qed.

(** X21.  With an IOMMU layer that does not fail, a region that is aligned
    to 4 KiB and lies inside the 32-bit device and physical address spaces
    is handled page by page: the calls made are those of a list of pages
    that lie back to back from the start of the region to its end, each of a
    supported size, aligned in both address spaces, and the largest
    supported size that fits where it starts.  The return value is 0.  The
    [int] that counts the bytes left wraps around, as the kernel is built,
    so this holds up to a size of 4 GiB less one page. *)
Theorem omap_rproc_map_unmap_tiles (oe : omap_env) (n : nat)
    (me : rproc_mem_entry) (map : bool) :
  iommu_never_fails oe ->
  0 <= me_da me -> 0 <= me_pa me -> 0 <= me_size me < 2 ^ 32 ->
  me_da me mod 4096 = 0 -> me_pa me mod 4096 = 0 ->
  me_size me mod 4096 = 0 ->
  me_da me + me_size me <= 2 ^ 32 -> me_pa me + me_size me <= 2 ^ 32 ->
  exists pages,
    omap_rproc_map_unmap oe n me map =
      OmapRet 0 (List.map (page_call oe map) pages) /\
    tiles (me_da me) (me_pa me) (me_size me) pages.
Proof.
  intros Hok Hda Hpa Hsz Hdal Hpal Hszl Hdar Hpar.
  unfold omap_rproc_map_unmap.
  destruct (aligned_check me) as [_ Hal]. rewrite Hal by auto.
  assert (Hrem : to_u32 (wrap_int (me_size me)) = me_size me).
  { rewrite to_u32_wrap_int. unfold to_u32. apply Z.mod_small. lia. }
  assert (Hu : forall x, 0 <= x -> x + me_size me <= 2 ^ 32 ->
               x mod 4096 = 0 ->
               0 <= to_u32 x /\ to_u32 x mod SZ_4K = 0 /\
               to_u32 x + me_size me <= 2 ^ 32 /\
               (me_size me <> 0 -> to_u32 x = x)).
  { intros x Hx Hxr Hxl. pose proof (to_u32_range x) as Hr.
    destruct (Z_lt_ge_dec x (2 ^ 32)) as [Hlt|Hge].
    - unfold to_u32 in *. rewrite Z.mod_small by lia.
      unfold SZ_4K. repeat split; auto; lia.
    - assert (x = 2 ^ 32) by lia. subst x.
      change (to_u32 (2 ^ 32)) with 0. unfold SZ_4K.
      repeat split; try lia; reflexivity. }
  destruct (Hu _ Hda Hdar Hdal) as (Hda1 & Hda2 & Hda3 & Hda4).
  destruct (Hu _ Hpa Hpar Hpal) as (Hpa1 & Hpa2 & Hpa3 & Hpa4).
  pose proof (map_unmap_loop_tiles oe map
                (S (Z.to_nat (to_u32 (wrap_int (me_size me)) / SZ_4K)))
                n (wrap_int (me_size me)) (to_u32 (me_da me))
                (to_u32 (me_pa me))) as L.
  rewrite Hrem in *.
  destruct L as (pages & Hrun & Htiles);
    auto; try apply wrap_int_range; try lia.
  exists pages. split; [exact Hrun|].
  destruct (Z.eq_dec (me_size me) 0) as [Hz|Hz].
  - rewrite Hz in *. eapply tiles_zero_any. exact Htiles.
  - rewrite Hda4, Hpa4 in Htiles by exact Hz. exact Htiles.
Qed.

Lemma omap_rproc_map_unmap_tiles_witness :
  exists pages,
    omap_rproc_map_unmap quiet_omap 0 ipu_region true =
      OmapRet 0 (List.map (page_call quiet_omap true) pages) /\
    tiles (me_da ipu_region) (me_pa ipu_region) (me_size ipu_region) pages.
Proof.
  apply (omap_rproc_map_unmap_tiles quiet_omap 0 ipu_region true).
  - intros k call. reflexivity.
  - simpl. lia.
  - simpl. lia.
  - simpl. change (2 ^ 32) with 4294967296. lia.
  - reflexivity.
  - reflexivity.
  - reflexivity.
  - simpl. change (2 ^ 32) with 4294967296. lia.
  - simpl. change (2 ^ 32) with 4294967296. lia.
Defined.

(** X22.  A region whose size, device address or physical address is not a
    multiple of 4 KiB is refused with -EINVAL before the IOMMU layer is
    called at all, for mapping as for unmapping. *)
Theorem omap_rproc_map_unmap_misaligned (oe : omap_env) (n : nat)
    (me : rproc_mem_entry) (map : bool) :
  me_size me mod 4096 <> 0 \/ me_da me mod 4096 <> 0 \/
  me_pa me mod 4096 <> 0 ->
  omap_rproc_map_unmap oe n me map = OmapRet (- EINVAL) [OmapErr "misaligned"].
Proof.
  intros H. unfold omap_rproc_map_unmap.
  destruct (negb (IS_ALIGNED (wrap_int (me_size me)) SZ_4K) || _) eqn:E;
    [reflexivity|].
  apply aligned_check in E. tauto.
Qed.

Lemma omap_rproc_map_unmap_misaligned_witness :
  omap_rproc_map_unmap quiet_omap 0 odd_region true =
    OmapRet (- EINVAL) [OmapErr "misaligned"].
Proof.
  apply (omap_rproc_map_unmap_misaligned quiet_omap 0 odd_region true).
  right. left. vm_compute. discriminate.
Defined.

(** ** The OMAP4 backend: power on and off *)

Lemma mapped_app (a b : list omap_event) :
  mapped (a ++ b) = mapped a ++ mapped b.
Proof.
  induction a as [|ev a IH]; [reflexivity|].
  destruct ev; simpl; rewrite ?IH; reflexivity.
Qed.

Lemma unmapped_app (a b : list omap_event) :
  unmapped (a ++ b) = unmapped a ++ unmapped b.
Proof.
  induction a as [|ev a IH]; [reflexivity|].
  destruct ev; simpl; rewrite ?IH; reflexivity.
Qed.

Lemma unmapped_unmap_calls (l : list (Z * Z)) :
  unmapped (List.map unmap_call l) = l.
Proof.
  induction l as [|[da order] l IH]; [reflexivity|].
  simpl. rewrite IH. reflexivity.
Qed.

Lemma mapped_unmap_calls (l : list (Z * Z)) :
  mapped (List.map unmap_call l) = [].
Proof. induction l as [|[da order] l IH]; [reflexivity | exact IH]. Qed.

Lemma iommu_calls_app (a b : list omap_event) :
  iommu_calls (a ++ b) = (iommu_calls a + iommu_calls b)%nat.
Proof. unfold iommu_calls. rewrite filter_app, length_app. reflexivity. Qed.

Section OmapPower.

Variable oe : omap_env.
Hypothesis Hok : iommu_never_fails oe.

(** With an IOMMU layer that does not fail, the loop does the same whatever
    the number of calls made before, and unmapping walks the pages that
    mapping walks. *)
Lemma map_unmap_loop_mirror (fuel : nat) :
  forall n size da pa r evs,
  map_unmap_loop oe fuel n size da pa true = OmapRet r evs ->
  r = 0 /\ unmapped evs = [] /\
  forall n',
    map_unmap_loop oe fuel n' size da pa true = OmapRet 0 evs /\
    map_unmap_loop oe fuel n' size da pa false =
      OmapRet 0 (List.map unmap_call (mapped evs)).
Proof.
  induction fuel as [|fuel IH]; intros n size da pa r evs H;
    [discriminate H|].
  cbn [map_unmap_loop] in *.
  destruct (nonzero size).
  2: { inversion H; subst. repeat split; reflexivity. }
  cbn zeta in *.
  destruct (nth_error pg_size _) as [pg|]; [|discriminate H].
  rewrite Hok in H. change (nonzero 0) with false in H. cbn iota in H.
  destruct (map_unmap_loop oe fuel (S n) _ _ _ true) as [r' calls|w] eqn:E;
    [|discriminate H].
  inversion H; subst r evs; clear H.
  destruct (IH _ _ _ _ _ _ E) as (-> & Hun & Hany).
  split; [reflexivity|]. split; [exact Hun|].
  intros n'. rewrite !Hok. change (nonzero 0) with false. cbn iota.
  destruct (Hany (S n')) as [-> ->]. split; reflexivity.
Qed.

Lemma omap_rproc_map_unmap_mirror (n : nat) (me : rproc_mem_entry) (r : Z)
    (evs : list omap_event) :
  omap_rproc_map_unmap oe n me true = OmapRet r evs ->
  unmapped evs = [] /\
  (r <> 0 -> mapped evs = []) /\
  mapped evs = region_pages oe me /\
  (r = 0 ->
   forall n',
     omap_rproc_map_unmap oe n' me true = OmapRet 0 evs /\
     omap_rproc_map_unmap oe n' me false =
       OmapRet 0 (List.map unmap_call (mapped evs))).
Proof.
  unfold region_pages, omap_rproc_map_unmap.
  destruct (negb _ || negb _).
  - intros H. inversion H; subst.
    split; [reflexivity|]. split; [reflexivity|]. split; [reflexivity|].
    intros Hz; discriminate Hz.
  - intros H. destruct (map_unmap_loop_mirror _ _ _ _ _ _ _ H)
      as (-> & Hun & Hany).
    split; [exact Hun|]. split; [intros Hr; contradiction Hr; reflexivity|].
    destruct (Hany 0%nat) as [-> _]. split; [reflexivity|].
    intros _ n'. exact (Hany n').
Qed.

Lemma maps_well_pages (me : rproc_mem_entry) :
  maps_well oe me ->
  forall n, exists evs,
    omap_rproc_map_unmap oe n me false = OmapRet 0 evs /\
    unmapped evs = region_pages oe me /\ mapped evs = [].
Proof.
  intros (_ & evs & Hevs) n. destruct (Hevs n) as [Ht Hf].
  exists (List.map unmap_call (mapped evs)). split; [exact Hf|].
  rewrite unmapped_unmap_calls, mapped_unmap_calls.
  split; [|reflexivity].
  unfold region_pages. destruct (Hevs 0%nat) as [-> _]. reflexivity.
Qed.

(** The mapping loop stops after a number of regions that were all mapped;
    what it mapped is their pages, region after region. *)
Lemma map_regions_done (tbl : list rproc_mem_entry) :
  forall i0 n i r evs,
  map_regions oe tbl i0 n = (i, OmapRet r evs) ->
  exists done rest,
    tbl = done ++ rest /\ i = (i0 + length done)%nat /\
    Forall (maps_well oe) done /\
    mapped evs = concat (List.map (region_pages oe) done) /\
    unmapped evs = [] /\
    (r = 0 -> forall n', unmap_all oe tbl n' =
                OmapRet 0 (List.map unmap_call (mapped evs))).
Proof.
  induction tbl as [|me tbl IH]; intros i0 n i r evs H; cbn [map_regions] in H.
  { inversion H; subst. exists [], []. simpl.
    repeat split; auto. }
  destruct (me_size me =? 0) eqn:Hsz.
  { inversion H; subst. exists [], (me :: tbl). simpl.
    repeat split; auto. intros _ n'. rewrite Hsz. reflexivity. }
  destruct (omap_rproc_map_unmap oe n me true) as [r1 evs1|w] eqn:E1;
    [|discriminate H].
  destruct (omap_rproc_map_unmap_mirror _ _ _ _ E1)
    as (Hun1 & Hfail1 & Hpages1 & Hany1).
  destruct (nonzero r1) eqn:Hr1.
  { inversion H; subst. apply nonzero_true in Hr1.
    exists [], (me :: tbl). simpl.
    rewrite mapped_app, unmapped_app, Hun1, (Hfail1 Hr1).
    repeat split; auto. intros Hz. contradiction. }
  apply nonzero_false in Hr1. subst r1.
  destruct (map_regions oe tbl (S i0) (n + iommu_calls evs1))
    as [i' [r' evs'|w]] eqn:E2; [|discriminate H].
  inversion H; subst i r evs; clear H.
  destruct (IH _ _ _ _ _ E2)
    as (don & rest & -> & -> & Hwell & Hmapped & Hunmapped & Hstop).
  exists (me :: don), rest. cbn [length List.map concat app].
  rewrite mapped_app, unmapped_app, Hun1, Hunmapped, Hmapped, Hpages1.
  split; [reflexivity|]. split; [lia|]. split; [|split; [|split]].
  - constructor; [|exact Hwell]. split; [exact Hsz|].
    exists evs1. exact (Hany1 eq_refl).
  - reflexivity.
  - reflexivity.
  - intros Hz n'. cbn [unmap_all]. rewrite Hsz.
    destruct (Hany1 eq_refl n') as [_ ->].
    change (nonzero 0) with false. cbn iota.
    rewrite (Hstop Hz). rewrite <- Hpages1, <- Hmapped, map_app.
    reflexivity.
Qed.

(** The unwinding loop undoes the regions mapped, the last one first. *)
Lemma unmap_regions_done (don : list rproc_mem_entry) :
  Forall (maps_well oe) don ->
  forall rest n, exists evs,
    unmap_regions oe (don ++ rest) (length don) n = OmapRet 0 evs /\
    mapped evs = [] /\
    unmapped evs = concat (rev (List.map (region_pages oe) don)).
Proof.
  induction don as [|me don IH] using rev_ind; intros Hwell rest n.
  { exists []. repeat split. }
  apply Forall_app in Hwell. destruct Hwell as [Hdon Hme].
  inversion Hme as [|? ? Hme1 _]; subst.
  rewrite length_app, Nat.add_comm. cbn [length Nat.add unmap_regions].
  rewrite <- app_assoc. cbn [app].
  assert (Hnth : nth_error (don ++ me :: rest) (length don) = Some me).
  { rewrite nth_error_app2, Nat.sub_diag by lia. reflexivity. }
  unfold maps_size. rewrite Hnth.
  destruct Hme1 as [Hsz Hevs]. rewrite Hsz.
  destruct (maps_well_pages me (conj Hsz Hevs) n) as (evs1 & -> & Hu1 & Hm1).
  destruct (IH Hdon (me :: rest) (n + iommu_calls evs1)%nat)
    as (evs2 & -> & Hm2 & Hu2).
  exists (evs1 ++ evs2). split; [reflexivity|].
  rewrite mapped_app, unmapped_app, Hm1, Hm2, Hu1, Hu2.
  split; [reflexivity|].
  rewrite map_app, rev_app_distr. cbn [List.map rev app concat].
  reflexivity.
Qed.

End OmapPower.

Lemma map_unmap_loop_events (oe : omap_env) (map : bool) (fuel : nat) :
  forall n size da pa r evs,
  map_unmap_loop oe fuel n size da pa map = OmapRet r evs ->
  forallb is_region_event evs = true.
Proof.
  induction fuel as [|fuel IH]; intros n size da pa r evs H;
    [discriminate H|].
  cbn [map_unmap_loop] in H.
  destruct (nonzero size); [|inversion H; reflexivity].
  cbn zeta in H.
  destruct (nth_error pg_size _) as [pg|]; [|discriminate H].
  destruct (nonzero (iommu oe n _)).
  { inversion H; subst. destruct map; reflexivity. }
  destruct (map_unmap_loop oe fuel (S n) _ _ _ map) as [r' calls|w] eqn:E;
    [|discriminate H].
  inversion H; subst. cbn [forallb]. rewrite (IH _ _ _ _ _ _ E).
  destruct map; reflexivity.
Qed.

Lemma omap_rproc_map_unmap_events (oe : omap_env) (map : bool) (n : nat)
    (me : rproc_mem_entry) (r : Z) (evs : list omap_event) :
  omap_rproc_map_unmap oe n me map = OmapRet r evs ->
  forallb is_region_event evs = true.
Proof.
  unfold omap_rproc_map_unmap. destruct (negb _ || negb _).
  - intros H. inversion H. reflexivity.
  - apply map_unmap_loop_events.
Qed.

Lemma map_regions_events (oe : omap_env) (tbl : list rproc_mem_entry) :
  forall i0 n i r evs,
  map_regions oe tbl i0 n = (i, OmapRet r evs) ->
  forallb is_region_event evs = true.
Proof.
  induction tbl as [|me tbl IH]; intros i0 n i r evs H; cbn [map_regions] in H.
  { inversion H. reflexivity. }
  destruct (me_size me =? 0); [inversion H; reflexivity|].
  destruct (omap_rproc_map_unmap oe n me true) as [r1 evs1|w] eqn:E1;
    [|discriminate H].
  apply omap_rproc_map_unmap_events in E1.
  destruct (nonzero r1).
  { inversion H; subst. rewrite forallb_app, E1. reflexivity. }
  destruct (map_regions oe tbl (S i0) _) as [i' [r' evs'|w]] eqn:E2;
    [|discriminate H].
  inversion H; subst. rewrite forallb_app, E1, (IH _ _ _ _ _ E2).
  reflexivity.
Qed.

Lemma unmap_regions_events (oe : omap_env) (tbl : list rproc_mem_entry)
    (i : nat) :
  forall n r evs,
  unmap_regions oe tbl i n = OmapRet r evs ->
  forallb is_region_event evs = true.
Proof.
  induction i as [|i IH]; intros n r evs H; cbn [unmap_regions] in H.
  { inversion H. reflexivity. }
  destruct (maps_size tbl i) as [size|]; [|discriminate H].
  destruct (size =? 0); [inversion H; reflexivity|].
  destruct (nth_error tbl i) as [me|]; [|discriminate H].
  destruct (omap_rproc_map_unmap oe n me false) as [r1 evs1|w] eqn:E1;
    [|discriminate H].
  apply omap_rproc_map_unmap_events in E1.
  destruct (unmap_regions oe tbl i _) as [r2 evs2|w] eqn:E2;
    [|discriminate H].
  inversion H; subst. rewrite forallb_app, E1, (IH _ _ _ E2). reflexivity.
Qed.

Lemma region_events_quiet (evs : list omap_event) :
  forallb is_region_event evs = true ->
  ~ In IommuDetach evs /\ ~ In OmapSetPriv evs /\ ~ In IommuAttach evs.
Proof.
  intros H. rewrite forallb_forall in H.
  repeat split; intros Hin; apply H in Hin; discriminate Hin.
Qed.

(** The ways [omap_rproc_start] ends once the device is attached. *)
Lemma omap_rproc_start_attached (oe : omap_env) (tbl : list rproc_mem_entry)
    (n : nat) (r : Z) (evs : list omap_event) :
  iommu_found oe = true -> kmalloc_ok oe = true ->
  omap_find_iommu_device oe = true -> iommu_domain_alloc oe = true ->
  iommu_attach_device oe = 0 ->
  omap_rproc_start oe (Some tbl) n = OmapRet r evs ->
  exists i r1 evs1,
    map_regions oe tbl 0 n = (i, OmapRet r1 evs1) /\
    ((r = 0 /\ r1 = 0 /\
      evs = [OmapKmalloc; IommuDomainAlloc; OmapSetPriv; IommuAttach]
              ++ evs1 ++ [OmapDeviceEnable]) \/
     (r <> 0 /\
      exists evs2 r2 evs3,
        (evs2 = evs1 \/ evs2 = evs1 ++ [OmapDeviceEnable]) /\
        unmap_regions oe tbl i (n + iommu_calls evs2) = OmapRet r2 evs3 /\
        evs = [OmapKmalloc; IommuDomainAlloc; OmapSetPriv; IommuAttach]
                ++ evs2 ++ evs3 ++ [IommuDomainFree; OmapKfree])).
Proof.
  intros H1 H2 H3 H4 H5 H. unfold omap_rproc_start in H.
  rewrite H1, H2, H3, H4, H5 in H. cbn [negb] in H.
  change (nonzero 0) with false in H. cbn iota zeta in H.
  destruct (map_regions oe tbl 0 n) as [i [r1 evs1|w]] eqn:E;
    [|discriminate H].
  exists i, r1, evs1. split; [reflexivity|].
  destruct (nonzero r1) eqn:Hr1.
  { destruct (unmap_regions oe tbl i _) as [r2 evs3|w] eqn:E2;
      [|discriminate H].
    inversion H; subst r evs; clear H. apply nonzero_true in Hr1.
    right. split; [exact Hr1|]. exists evs1, r2, evs3. auto. }
  apply nonzero_false in Hr1.
  destruct (nonzero (omap_device_enable oe)) eqn:Hen.
  { destruct (unmap_regions oe tbl i _) as [r2 evs3|w] eqn:E2;
      [|discriminate H].
    inversion H; subst r evs; clear H. apply nonzero_true in Hen.
    right. split; [exact Hen|].
    exists (evs1 ++ [OmapDeviceEnable]), r2, evs3.
    rewrite <- !app_assoc. auto. }
  inversion H; subst r evs; clear H. left. auto.
Qed.

(** The ways [omap_rproc_start] ends before the device is attached. *)
Lemma omap_rproc_start_early (oe : omap_env) (tbl : list rproc_mem_entry)
    (n : nat) (r : Z) (evs : list omap_event) :
  omap_rproc_start oe (Some tbl) n = OmapRet r evs ->
  (iommu_found oe = true /\ kmalloc_ok oe = true /\
   omap_find_iommu_device oe = true /\ iommu_domain_alloc oe = true /\
   iommu_attach_device oe = 0) \/
  (r <> 0 /\ mapped evs = [] /\ unmapped evs = [] /\
   (In IommuAttach evs -> iommu_attach_device oe <> 0)).
Proof.
  unfold omap_rproc_start.
  destruct (iommu_found oe); cbn [negb].
  2: { intros H; inversion H; subst. right.
       repeat split; try reflexivity; try discriminate.
       simpl. intros [Hf|[]]. discriminate Hf. }
  destruct (kmalloc_ok oe); cbn [negb].
  2: { intros H; inversion H; subst. right.
       repeat split; try reflexivity; try discriminate.
       simpl. intros [Hf|[Hf|[]]]; discriminate Hf. }
  destruct (omap_find_iommu_device oe); cbn [negb].
  2: { intros H; inversion H; subst. right.
       repeat split; try reflexivity; try discriminate.
       simpl. intros [Hf|[Hf|[Hf|[]]]]; discriminate Hf. }
  destruct (iommu_domain_alloc oe); cbn [negb].
  2: { intros H; inversion H; subst. right.
       repeat split; try reflexivity; try discriminate.
       simpl. intros [Hf|[Hf|[Hf|[Hf|[]]]]]; discriminate Hf. }
  cbn zeta. destruct (nonzero (iommu_attach_device oe)) eqn:Hat.
  { intros H; inversion H; subst. apply nonzero_true in Hat. right.
    repeat split; try reflexivity; auto. }
  apply nonzero_false in Hat. intros _. left. auto.
Qed.

(** X23.  Power on, then power off.  With an IOMMU layer that does not fail
    and a device that shuts down, [omap_rproc_stop] after a successful
    [omap_rproc_start] on the same table shuts the processor down, unmaps
    exactly the pages that were mapped, in the order in which they were
    mapped and with the same page orders, then detaches the device and
    frees the domain.  It returns 0.  The private data that
    [omap_rproc_start] allocated is not freed. *)
Theorem omap_rproc_stop_undoes_start (oe : omap_env)
    (tbl : list rproc_mem_entry) (n n' : nat) (evs : list omap_event) :
  iommu_never_fails oe ->
  omap_device_shutdown oe = 0 ->
  omap_rproc_start oe (Some tbl) n = OmapRet 0 evs ->
  omap_rproc_stop oe (Some tbl) n' =
    OmapRet 0
      (OmapDeviceShutdown :: List.map unmap_call (mapped evs)
         ++ [IommuDetach; IommuDomainFree]).
Proof.
  intros Hok Hdown Hstart.
  destruct (omap_rproc_start_early _ _ _ _ _ Hstart)
    as [(H1 & H2 & H3 & H4 & H5)|(Hr & _)]; [|contradiction Hr; reflexivity].
  destruct (omap_rproc_start_attached _ _ _ _ _ H1 H2 H3 H4 H5 Hstart)
    as (i & r1 & evs1 & Hmap & [(_ & -> & ->)|(Hr & _)]);
    [|contradiction Hr; reflexivity].
  destruct (map_regions_done oe Hok _ _ _ _ _ _ Hmap)
    as (don & rest & _ & _ & _ & _ & _ & Hstop).
  unfold omap_rproc_stop. rewrite Hdown. change (nonzero 0) with false.
  cbn iota zeta. rewrite (Hstop eq_refl n').
  change (nonzero 0) with false. cbn iota.
  cbn [app mapped]. rewrite mapped_app. cbn [mapped].
  rewrite app_nil_r. reflexivity.
Qed.

Lemma omap_rproc_stop_undoes_start_witness :
  exists evs,
    omap_rproc_start quiet_omap (Some [ipu_region; small_region]) 0 =
      OmapRet 0 evs /\
    omap_rproc_stop quiet_omap (Some [ipu_region; small_region]) 5 =
      OmapRet 0
        (OmapDeviceShutdown :: List.map unmap_call (mapped evs)
           ++ [IommuDetach; IommuDomainFree]).
Proof.
  eexists. split; [vm_compute; reflexivity|].
  apply (omap_rproc_stop_undoes_start quiet_omap
           [ipu_region; small_region] 0 5).
  - intros k call. reflexivity.
  - reflexivity.
  - vm_compute. reflexivity.
Defined.

(** X24.  A failure of [omap_rproc_start] after the IOMMU device was
    attached, be it a region that cannot be mapped or a processor that
    cannot be powered on.  The function ends by freeing the domain and then
    the private data, and at no point detaches the device; [rproc->priv],
    stored before the device was attached, is not written again and so is
    left pointing at the freed data. *)
Theorem omap_rproc_start_failure_attached (oe : omap_env)
    (tbl : list rproc_mem_entry) (n : nat) (r : Z) (evs : list omap_event) :
  iommu_attach_device oe = 0 ->
  In IommuAttach evs ->
  r <> 0 ->
  omap_rproc_start oe (Some tbl) n = OmapRet r evs ->
  exists mid,
    evs = [OmapKmalloc; IommuDomainAlloc; OmapSetPriv; IommuAttach]
            ++ mid ++ [IommuDomainFree; OmapKfree] /\
    ~ In IommuDetach mid /\ ~ In OmapSetPriv mid.
Proof.
  intros Hat Hin Hr Hstart.
  destruct (omap_rproc_start_early _ _ _ _ _ Hstart)
    as [(H1 & H2 & H3 & H4 & H5)|(_ & _ & _ & Hno)];
    [|contradiction (Hno Hin)].
  destruct (omap_rproc_start_attached _ _ _ _ _ H1 H2 H3 H4 H5 Hstart)
    as (i & r1 & evs1 & Hmap
        & [(Hz & _)|(_ & evs2 & r2 & evs3 & Hevs2 & Hun & ->)]);
    [contradiction|].
  exists (evs2 ++ evs3). rewrite <- app_assoc. split; [reflexivity|].
  apply map_regions_events in Hmap. apply unmap_regions_events in Hun.
  assert (Hall : forallb is_region_event (evs2 ++ evs3) = true).
  { rewrite forallb_app, Hun.
    destruct Hevs2 as [->| ->]; [rewrite Hmap; reflexivity|].
    rewrite forallb_app, Hmap. reflexivity. }
  destruct (region_events_quiet _ Hall) as (Hd & Hs & _). auto.
Qed.

Lemma omap_rproc_start_failure_attached_witness :
  exists evs mid,
    omap_rproc_start no_power_omap (Some [ipu_region; small_region]) 0 =
      OmapRet (- ENODEV) evs /\
    evs = [OmapKmalloc; IommuDomainAlloc; OmapSetPriv; IommuAttach]
            ++ mid ++ [IommuDomainFree; OmapKfree] /\
    ~ In IommuDetach mid /\ ~ In OmapSetPriv mid.
Proof.
  eexists.
  assert (Hrun : omap_rproc_start no_power_omap
                   (Some [ipu_region; small_region]) 0 =
                 OmapRet (- ENODEV) _) by (vm_compute; reflexivity).
  pose proof (fun Hin Hr =>
                omap_rproc_start_failure_attached no_power_omap
                  [ipu_region; small_region] 0 (- ENODEV) _
                  eq_refl Hin Hr Hrun) as W.
  destruct W as (mid & Hmid); [simpl; tauto | discriminate |].
  exists mid. split; [exact Hrun | exact Hmid].
Defined.

(** X25.  Unwinding.  With an IOMMU layer that does not fail, whenever
    [omap_rproc_start] fails, every page it mapped has been unmapped again
    when it returns: for some number [i] of entries of the table, what was
    mapped is the pages of the first [i] regions, region after region, and
    what was unmapped is the pages of the same regions, the last region
    first. *)
Theorem omap_rproc_start_unwinds (oe : omap_env) (tbl : list rproc_mem_entry)
    (n : nat) (r : Z) (evs : list omap_event) :
  iommu_never_fails oe ->
  r <> 0 ->
  omap_rproc_start oe (Some tbl) n = OmapRet r evs ->
  exists i,
    mapped evs = concat (List.map (region_pages oe) (firstn i tbl)) /\
    unmapped evs = concat (rev (List.map (region_pages oe) (firstn i tbl))).
Proof.
  intros Hok Hr Hstart.
  destruct (omap_rproc_start_early _ _ _ _ _ Hstart)
    as [(H1 & H2 & H3 & H4 & H5)|(_ & Hm & Hu & _)].
  2: { exists 0%nat. rewrite Hm, Hu. split; reflexivity. }
  destruct (omap_rproc_start_attached _ _ _ _ _ H1 H2 H3 H4 H5 Hstart)
    as (i & r1 & evs1 & Hmap
        & [(Hz & _)|(_ & evs2 & r2 & evs3 & Hevs2 & Hun & ->)]);
    [contradiction|].
  destruct (map_regions_done oe Hok _ _ _ _ _ _ Hmap)
    as (don & rest & -> & -> & Hwell & Hmapped & Hunmapped & _).
  cbn [Nat.add] in Hun.
  destruct (unmap_regions_done oe don Hwell rest (n + iommu_calls evs2))
    as (evs3' & Hun' & Hm3 & Hu3).
  rewrite Hun in Hun'. inversion Hun'; subst r2 evs3'; clear Hun'.
  exists (length don).
  rewrite firstn_app, firstn_all, Nat.sub_diag, firstn_O, app_nil_r.
  cbn [app mapped unmapped].
  rewrite !mapped_app, !unmapped_app, Hm3, Hu3. cbn [mapped unmapped].
  rewrite !app_nil_r.
  destruct Hevs2 as [->| ->].
  - rewrite Hmapped, Hunmapped. split; reflexivity.
  - rewrite mapped_app, unmapped_app, Hmapped, Hunmapped. cbn [mapped unmapped].
    rewrite !app_nil_r. split; reflexivity.
Qed.

Lemma omap_rproc_start_unwinds_witness :
  exists evs i,
    omap_rproc_start no_power_omap (Some [ipu_region; small_region]) 0 =
      OmapRet (- ENODEV) evs /\
    mapped evs =
      concat (List.map (region_pages no_power_omap)
                (firstn i [ipu_region; small_region])) /\
    unmapped evs =
      concat (rev (List.map (region_pages no_power_omap)
                     (firstn i [ipu_region; small_region]))).
Proof.
  eexists.
  assert (Hrun : omap_rproc_start no_power_omap
                   (Some [ipu_region; small_region]) 0 =
                 OmapRet (- ENODEV) _) by (vm_compute; reflexivity).
  pose proof (fun Hok Hr =>
                omap_rproc_start_unwinds no_power_omap
                  [ipu_region; small_region] 0 (- ENODEV) _
                  Hok Hr Hrun) as W.
  destruct W as (i & Hi); [intros k call; reflexivity | discriminate |].
  exists i. split; [exact Hrun | exact Hi].
Defined.

(** ** Mappings made and undone by a load *)

Lemma mappings_app (a b : list event) :
  mappings (a ++ b) = (mappings a + mappings b)%nat.
Proof. unfold mappings. rewrite filter_app, length_app. reflexivity. Qed.

Lemma unmappings_app (a b : list event) :
  unmappings (a ++ b) = (unmappings a + unmappings b)%nat.
Proof. unfold unmappings. rewrite filter_app, length_app. reflexivity. Qed.

Lemma rproc_handle_trace_rsc_maps (phys_addr_bits : Z) (e : env)
    (rsc : fw_resource) (m m' : machine) (r : Z) (evs : list event) :
  rproc_handle_trace_rsc phys_addr_bits e rsc m = Ret r m' evs ->
  unmappings evs = 0%nat /\
  (mappings evs + bound_slots (this m) = bound_slots (this m'))%nat.
Proof.
  intros H. unfold rproc_handle_trace_rsc in H. run_in H;
    unfold mappings, unmappings, bound_slots; cbn [filter is_mapped is_unmapped
      length this trace_buf0 trace_buf1 with_trace0 with_trace1];
    repeat match goal with
    | H : negb _ = true |- _ => apply negb_true_iff in H
    | H : negb _ = false |- _ => apply negb_false_iff in H
    | H : _ && _ = false |- _ => apply andb_false_iff in H; destruct H
    end;
    repeat match goal with
    | H : nonzero _ = _ |- _ => rewrite H in *
    end;
    try (split; reflexivity); try discriminate.
Qed.

Lemma handle_resource_maps (phys_addr_bits : Z) (e : env)
    (rsc : fw_resource) (bootaddr b' r : Z) (m m' : machine)
    (evs : list event) :
  handle_resource phys_addr_bits e rsc bootaddr m = Ret (r, b') m' evs ->
  unmappings evs = 0%nat /\
  (mappings evs + bound_slots (this m) = bound_slots (this m'))%nat.
Proof.
  unfold handle_resource. intros H.
  destruct (rsc_type rsc =? RSC_TRACE).
  - apply bind_inv in H. destruct H as (r1 & s1 & e1 & e2 & H1 & H2 & ->).
    apply rproc_handle_trace_rsc_maps in H1. destruct H1 as [Hu Hm].
    rewrite mappings_app, unmappings_app, Hu.
    run_in H2; cbn; split; lia.
  - run_in H; split; reflexivity.
Qed.

Lemma handle_resources_loop_maps (phys_addr_bits : Z) (e : env)
    (rsc : list fw_resource) :
  forall len bootaddr b' r m m' evs,
  handle_resources_loop phys_addr_bits e rsc len bootaddr m =
    Ret (r, b') m' evs ->
  unmappings evs = 0%nat /\
  (mappings evs + bound_slots (this m) = bound_slots (this m'))%nat.
Proof.
  induction rsc as [|entry rest IH]; intros len bootaddr b' r m m' evs H;
    cbn [handle_resources_loop] in H.
  - run_in H. split; reflexivity.
  - destruct (size_t_ge len sizeof_fw_resource);
      [|run_in H; split; reflexivity].
    apply bind_inv in H.
    destruct H as ([r1 b1] & s1 & e1 & e2 & H1 & H2 & ->).
    apply handle_resource_maps in H1. destruct H1 as [Hu1 Hm1].
    rewrite mappings_app, unmappings_app, Hu1.
    destruct (nonzero r1).
    + run_in H2. cbn. split; lia.
    + apply IH in H2. destruct H2 as [Hu2 Hm2]. split; lia.
Qed.

(** What [rproc_handle_resources] maps it binds to a trace slot, and when
    it fails it unmaps every bound slot. *)
Lemma rproc_handle_resources_maps (phys_addr_bits : Z) (e : env)
    (rsc : list fw_resource) (len bootaddr b' r : Z) (m m' : machine)
    (evs : list event) :
  rproc_handle_resources phys_addr_bits e rsc len bootaddr m =
    Ret (r, b') m' evs ->
  (mappings evs + bound_slots (this m) =
   unmappings evs + (if nonzero r then 0 else bound_slots (this m')))%nat.
Proof.
  unfold rproc_handle_resources. intros H. apply bind_inv in H.
  destruct H as ([r1 b1] & s1 & e1 & e2 & H1 & H2 & ->).
  apply handle_resources_loop_maps in H1. destruct H1 as [Hu1 Hm1].
  rewrite mappings_app, unmappings_app, Hu1.
  unfold when in H2. rewrite bind_get_rproc in H2.
  unfold bound_slots in *.
  destruct (nonzero r1) eqn:Hr1; cbn [andb] in H2.
  - destruct (nonzero (trace_buf0 (this s1))) eqn:H0;
      destruct (nonzero (trace_buf1 (this s1))) eqn:H1';
      run_in H2; rewrite ?Hr1, ?H0, ?H1' in *; cbn; cbn in Hm1; lia.
  - run_in H2. rewrite Hr1. cbn. unfold bound_slots in Hm1. lia.
Qed.

Lemma handle_resource_failed (phys_addr_bits : Z) (e : env)
    (rsc : fw_resource) (bootaddr b' r : Z) (m m' : machine)
    (evs : list event) :
  handle_resource phys_addr_bits e rsc bootaddr m = Ret (r, b') m' evs ->
  r <> 0 -> existsb is_trace_refused evs = true.
Proof.
  unfold handle_resource. intros H Hr.
  destruct (rsc_type rsc =? RSC_TRACE).
  - apply bind_inv in H. destruct H as (r1 & s1 & e1 & e2 & H1 & H2 & ->).
    rewrite existsb_app. apply orb_true_iff. right.
    destruct (nonzero r1) eqn:Hr1; run_in H2; [reflexivity|].
    apply nonzero_false in Hr1. contradiction.
  - run_in H; contradiction Hr; reflexivity.
Qed.

Lemma handle_resources_loop_failed (phys_addr_bits : Z) (e : env)
    (rsc : list fw_resource) :
  forall len bootaddr b' r m m' evs,
  handle_resources_loop phys_addr_bits e rsc len bootaddr m =
    Ret (r, b') m' evs ->
  r <> 0 -> existsb is_trace_refused evs = true.
Proof.
  induction rsc as [|entry rest IH]; intros len bootaddr b' r m m' evs H Hr;
    cbn [handle_resources_loop] in H.
  - run_in H. contradiction Hr; reflexivity.
  - destruct (size_t_ge len sizeof_fw_resource);
      [|run_in H; contradiction Hr; reflexivity].
    apply bind_inv in H.
    destruct H as ([r1 b1] & s1 & e1 & e2 & H1 & H2 & ->).
    rewrite existsb_app. apply orb_true_iff.
    destruct (nonzero r1) eqn:Hr1.
    + run_in H2. left. eapply handle_resource_failed; eauto.
    + right. eapply IH; eauto.
Qed.

Lemma rproc_handle_resources_failed (phys_addr_bits : Z) (e : env)
    (rsc : list fw_resource) (len bootaddr b' r : Z) (m m' : machine)
    (evs : list event) :
  rproc_handle_resources phys_addr_bits e rsc len bootaddr m =
    Ret (r, b') m' evs ->
  r <> 0 -> existsb is_trace_refused evs = true.
Proof.
  unfold rproc_handle_resources. intros H Hr. apply bind_inv in H.
  destruct H as ([r1 b1] & s1 & e1 & e2 & H1 & H2 & ->).
  rewrite existsb_app. apply orb_true_iff. left.
  eapply handle_resources_loop_failed; [exact H1|].
  unfold when in H2. rewrite bind_get_rproc in H2.
  destruct (nonzero r1 && nonzero (trace_buf0 (this s1)));
    destruct (nonzero r1 && nonzero (trace_buf1 (this s1)));
    run_in H2; exact Hr.
Qed.

Lemma process_fw_loop_maps (phys_addr_bits : Z) (e : env) (fuel : nat) :
  forall section left bootaddr b' r m m' evs,
  process_fw_loop phys_addr_bits e fuel section left bootaddr m =
    Ret (r, b') m' evs ->
  (mappings evs + bound_slots (this m) =
   unmappings evs +
   (if existsb is_trace_refused evs then 0 else bound_slots (this m')))%nat.
Proof.
  induction fuel as [|fuel IH];
    intros section left bootaddr b' r m m' evs H; [discriminate|].
  cbn [process_fw_loop] in H.
  destruct (size_t_gt _ _); [|run_in H; reflexivity].
  destruct (read_fw_section section) as [hdr|]; [|discriminate].
  destruct (to_u32 _ <? _); [run_in H; reflexivity|].
  rewrite bind_get_rproc in H.
  destruct (rproc_da_to_pa _ _ _) as [pa|]; [|run_in H; reflexivity].
  rewrite bind_do_ioremap in H. cbn beta iota zeta in H.
  destruct (nonzero (ioremap_nocache e (ioremaps m) pa (sec_len hdr)))
    eqn:Hptr; cbn [negb] in H.
  2: { run_in H. unfold mappings, unmappings. cbn. rewrite Hptr. reflexivity. }
  destruct (bytes_at _ _ _) as [content|]; [|discriminate].
  rewrite bind_emit in H.
  destruct (bind _ _ _) as [[r0 b0] s0 e0|] eqn:Hrest; [|discriminate].
  cbn in H. inversion H; subst; clear H.
  apply bind_inv in Hrest.
  destruct Hrest as ([r1 b1] & s1 & e1 & e2 & H1 & H2 & ->).
  rewrite bind_emit in H2.
  change (EvIoremap ?a ?b ?c :: EvMemcpy ?d ?f :: ?l)
    with ([EvIoremap a b c; EvMemcpy d f] ++ l).
  rewrite !mappings_app, !unmappings_app, !existsb_app.
  unfold mappings at 1, unmappings at 1.
  cbn [filter is_mapped is_unmapped length existsb is_trace_refused orb].
  rewrite Hptr. cbn [length Nat.add].
  assert (Hsec :
    (mappings e1 + bound_slots (this m) =
     unmappings e1 + (if nonzero r1 then 0 else bound_slots (this s1)))%nat /\
    (existsb is_trace_refused e1 = true -> r1 <> 0) /\
    (r1 <> 0 -> existsb is_trace_refused e1 = true)).
  { destruct (sec_type hdr =? FW_RESOURCE).
    - split; [exact (rproc_handle_resources_maps _ _ _ _ _ _ _ _ _ _ H1)|].
      split; [|exact (rproc_handle_resources_failed _ _ _ _ _ _ _ _ _ _ H1)].
      apply (rproc_handle_resources_refused _ _ _ _ _ _ _ _ _ _ H1).
    - run_in H1. change (nonzero 0) with false. cbn.
      repeat split; auto; try discriminate. }
  destruct Hsec as (Hbal & Hr1 & Hr1').
  destruct (nonzero r1) eqn:Hnz.
  - run_in H2. apply nonzero_true in Hnz. rewrite (Hr1' Hnz).
    cbn. lia.
  - destruct (existsb is_trace_refused e1) eqn:Hex.
    { apply nonzero_false in Hnz. contradiction (Hr1 eq_refl). }
    destruct (process_fw_loop _ _ _ _ _ _ _) as [[r2 b2] s2 e3|] eqn:H3;
      [|discriminate].
    cbn in H2. inversion H2; subst; clear H2.
    apply IH in H3.
    change (EvIounmap ?p :: ?l) with ([EvIounmap p] ++ l).
    rewrite mappings_app, unmappings_app, existsb_app.
    cbn [existsb is_trace_refused orb]. cbn [this] in H3.
    unfold mappings at 2, unmappings at 2. cbn. lia.
Qed.

Lemma rproc_start_maps (e : env) (bootaddr : Z) (m m' : machine)
    (evs : list event) :
  rproc_start e bootaddr m = Ret tt m' evs ->
  mappings evs = 0%nat /\ unmappings evs = 0%nat /\
  existsb is_trace_refused evs = false /\
  bound_slots (this m') = bound_slots (this m).
Proof.
  intros H. unfold rproc_start in H. run_in H; repeat split; reflexivity.
Qed.

(** X26.  Every mapping is accounted for.  Whatever the blob, when
    [rproc_load_fw] returns, the mappings it obtained from
    [ioremap_nocache], together with the trace slots that were bound
    before, are as many as the mappings it undid and the trace slots bound
    now: each section is unmapped after it was copied, and a trace buffer
    stays mapped in its slot.  In a load in which a trace entry was refused
    the count closes without the slots: all mappings were undone, those
    still recorded in the slots included. *)
Theorem rproc_load_fw_mappings (phys_addr_bits : Z) (e : env)
    (fw : option (list byte)) (m m' : machine) (evs : list event) :
  rproc_load_fw phys_addr_bits e fw m = Ret tt m' evs ->
  (mappings evs + bound_slots (this m) =
   unmappings evs +
   (if existsb is_trace_refused evs then 0 else bound_slots (this m')))%nat.
Proof.
  unfold rproc_load_fw, rproc_process_fw. intros H.
  destruct fw as [data|]; [|run_in H; reflexivity].
  rewrite bind_emit in H.
  destruct (bind _ _ m) as [[] s0 e0|] eqn:Hrest; [|discriminate].
  cbn in H. inversion H; subst; clear H.
  apply bind_inv in Hrest.
  destruct Hrest as ([] & s1 & e1 & e2 & H1 & H2 & ->).
  assert (Hend : this m' = with_completion true (this s1) /\
                 e2 = [EvReleaseFirmware; EvCompleteAll]).
  { run_in H2. split; reflexivity. }
  destruct Hend as [Hm' ->].
  assert (Hb : bound_slots (this m') = bound_slots (this s1))
    by (rewrite Hm'; reflexivity).
  rewrite Hb.
  change (EvInfo ?a :: ?l) with ([EvInfo a] ++ l).
  rewrite !mappings_app, !unmappings_app, !existsb_app.
  change (mappings [EvInfo "Loaded fw image"]) with 0%nat.
  change (unmappings [EvInfo "Loaded fw image"]) with 0%nat.
  change (mappings [EvReleaseFirmware; EvCompleteAll]) with 0%nat.
  change (unmappings [EvReleaseFirmware; EvCompleteAll]) with 0%nat.
  cbn [existsb is_trace_refused orb]. rewrite orb_false_r, !Nat.add_0_r.
  cbn [Nat.add]. clear H2 Hm' Hb m'.
  destruct (_ <? _); [run_in H1; reflexivity|].
  destruct (negb _); [run_in H1; reflexivity|].
  rewrite bind_emit in H1.
  destruct (bind _ _ m) as [[] s2 e3|] eqn:Hrest; [|discriminate].
  cbn in H1. inversion H1; subst; clear H1.
  apply bind_inv in Hrest.
  destruct Hrest as ([r b] & s3 & e4 & e5 & H3 & H4 & ->).
  pose proof (process_fw_loop_maps _ _ _ _ _ _ _ _ _ _ _ H3) as Hbal.
  change (EvInfo ?a :: ?l) with ([EvInfo a] ++ l).
  rewrite !mappings_app, !unmappings_app, !existsb_app.
  change (mappings [EvInfo "BIOS image version"]) with 0%nat.
  change (unmappings [EvInfo "BIOS image version"]) with 0%nat.
  cbn [existsb is_trace_refused orb Nat.add].
  destruct (nonzero r).
  - run_in H4. cbn. rewrite orb_false_r. lia.
  - apply rproc_start_maps in H4. destruct H4 as (-> & -> & -> & ->).
    rewrite orb_false_r. lia.
Qed.

Lemma rproc_load_fw_mappings_witness :
  exists m' evs,
    rproc_load_fw 32 quiet_env (Some three_trace_image) loading_machine =
      Ret tt m' evs /\
    (mappings evs + bound_slots (this loading_machine) =
     unmappings evs +
     (if existsb is_trace_refused evs then 0 else bound_slots (this m')))%nat.
Proof.
  eexists. eexists.
  assert (Hrun : rproc_load_fw 32 quiet_env (Some three_trace_image)
                   loading_machine = Ret tt _ _) by (vm_compute; reflexivity).
  split; [exact Hrun|].
  exact (rproc_load_fw_mappings 32 quiet_env (Some three_trace_image)
           loading_machine _ _ Hrun).
Defined.

(** ** The DaVinci backend *)

Lemma land_1023 (x : Z) : nonzero (Z.land x 1023) = false <-> x mod 1024 = 0.
Proof.
  change 1023 with (Z.ones 10). rewrite Z.land_ones by lia.
  change (2 ^ 10) with 1024. unfold nonzero.
  rewrite negb_false_iff, Z.eqb_eq. reflexivity.
Qed.

Lemma IS_ERR_OR_NULL_spec (ptr : Z) :
  0 <= ptr < 2 ^ 32 ->
  (IS_ERR_OR_NULL ptr = false <-> 0 < ptr < 2 ^ 32 - 4095).
Proof.
  intros H. unfold IS_ERR_OR_NULL, IS_ERR_VALUE, MAX_ERRNO.
  replace (to_u32 (- (4095))) with 4294963201 by reflexivity.
  change (2 ^ 32) with 4294967296 in *.
  rewrite orb_false_iff, Z.eqb_neq, Z.leb_gt. lia.
Qed.

(** X27.  [davinci_rproc_start] and its return value.  The DSP is taken out
    of reset exactly when the boot address is a multiple of 1 KiB and
    [clk_get] answered a clock: then the function returns 0 after three
    register writes, reset asserted, the low 32 bits of the boot address,
    reset released.  It also returns 0, without touching a register or a
    clock, when the boot address is aligned and [clk_get] answered NULL,
    the error code of a NULL pointer being 0. *)
Theorem davinci_rproc_start_result (bootaddr clk psc_base : Z) :
  0 <= clk < 2 ^ 32 ->
  let r := fst (davinci_rproc_start bootaddr clk psc_base) in
  let evs := snd (davinci_rproc_start bootaddr clk psc_base) in
  (raw_writes evs <> [] <->
   bootaddr mod 1024 = 0 /\ 0 < clk < 2 ^ 32 - 4095) /\
  (raw_writes evs <> [] ->
   r = 0 /\
   raw_writes evs =
     [(NEXT_ENABLED, MDCTL_GEM psc_base);
      (bootaddr mod 2 ^ 32, HOST1CFG);
      (LRST + NEXT_ENABLED, MDCTL_GEM psc_base)]) /\
  (r = 0 /\ raw_writes evs = [] <-> bootaddr mod 1024 = 0 /\ clk = 0).
Proof.
  intros Hclk. cbv zeta. unfold davinci_rproc_start.
  pose proof (land_1023 bootaddr) as Hal.
  pose proof (IS_ERR_OR_NULL_spec clk Hclk) as Herr.
  destruct (nonzero (Z.land bootaddr 1023)).
  { cbn [fst snd raw_writes].
    assert (bootaddr mod 1024 <> 0) by (intros H; apply Hal in H; discriminate).
    split.
    { split; [intros Hf; contradiction Hf; reflexivity
             | intros [Hm _]; contradiction]. }
    split; [intros Hf; contradiction Hf; reflexivity|].
    split; [intros [Hf _]; discriminate Hf | intros [Hm _]; contradiction]. }
  assert (Hmod : bootaddr mod 1024 = 0) by (apply Hal; reflexivity).
  destruct (IS_ERR_OR_NULL clk) eqn:E.
  - cbn [fst snd raw_writes].
    assert (Hno : ~ (0 < clk < 2 ^ 32 - 4095))
      by (intros H; apply Herr in H; discriminate).
    split.
    { split; [intros Hf; contradiction Hf; reflexivity
             | intros [_ Hc]; contradiction]. }
    split; [intros Hf; contradiction Hf; reflexivity|].
    split.
    + intros [Hr _]. split; [exact Hmod|]. unfold PTR_ERR in Hr.
      assert (Hz : wrap_int clk = 0).
      { rewrite <- Hr. symmetry. apply wrap_int_small.
        pose proof (wrap_int_range clk). unfold INT_MAX. lia. }
      apply (int_zero_iff (wrap_int clk) (wrap_int_range clk)) in Hz.
      rewrite to_u32_wrap_int in Hz. unfold to_u32 in Hz.
      rewrite Z.mod_small in Hz by lia. exact Hz.
    + intros [_ ->]. split; reflexivity.
  - cbn [fst snd raw_writes].
    assert (Hyes : 0 < clk < 2 ^ 32 - 4095) by (apply Herr; reflexivity).
    split; [split; [auto | intros _; discriminate]|].
    split; [intros _; split; reflexivity|].
    split; [intros [_ Hf]; discriminate Hf | intros [_ Hz]; lia].
Qed.

Lemma davinci_rproc_start_result_witness :
  let r := fst (davinci_rproc_start 0xc3000000 0 0xfe000000) in
  let evs := snd (davinci_rproc_start 0xc3000000 0 0xfe000000) in
  (raw_writes evs <> [] <->
   0xc3000000 mod 1024 = 0 /\ 0 < 0 < 2 ^ 32 - 4095) /\
  (raw_writes evs <> [] ->
   r = 0 /\
   raw_writes evs =
     [(NEXT_ENABLED, MDCTL_GEM 0xfe000000);
      (0xc3000000 mod 2 ^ 32, HOST1CFG);
      (LRST + NEXT_ENABLED, MDCTL_GEM 0xfe000000)]) /\
  (r = 0 /\ raw_writes evs = [] <-> 0xc3000000 mod 1024 = 0 /\ 0 = 0).
Proof.
  apply (davinci_rproc_start_result 0xc3000000 0 0xfe000000).
  change (2 ^ 32) with 4294967296. lia.
Defined.
